(** * fx-dashboard: tick store, collection cycle, OHLC candles, analysis guard

    A shallow embedding of the three server programs of the repository
    (src/unnamed/part_000, part_001 and part_002) and the properties of
    the specification that can be settled on them.

    Conventions of the embedding.
    - A JavaScript number is a [jsnum]: a finite value, the two
      infinities, or NaN.  A finite value is carried as a rational, and
      stands for the IEEE 754 double nearest to it, so that a number can
      be carried as the source or a page writes it (4.2345, 0.734).
      Subtraction and [toFixed] work on the doubles their operands stand
      for: [double] rounds to nearest, ties to even.  The rationals
      carried are zero or of a magnitude that finite doubles other than
      zero have; the sign of zero is not modelled.
    - Timestamps are integers ([Z]) below 2^53, as [Date.now()] gives
      them.  Widths and ranges in milliseconds are carried as the exact
      integers the texts write; these are the values the source computes
      for every count whose product with the unit does not exceed 2^53.
    - The SQLite table [ticks] is the list of its rows in rowid order.
    - The object [state] is one shared object: a variable of the source
      that holds it ([latest], [inputs.latest]) is carried as a reference
      to it, and read from the snapshot of the moment it is read.
    - What the crawlers, the clock and the text generator return is an
      input of the modelled function. *)

From Stdlib Require Import ZArith QArith Qround Qabs Lia List Bool String Ascii.
From Stdlib Require Import Sorting.Sorted Sorting.Permutation.
From stdpp Require Import gmap strings.
Import ListNotations.

Open Scope string_scope.
Open Scope list_scope.
Open Scope Z_scope.

(** ** JavaScript values *)

Inductive jsnum : Type :=
| Fin (q : Q)
| PosInf
| NegInf
| NaN.

Inductive jsval : Type :=
| JNull
| JUndefined
| JNum (n : jsnum).

(** [typeof v === "number"] *)
Definition is_number (v : jsval) : bool :=
  match v with JNum _ => true | _ => false end.

(** [Number.isFinite(n)] *)
Definition isFinite (n : jsnum) : bool :=
  match n with Fin _ => true | _ => false end.

(** [isNaN(n)] on a number *)
Definition isNaN (n : jsnum) : bool :=
  match n with NaN => true | _ => false end.

(** Truthiness of a value, as tested by [if (v)]: null, undefined, NaN and
    zero are falsy. *)
Definition truthy (v : jsval) : bool :=
  match v with
  | JNum (Fin q) => negb (Qeq_bool q 0)
  | JNum NaN => false
  | JNum _ => true
  | _ => false
  end.

(** *** Doubles *)

(** The integer nearest to a rational; of two nearest, the even one. *)
Definition round_half_even (q : Q) : Z :=
  let f := Qfloor q in
  match (q - inject_Z f ?= 1 # 2)%Q with
  | Lt => f
  | Gt => f + 1
  | Eq => if Z.even f then f else f + 1
  end.

(** The binary exponent of a positive rational: the [e] with
    [2 ^ e <= q < 2 ^ (e + 1)]. *)
Definition binade (q : Q) : Z :=
  let e := Z.log2 (Qnum q) - Z.log2 (Zpos (Qden q)) in
  if Qle_bool (2 ^ e) q then e else e - 1.

(** The double nearest to a rational: binary64, with 53 bits of
    significand from the exponent -1022 on, round to nearest, ties to
    even; an infinity when the rounded magnitude reaches 2^1024. *)
Definition double (q : Q) : jsnum :=
  if Qeq_bool q 0 then Fin 0
  else
    let a := Qabs q in
    let e := Z.max (binade a) (-1022) in
    let ulp := (2 ^ (e - 52))%Q in
    let r := (inject_Z (round_half_even (a / ulp)) * ulp)%Q in
    if Qle_bool (2 ^ 1024) r then (if Qle_bool 0 q then PosInf else NegInf)
    else Fin (Qred (if Qle_bool 0 q then r else - r)).

(** The double a carried number stands for. *)
Definition as_double (a : jsnum) : jsnum :=
  match a with Fin q => double q | _ => a end.

(** [a - b]: the difference of the two doubles, rounded to a double. *)
Definition js_sub (a b : jsnum) : jsnum :=
  match as_double a, as_double b with
  | NaN, _ | _, NaN => NaN
  | PosInf, PosInf | NegInf, NegInf => NaN
  | PosInf, _ => PosInf
  | NegInf, _ => NegInf
  | Fin _, PosInf => NegInf
  | Fin _, NegInf => PosInf
  | Fin x, Fin y => double (x - y)
  end.

(** [x.toFixed(f)] takes the integer [n] for which [n / 10^f] is nearest
    to the exact value of the double [x], the larger [n] of two, after
    the sign is set aside: the nearest multiple of [1 / k], ties away
    from zero. *)
Definition round_at (k : positive) (q : Q) : Q :=
  if Qle_bool 0 q
  then Qmake (Qfloor (q * inject_Z (Zpos k) + (1 # 2))) k
  else Qmake (- Qfloor ((- q) * inject_Z (Zpos k) + (1 # 2))) k.

Definition round3 (q : Q) : Q := round_at 1000 q.

(** The number written by the text [x.toFixed(f)], with [k = 10^f]: the
    decimal with [f] places nearest to the double; from 10^21 on
    [toFixed] writes the number itself, and NaN and the infinities are
    written and read back as themselves. *)
Definition toFixed (k : positive) (a : jsnum) : jsnum :=
  match as_double a with
  | Fin x => if Qle_bool (10 ^ 21) (Qabs x) then Fin x else Fin (round_at k x)
  | other => other
  end.

(** [+(x).toFixed(3)] *)
Definition toFixed3 (a : jsnum) : jsnum := toFixed 1000 a.

(** The number written by [(x).toFixed(2)] *)
Definition toFixed2 (a : jsnum) : jsnum := toFixed 100 a.

(** [Math.max(a, b)] and [Math.min(a, b)] *)
Definition Math_max (a b : jsnum) : jsnum :=
  match a, b with
  | NaN, _ | _, NaN => NaN
  | PosInf, _ | _, PosInf => PosInf
  | NegInf, x | x, NegInf => x
  | Fin x, Fin y => if Qle_bool x y then Fin y else Fin x
  end.

Definition Math_min (a b : jsnum) : jsnum :=
  match a, b with
  | NaN, _ | _, NaN => NaN
  | NegInf, _ | _, NegInf => NegInf
  | PosInf, x | x, PosInf => x
  | Fin x, Fin y => if Qle_bool x y then Fin x else Fin y
  end.

(** The order of numbers; nothing compares with NaN. *)
Definition js_le (a b : jsnum) : Prop :=
  match a, b with
  | NaN, _ | _, NaN => False
  | NegInf, _ | _, PosInf => True
  | Fin x, Fin y => (x <= y)%Q
  | _, _ => False
  end.

(** ** Strings: the pieces of [String.prototype] the servers use *)

Definition is_digit (c : ascii) : bool :=
  let n := nat_of_ascii c in (Nat.leb 48 n && Nat.leb n 57)%bool.

Definition digit_val (c : ascii) : Z := Z.of_nat (nat_of_ascii c) - 48.

Definition ascii_mem (c : ascii) (cs : list ascii) : bool :=
  existsb (Ascii.eqb c) cs.

(** [s.match(/^(\d+)([units])$/)] followed by [parseInt(m[1], 10)]: the
    count and the unit letter when the whole string is one or more decimal
    digits and then one letter of [units].  The count is carried as the
    integer the digits write, which is what [parseInt] gives up to 2^53;
    beyond, [parseInt] gives the double nearest to it. *)
Fixpoint scan_count (units : list ascii) (seen : bool) (acc : Z) (s : string)
  : option (Z * ascii) :=
  match s with
  | EmptyString => None
  | String c rest =>
      if is_digit c then scan_count units true (10 * acc + digit_val c) rest
      else if (seen && ascii_mem c units)%bool then
        match rest with
        | EmptyString => Some (acc, c)
        | String _ _ => None
        end
      else None
  end.

Definition match_count (units : list ascii) (s : string) : option (Z * ascii) :=
  scan_count units false 0 s.

(** [x || d] for an optional query parameter: absent and empty are falsy. *)
Definition or_default (x : option string) (d : string) : string :=
  match x with
  | None => d
  | Some EmptyString => d
  | Some s => s
  end.

Definition lower_ascii (c : ascii) : ascii :=
  let n := nat_of_ascii c in
  if (Nat.leb 65 n && Nat.leb n 90)%bool then ascii_of_nat (n + 32) else c.

(** [s.toLowerCase()] on ASCII text *)
Fixpoint toLowerCase (s : string) : string :=
  match s with
  | EmptyString => EmptyString
  | String c r => String (lower_ascii c) (toLowerCase r)
  end.

Fixpoint startsWith (p s : string) : bool :=
  match p, s with
  | EmptyString, _ => true
  | String a p', String b s' => (Ascii.eqb a b && startsWith p' s')%bool
  | String _ _, EmptyString => false
  end.

(** [s.includes(p)] *)
Fixpoint includes (p s : string) : bool :=
  match s with
  | EmptyString => startsWith p EmptyString
  | String _ s' => (startsWith p s || includes p s')%bool
  end.

(** [toUpperCase] of a query symbol *)
Definition upper_ascii (c : ascii) : ascii :=
  let n := nat_of_ascii c in
  if (Nat.leb 97 n && Nat.leb n 122)%bool then ascii_of_nat (n - 32) else c.

Fixpoint toUpperCase (s : string) : string :=
  match s with
  | EmptyString => EmptyString
  | String c r => String (upper_ascii c) (toUpperCase r)
  end.

(** ** Sorting: [ORDER BY ts ASC] and [Array.prototype.sort] *)

Section StableSort.
Context {A : Type} (leb : A -> A -> bool).

Fixpoint insert_sorted (x : A) (l : list A) : list A :=
  match l with
  | [] => [x]
  | y :: l' => if leb x y then x :: l else y :: insert_sorted x l'
  end.

Definition sort_by (l : list A) : list A :=
  fold_right insert_sorted [] l.
End StableSort.

(** ** Code shared by part_000 and part_002

    The two files are the same program up to [intervalToMs] and the
    analysis route: the time utilities, the tick table, the snapshot
    [state], [saveTicks], [refresh] and the OHLC fold are identical. *)

Module Common.

(** *** Time utilities *)

(** [parseRangeToMs(range)]: "7d", "30d", "24h"; seven days when the
    text does not match. *)
Definition parseRangeToMs (range : option string) : Z :=
  match match_count ["d"; "h"]%char (or_default range "7d") with
  | None => 7 * 24 * 60 * 60 * 1000
  | Some (n, u) =>
      if Ascii.eqb u "d" then n * 24 * 60 * 60 * 1000 else n * 60 * 60 * 1000
  end.

(** [bucketStart(ts, bucketMs)] = [Math.floor(ts / bucketMs) * bucketMs].
    With [bucketMs = 0] the quotient is an infinity or NaN and the
    product is NaN, rendered here as [None]. *)
Definition bucketStart (ts bucketMs : Z) : option Z :=
  if bucketMs =? 0 then None else Some (ts / bucketMs * bucketMs).

(** *** The tick table *)

Record tick : Type := { ts : Z; symbol : string; value : jsnum }.

Definition db : Type := list tick.

(** [insertTick.run(ts, symbol, value)] *)
Definition insertTick (d : db) (t : Z) (s : string) (v : jsnum) : db :=
  d ++ [ {| ts := t; symbol := s; value := v |} ].

(** A row of [SELECT ts, value] *)
Record row : Type := { r_ts : Z; r_value : jsnum }.

Definition row_of (t : tick) : row := {| r_ts := ts t; r_value := value t |}.

Definition in_range (s : string) (lo hi : Z) (t : tick) : bool :=
  (String.eqb (symbol t) s && (lo <=? ts t) && (ts t <=? hi))%bool.

Definition row_leb (a b : row) : bool := r_ts a <=? r_ts b.

(** [selectTicks.all(symbol, start, end)]:
    [SELECT ts, value FROM ticks WHERE symbol=? AND ts>=? AND ts<=?
     ORDER BY ts ASC] *)
Definition selectTicks (d : db) (s : string) (lo hi : Z) : list row :=
  sort_by row_leb (List.map row_of (List.filter (in_range s lo hi) d)).

(** *** saveTicks *)

(** One entry of the loop of [saveTicks]: inserted only when
    [typeof value === "number" && Number.isFinite(value)]. *)
Definition save_entry (t : Z) (d : db) (e : string * jsval) : db :=
  match snd e with
  | JNum n => if isFinite n then insertTick d t (fst e) n else d
  | _ => d
  end.

(** [saveTicks(ts, map)]: one transaction over [Object.entries(map)]. *)
Definition saveTicks (d : db) (t : Z) (map : list (string * jsval)) : db :=
  fold_left (save_entry t) map d.

(** *** The snapshot and the collection cycle *)

Inductive status_t : Type := BOOT | OK | WARN.

Record state : Type := {
  asofKST : option string;
  status : status_t;
  usdkrw : jsval;  eurkrw : jsval;  dxy : jsval;
  kr10y : jsval;   us10y : jsval;
  spread10y : jsval;
  errors : list string
}.

Definition boot : state :=
  {| asofKST := None; status := BOOT;
     usdkrw := JNull; eurkrw := JNull; dxy := JNull;
     kr10y := JNull; us10y := JNull; spread10y := JNull;
     errors := [] |}.

(** [const state = {...}] is one object, changed in place by [refresh]:
    what a variable or a field that holds it carries is a reference, the
    same for all, and what is read through it is the snapshot of the
    moment of reading. *)
Inductive state_ref : Type := TheState.


(** What an awaited crawler call gives: a value, or an exception with
    its message. *)
Inductive fetched (A : Type) : Type :=
| Got (a : A)
| Threw (msg : string).
Arguments Got {A} a.
Arguments Threw {A} msg.

(** The object returned by [crawlNaverFx]: each field a number or null. *)
Record fxres : Type := { fx_usdkrw : jsval; fx_eurkrw : jsval }.

(** The four awaited calls of one run of [refresh]. *)
Record cycle : Type := {
  c_fx : fetched fxres;
  c_kr : fetched jsnum;
  c_us : fetched jsnum;
  c_dxy : fetched jsnum
}.

(** The four [try]/[catch] blocks of [refresh], in order: each writes
    its slots on success, and on an exception pushes the message and
    sets the local [status]. *)
Definition after_fetches (st : state) (c : cycle)
  : state * list string * status_t :=
  let errs0 : list string := [] in
  let status0 := OK in
  (* crawlNaverFx *)
  let '(usd1, eur1, errs1, status1) :=
    match c_fx c with
    | Got fx =>
        (if is_number (fx_usdkrw fx) then fx_usdkrw fx else usdkrw st,
         if is_number (fx_eurkrw fx) then fx_eurkrw fx else eurkrw st,
         errs0, status0)
    | Threw m => (usdkrw st, eurkrw st, errs0 ++ [m], WARN)
    end in
  (* crawlNaverBond KR10YT *)
  let '(kr2, errs2, status2) :=
    match c_kr c with
    | Got v => (JNum v, errs1, status1)
    | Threw m => (kr10y st, errs1 ++ [m], WARN)
    end in
  (* crawlNaverBond US10YT *)
  let '(us3, errs3, status3) :=
    match c_us c with
    | Got v => (JNum v, errs2, status2)
    | Threw m => (us10y st, errs2 ++ [m], WARN)
    end in
  (* crawlInvestingDXY *)
  let '(dxy4, errs4, status4) :=
    match c_dxy c with
    | Got v => (JNum v, errs3, status3)
    | Threw m =>
        (dxy st, errs3 ++ [m],
         match status3 with OK => WARN | s => s end)
    end in
  ({| asofKST := asofKST st; status := status st;
      usdkrw := usd1; eurkrw := eur1; dxy := dxy4;
      kr10y := kr2; us10y := us3;
      spread10y := spread10y st; errors := errors st |},
   errs4, status4).

(** The spread step: recomputed from the two bond slots of the snapshot
    whenever both hold a number. *)
Definition with_spread (st : state) : state :=
  match us10y st, kr10y st with
  | JNum u, JNum k =>
      {| asofKST := asofKST st; status := status st;
         usdkrw := usdkrw st; eurkrw := eurkrw st; dxy := dxy st;
         kr10y := kr10y st; us10y := us10y st;
         spread10y := JNum (toFixed3 (js_sub u k));
         errors := errors st |}
  | _, _ => st
  end.

(** The object literal passed to [saveTicks] by [refresh]. *)
Definition batch_of (st : state) : list (string * jsval) :=
  [ ("USDKRW", usdkrw st); ("EURKRW", eurkrw st); ("DXY", dxy st);
    ("KR10Y", kr10y st); ("US10Y", us10y st);
    ("SPREAD10Y", spread10y st) ].

(** [refresh()]: [now] is [nowMs()] and [kst] is [kstNowString()] as
    read in this run. *)
Definition refresh (st : state) (d : db) (c : cycle) (now : Z) (kst : string)
  : state * db :=
  let '(st1, errs, stat) := after_fetches st c in
  let st2 := with_spread st1 in
  let st3 :=
    {| asofKST := Some kst; status := stat;
       usdkrw := usdkrw st2; eurkrw := eurkrw st2; dxy := dxy st2;
       kr10y := kr10y st2; us10y := us10y st2;
       spread10y := spread10y st2;
       errors := firstn 6 errs |} in
  (st3, saveTicks d now (batch_of st3)).

(** *** The OHLC fold *)

Record candle : Type := { t : option Z; o : jsnum; h : jsnum; l : jsnum; c : jsnum }.

(** The [Map] from bucket start to candle, in insertion order. *)
Definition cmap : Type := list (option Z * candle).

Definition key_eqb (a b : option Z) : bool :=
  match a, b with
  | Some x, Some y => x =? y
  | None, None => true
  | _, _ => false
  end.

Fixpoint cmap_get (m : cmap) (k : option Z) : option candle :=
  match m with
  | [] => None
  | (k', x) :: m' => if key_eqb k' k then Some x else cmap_get m' k
  end.

(** The object stored under [k] is updated in place. *)
Fixpoint cmap_update (m : cmap) (k : option Z) (f : candle -> candle) : cmap :=
  match m with
  | [] => []
  | (k', x) :: m' =>
      if key_eqb k' k then (k', f x) :: m' else (k', x) :: cmap_update m' k f
  end.

Definition touch (v : jsnum) (x : candle) : candle :=
  {| t := t x; o := o x; h := Math_max (h x) v; l := Math_min (l x) v; c := v |}.

(** The body of [for (const r of rows)]. *)
Definition add_row (bucketMs : Z) (m : cmap) (r : row) : cmap :=
  let b := bucketStart (r_ts r) bucketMs in
  let v := r_value r in
  match cmap_get m b with
  | None => m ++ [ (b, {| t := b; o := v; h := v; l := v; c := v |}) ]
  | Some _ => cmap_update m b (touch v)
  end.

(** The comparator [(a, b) => a.t - b.t]; a NaN difference leaves the
    two elements in place. *)
Definition candle_leb (a b : candle) : bool :=
  match t a, t b with
  | Some x, Some y => x <=? y
  | _, _ => true
  end.

(** From the rows to [Array.from(map.values()).sort(...)]. *)
Definition aggregate (bucketMs : Z) (rows : list row) : list candle :=
  sort_by candle_leb (List.map snd (fold_left (add_row bucketMs) rows [])).

End Common.

(** An HTTP answer: [res.status(code).json(body)]; [res.json] alone
    answers with code 200. *)
Record response (B : Type) : Type := { code : Z; body : B }.
Arguments code {B} _.
Arguments body {B} _.

(** The query string of [/api/candles] in part_000 and part_002, where
    every parameter goes through [String(... || default)]: a parameter
    is absent or a text; one that is an array or an object enters as
    the text [String] makes of it, which is taken not to be empty. *)
Record candles_query : Type := {
  q_symbol : option string;
  q_interval : option string;
  q_range : option string
}.

(** ** part_000: the candle route *)

Module P0.
Import Common.

(** [intervalToMs(interval)]: "30m", "2h"; thirty minutes when the text
    does not match. *)
Definition intervalToMs (interval : option string) : Z :=
  match match_count ["m"; "h"]%char (or_default interval "30m") with
  | None => 30 * 60 * 1000
  | Some (n, u) =>
      if Ascii.eqb u "m" then n * 60 * 1000 else n * 60 * 60 * 1000
  end.

(** [app.get("/api/candles", ...)] *)
Definition api_candles (d : db) (now : Z) (q : candles_query)
  : response (list candle) :=
  let symbol := toUpperCase (or_default (q_symbol q) "USDKRW") in
  let interval := or_default (q_interval q) "30m" in
  let range := or_default (q_range q) "7d" in
  let bucketMs := intervalToMs (Some interval) in
  let end_ := now in
  let start := end_ - parseRangeToMs (Some range) in
  let rows := selectTicks d symbol start end_ in
  {| code := 200; body := aggregate bucketMs rows |}.

End P0.

(** ** part_002: candles and the analysis route with the two-hour cache *)

Module P2.
Import Common.

(** [intervalToMs(interval)]: "10s", "1m", "30m", "2h". *)
Definition intervalToMs (interval : option string) : Z :=
  match match_count ["s"; "m"; "h"]%char (or_default interval "30m") with
  | None => 30 * 60 * 1000
  | Some (n, u) =>
      if Ascii.eqb u "s" then n * 1000
      else if Ascii.eqb u "m" then n * 60 * 1000
      else n * 60 * 60 * 1000
  end.

(** [getCandles(symbol, interval, range)] *)
Definition getCandles (d : db) (now : Z) (symbol : string)
    (interval range : option string) : list candle :=
  let bucketMs := intervalToMs interval in
  let end_ := now in
  let start := end_ - parseRangeToMs range in
  let rows := selectTicks d symbol start end_ in
  aggregate bucketMs rows.

(** [app.get("/api/candles", ...)] *)
Definition api_candles (d : db) (now : Z) (q : candles_query)
  : response (list candle) :=
  let symbol := toUpperCase (or_default (q_symbol q) "USDKRW") in
  let interval := or_default (q_interval q) "30m" in
  let range := or_default (q_range q) "7d" in
  {| code := 200; body := getCandles d now symbol (Some interval) (Some range) |}.

(** *** /api/analysis *)

Definition ANALYSIS_TTL_MS : Z := 2 * 60 * 60 * 1000.

(** [summarizeCandles(cs)]: the count, and for two candles or more the
    first open, the last close and the extreme high and low.  The
    fields [chg] and [chgPct], float arithmetic on [first] and [last],
    are left out. *)
Record summary : Type := {
  s_n : nat;
  s_range : option (jsnum * jsnum * jsnum * jsnum) (* first, last, hi, lo *)
}.

Definition summarizeCandles (cs : list candle) : summary :=
  match cs with
  | x :: _ :: _ =>
      {| s_n := length cs;
         s_range :=
           Some (o x, c (List.last cs x),
                 fold_left (fun hi y => Math_max hi (h y)) cs NegInf,
                 fold_left (fun lo y => Math_min lo (l y)) cs PosInf) |}
  | _ => {| s_n := length cs; s_range := None |}
  end.

Record headline : Type := { title : string; link : string }.

(** The [inputs] object of a payload.  Its [latest] field is the
    object [state] itself, not a copy of it. *)
Record inputs : Type := {
  latest : state_ref;
  summary24h_1m : summary;
  summary7d_30m : summary;
  marketToday : list headline
}.

Record payload : Type := {
  p_asofKST : string;
  p_symbol : string;
  p_inputs : option inputs;
  p_analysis : string
}.

(** A cache entry [{ ts, payload }]. *)
Record entry : Type := { e_ts : Z; e_payload : payload }.


(** The JSON answers of the route: a payload or a placeholder, with the
    optional fields [cached], [cacheAgeSec], [degraded], [warning] and
    [error]. *)
Record abody : Type := {
  b_payload : payload;
  b_cached : option bool;
  b_cacheAgeSec : option Z;
  b_degraded : bool;
  b_warning : option string;
  b_error : option string
}.

(** What the prompt is built from; its KPI lines are read through
    [latest] when the text is built, after the headline fetch. *)
Record prompt : Type := {
  pr_symbol : string;
  pr_latest : state_ref;
  pr_s1 : summary;
  pr_s7 : summary;
  pr_headlines : list headline
}.

(** The fixed texts of the answers (Korean sentences in the source,
    given here by their meaning). *)
Definition msg_no_key : string :=
  "OPENAI_API_KEY is not set; no analysis can be generated.".
Definition msg_rate_limited : string :=
  "The OpenAI request limit was hit; no analysis was generated.".
Definition msg_failed : string :=
  "An error occurred while generating the analysis.".
Definition warn_cached : string :=
  "OpenAI rate-limited; serving cached analysis (2h TTL).".
Definition warn_no_cache : string :=
  "OpenAI rate-limited; no cache available yet.".

Definition placeholder (kst symbol text : string) : payload :=
  {| p_asofKST := kst; p_symbol := symbol; p_inputs := None; p_analysis := text |}.

(** The test of the [catch] block: the message contains "429", or its
    lower-case form contains "rate limit". *)
Definition isRateLimit (msg : string) : bool :=
  (includes "429" msg || includes "rate limit" (toLowerCase msg))%bool.

(** The [catch (e)] block, run with the cache as it is at that time. *)
Definition on_error (cache : gmap string entry) (symbol kst msg : string)
  : response abody :=
  if isRateLimit msg then
    match cache !! symbol with
    | Some cached2 =>
        {| code := 200;
           body := {| b_payload := e_payload cached2; b_cached := Some true;
                      b_cacheAgeSec := None; b_degraded := true;
                      b_warning := Some warn_cached; b_error := None |} |}
    | None =>
        {| code := 200;
           body := {| b_payload := placeholder kst symbol msg_rate_limited;
                      b_cached := None; b_cacheAgeSec := None;
                      b_degraded := true;
                      b_warning := Some warn_no_cache; b_error := None |} |}
    end
  else
    {| code := 200;
       body := {| b_payload := placeholder kst symbol msg_failed;
                  b_cached := None; b_cacheAgeSec := None;
                  b_degraded := true;
                  b_warning := None; b_error := Some msg |} |}.

(** The handler runs in three synchronous segments, separated by its
    two awaits (the headline fetch and the completion call); other
    handlers may run between segments. *)

(** What the first segment leaves for the second; [const latest = state]
    holds the object, not its values. *)
Record pending_news : Type := {
  pn_symbol : string; pn_now : Z;
  pn_latest : state_ref; pn_s1 : summary; pn_s7 : summary
}.

(** What the second segment leaves for the third: the completion call
    is in flight with this prompt. *)
Record pending_gen : Type := {
  pg_symbol : string; pg_now : Z; pg_prompt : prompt
}.

(** First segment: cache hit, missing key, or the two candle summaries
    and the start of the headline fetch.  [st] is the object [state],
    of which the segment keeps the reference. *)
Definition analysis_start (cache : gmap string entry) (st : state) (d : db)
    (has_key : bool) (q_sym : option string) (now : Z) (kst : string)
  : response abody + pending_news :=
  let symbol := toUpperCase (or_default q_sym "USDKRW") in
  let hit :=
    match cache !! symbol with
    | Some cached => if now - e_ts cached <? ANALYSIS_TTL_MS then Some cached else None
    | None => None
    end in
  match hit with
  | Some cached =>
      inl {| code := 200;
             body := {| b_payload := e_payload cached; b_cached := Some true;
                        b_cacheAgeSec := Some ((now - e_ts cached) / 1000);
                        b_degraded := false;
                        b_warning := None; b_error := None |} |}
  | None =>
      if negb has_key then
        inl {| code := 200;
               body := {| b_payload := placeholder kst symbol msg_no_key;
                          b_cached := None; b_cacheAgeSec := None;
                          b_degraded := true;
                          b_warning := None; b_error := None |} |}
      else
        let candles1m := getCandles d now symbol (Some "1m") (Some "24h") in
        let candles30m := getCandles d now symbol (Some "30m") (Some "7d") in
        inr {| pn_symbol := symbol; pn_now := now; pn_latest := TheState;
               pn_s1 := summarizeCandles candles1m;
               pn_s7 := summarizeCandles candles30m |}
  end.

(** Second segment: the headline fetch has settled; [market] is what
    the awaited block gives, the first five distinct headlines or an
    exception. *)
Definition analysis_news (cache : gmap string entry) (p : pending_news)
    (market : fetched (list headline)) (kst : string)
  : response abody + pending_gen :=
  match market with
  | Threw msg => inl (on_error cache (pn_symbol p) kst msg)
  | Got hs =>
      inr {| pg_symbol := pn_symbol p; pg_now := pn_now p;
             pg_prompt := {| pr_symbol := pn_symbol p; pr_latest := pn_latest p;
                             pr_s1 := pn_s1 p; pr_s7 := pn_s7 p;
                             pr_headlines := hs |} |}
  end.

(** Third segment: the completion call has settled. *)
Definition analysis_gen (cache : gmap string entry) (p : pending_gen)
    (completion : fetched string) (kst : string)
  : gmap string entry * response abody :=
  match completion with
  | Threw msg => (cache, on_error cache (pg_symbol p) kst msg)
  | Got text =>
      let pl :=
        {| p_asofKST := kst; p_symbol := pg_symbol p;
           p_inputs := Some {| latest := pr_latest (pg_prompt p);
                               summary24h_1m := pr_s1 (pg_prompt p);
                               summary7d_30m := pr_s7 (pg_prompt p);
                               marketToday := pr_headlines (pg_prompt p) |};
           p_analysis := text |} in
      (<[ pg_symbol p := {| e_ts := pg_now p; e_payload := pl |} ]> cache,
       {| code := 200;
          body := {| b_payload := pl; b_cached := Some false;
                     b_cacheAgeSec := None; b_degraded := false;
                     b_warning := None; b_error := None |} |})
  end.

(** What the outside world gives one request: the key, the clock, and
    the outcome of the two awaited calls. *)
Record world : Type := {
  w_has_key : bool;
  w_now : Z;
  w_kst : string;
  w_market : fetched (list headline);
  w_completion : fetched string
}.

(** One request served with no other handler in between: the new cache,
    the answer, and the number of completion calls made. *)
Definition api_analysis (cache : gmap string entry) (st : state) (d : db)
    (q_sym : option string) (w : world)
  : gmap string entry * response abody * nat :=
  match analysis_start cache st d (w_has_key w) q_sym (w_now w) (w_kst w) with
  | inl r => (cache, r, 0%nat)
  | inr p1 =>
      match analysis_news cache p1 (w_market w) (w_kst w) with
      | inl r => (cache, r, 0%nat)
      | inr p2 =>
          let '(cache', r) := analysis_gen cache p2 (w_completion w) (w_kst w) in
          (cache', r, 1%nat)
      end
  end.

End P2.

(** ** part_001: the server with the twelve-hour cache and the cooldown *)

Module P1.
Import Common.

(** *** Snapshot and collection *)

(** [state.spread10y] is null or the text [(us - kr).toFixed(2)],
    carried as the number that the text writes. *)
Record state : Type := {
  USDKRW : jsval; EURKRW : jsval; DXY : jsval;
  KR10Y : jsval; US10Y : jsval;
  spread10y : option jsnum;
  asofKST : string;
  errors : list string
}.

(** The object handed to [saveTicks]: [{ ...fx, ...bond, DXY: dxy }]. *)
Record data : Type := {
  d_USDKRW : jsval; d_EURKRW : jsval; d_DXY : jsval;
  d_KR10Y : jsval; d_US10Y : jsval
}.

(** [if (v) rows.push([ts, symbol, v])] *)
Definition push_if (ts : Z) (s : string) (v : jsval) (rows : list tick) : list tick :=
  match v with
  | JNum n => if truthy v then rows ++ [ {| ts := ts; symbol := s; value := n |} ] else rows
  | _ => rows
  end.

(** [saveTicks(ts, data)]: the rows of the truthy entries, inserted in
    one transaction. *)
Definition saveTicks (d : db) (ts : Z) (x : data) : db :=
  let rows := [] in
  let rows := push_if ts "USDKRW" (d_USDKRW x) rows in
  let rows := push_if ts "EURKRW" (d_EURKRW x) rows in
  let rows := push_if ts "DXY" (d_DXY x) rows in
  let rows := push_if ts "KR10Y" (d_KR10Y x) rows in
  let rows := push_if ts "US10Y" (d_US10Y x) rows in
  d ++ rows.

(** What the three crawlers saw: the two parsed numbers (NaN when the
    page had none), or an exception of the fetch. *)
Record crawl : Type := {
  k_fx : fetched (jsnum * jsnum);
  k_bond : fetched (jsnum * jsnum);
  k_dxy : fetched jsnum
}.

Definition keep_unless_nan (n : jsnum) (old : jsval) : jsval :=
  if isNaN n then old else JNum n.

(** The messages pushed onto [state.errors] (Korean texts in the source,
    given here by their meaning). *)
Definition msg_fx : string := "USDKRW/EURKRW crawl failed".
Definition msg_bond : string := "KR10Y/US10Y crawl failed".
Definition msg_dxy : string := "DXY crawl failed".

(** [state.errors.push(m)] *)
Definition push_error (st : state) (m : string) : state :=
  {| USDKRW := USDKRW st; EURKRW := EURKRW st; DXY := DXY st;
     KR10Y := KR10Y st; US10Y := US10Y st; spread10y := spread10y st;
     asofKST := asofKST st; errors := errors st ++ [m] |}.

(** [crawlNaverFx()] from its await on: the two numbers go to their
    slots unless NaN, and the object [{ USDKRW, EURKRW }] is returned;
    an exception is reported and two nulls are returned. *)
Definition crawlNaverFx (st : state) (r : fetched (jsnum * jsnum))
  : state * (jsval * jsval) :=
  match r with
  | Got (usdVal, eurVal) =>
      ({| USDKRW := keep_unless_nan usdVal (USDKRW st);
          EURKRW := keep_unless_nan eurVal (EURKRW st);
          DXY := DXY st; KR10Y := KR10Y st; US10Y := US10Y st;
          spread10y := spread10y st; asofKST := asofKST st; errors := errors st |},
       (JNum usdVal, JNum eurVal))
  | Threw _ => (push_error st msg_fx, (JNull, JNull))
  end.

(** [crawlNaverBond()] from its await on; the spread is written when
    neither yield is NaN, as the text [(usVal - krVal).toFixed(2)]. *)
Definition crawlNaverBond (st : state) (r : fetched (jsnum * jsnum))
  : state * (jsval * jsval) :=
  match r with
  | Got (krVal, usVal) =>
      ({| USDKRW := USDKRW st; EURKRW := EURKRW st; DXY := DXY st;
          KR10Y := keep_unless_nan krVal (KR10Y st);
          US10Y := keep_unless_nan usVal (US10Y st);
          spread10y := if (negb (isNaN krVal) && negb (isNaN usVal))%bool
                       then Some (toFixed2 (js_sub usVal krVal))
                       else spread10y st;
          asofKST := asofKST st; errors := errors st |},
       (JNum krVal, JNum usVal))
  | Threw _ => (push_error st msg_bond, (JNull, JNull))
  end.

(** [crawlInvestingDXY()] from its await on: a number that is not NaN
    goes to its slot and is returned; NaN raises the parse error, which
    the same [catch] reports as it does an exception of the fetch. *)
Definition crawlInvestingDXY (st : state) (r : fetched jsnum) : state * jsval :=
  match r with
  | Got dxy =>
      if isNaN dxy then (push_error st msg_dxy, JNull)
      else ({| USDKRW := USDKRW st; EURKRW := EURKRW st; DXY := JNum dxy;
               KR10Y := KR10Y st; US10Y := US10Y st;
               spread10y := spread10y st; asofKST := asofKST st;
               errors := errors st |},
            JNum dxy)
  | Threw _ => (push_error st msg_dxy, JNull)
  end.

(** The start of [collectData()]: [state.errors = []]; the timestamp in
    seconds is taken and the three crawlers are called, which changes
    nothing before their awaits. *)
Definition collect_begin (st : state) : state :=
  {| USDKRW := USDKRW st; EURKRW := EURKRW st; DXY := DXY st;
     KR10Y := KR10Y st; US10Y := US10Y st; spread10y := spread10y st;
     asofKST := asofKST st; errors := [] |}.

(** The end of [collectData()], when [Promise.all] has the three
    results: the date text is set, and the values the crawlers returned
    (not the snapshot) go to [saveTicks] as [{ ...fx, ...bond, DXY: dxy }]
    under the timestamp taken at the start. *)
Definition collect_end (st : state) (d : db) (ts : Z)
    (fx bond : jsval * jsval) (dxy : jsval) (kst : string) : state * db :=
  ({| USDKRW := USDKRW st; EURKRW := EURKRW st; DXY := DXY st;
      KR10Y := KR10Y st; US10Y := US10Y st; spread10y := spread10y st;
      asofKST := kst; errors := errors st |},
   saveTicks d ts {| d_USDKRW := fst fx; d_EURKRW := snd fx; d_DXY := dxy;
                     d_KR10Y := fst bond; d_US10Y := snd bond |}).

(** One run of [collectData()] that no other run overlaps and whose
    crawlers settle in the order of their calls.  The runs are started
    by a timer and their crawlers settle when their fetches do: what
    they do in any order, one run overlapping another, is the system
    [collect_step] below, made of the same pieces. *)
Definition collectData (st : state) (d : db) (k : crawl) (nowms : Z) (kst : string)
  : state * db :=
  let st0 := collect_begin st in
  let ts := nowms / 1000 in
  let '(st1, fx) := crawlNaverFx st0 (k_fx k) in
  let '(st2, bond) := crawlNaverBond st1 (k_bond k) in
  let '(st3, dxy) := crawlInvestingDXY st2 (k_dxy k) in
  collect_end st3 d ts fx bond dxy kst.

(** *** Candles *)

(** [parseRangeToMs(range)]: minutes, hours or days; one day when the
    text does not match. *)
Definition parseRangeToMs (range : string) : Z :=
  match match_count ["m"; "h"; "d"]%char range with
  | None => 24 * 3600 * 1000
  | Some (val, unit) =>
      if Ascii.eqb unit "m" then val * 60 * 1000
      else if Ascii.eqb unit "h" then val * 3600 * 1000
      else if Ascii.eqb unit "d" then val * 24 * 3600 * 1000
      else 24 * 3600 * 1000
  end.

(** [intervalToMs(interval)]: one minute when the text does not match. *)
Definition intervalToMs (interval : string) : Z :=
  match match_count ["m"; "h"]%char interval with
  | None => 60000
  | Some (val, unit) =>
      if Ascii.eqb unit "m" then val * 60000 else val * 3600000
  end.

Definition since (s : string) (lo : Z) (t : tick) : bool :=
  (String.eqb (symbol t) s && (lo <=? ts t))%bool.

(** [SELECT ts, value FROM ticks WHERE symbol = ? AND ts >= ?
     ORDER BY ts ASC] *)
Definition selectSince (d : db) (s : string) (lo : Z) : list row :=
  sort_by row_leb (List.map row_of (List.filter (since s lo) d)).

Record ohlc : Type := { open : jsnum; high : jsnum; low : jsnum; close : jsnum }.

Record candle : Type := { time : option Z; bar : ohlc }.

Fixpoint buckets_get (m : list (option Z * ohlc)) (k : option Z) : option ohlc :=
  match m with
  | [] => None
  | (k', x) :: m' => if key_eqb k' k then Some x else buckets_get m' k
  end.

Fixpoint buckets_update (m : list (option Z * ohlc)) (k : option Z)
    (f : ohlc -> ohlc) : list (option Z * ohlc) :=
  match m with
  | [] => []
  | (k', x) :: m' =>
      if key_eqb k' k then (k', f x) :: m' else (k', x) :: buckets_update m' k f
  end.

Definition add_row (bucketMs : Z) (m : list (option Z * ohlc)) (r : row)
  : list (option Z * ohlc) :=
  let bucket := bucketStart (r_ts r * 1000) bucketMs in
  let value := r_value r in
  match buckets_get m bucket with
  | None => m ++ [ (bucket, {| open := value; high := value; low := value; close := value |}) ]
  | Some _ =>
      buckets_update m bucket
        (fun b => {| open := open b; high := Math_max (high b) value;
                     low := Math_min (low b) value; close := value |})
  end.

Definition candle_leb (a b : candle) : bool :=
  match time a, time b with
  | Some x, Some y => x <=? y
  | _, _ => true
  end.

(** [getCandles(symbol, interval, range)] *)
Definition getCandles (d : db) (now : Z) (symbol interval range : string)
  : list candle :=
  let rangeMs := parseRangeToMs range in
  let bucketMs := intervalToMs interval in
  let startTime := now - rangeMs in
  let rows := selectSince d symbol (startTime / 1000) in
  let buckets := fold_left (add_row bucketMs) rows [] in
  sort_by candle_leb
    (List.map (fun e => {| time := option_map (fun t => t / 1000) (fst e);
                           bar := snd e |}) buckets).

(** *** /api/candles *)

(** A parameter of [req.query]: absent, a text, or, for a parameter
    that is repeated or written with brackets, an array or an object,
    which has no method [match]. *)
Inductive qparam : Type :=
| QAbsent
| QText (s : string)
| QNoText.

(** The query string of the route.  The symbol is taken to be absent or
    a text. *)
Record query : Type := {
  qy_symbol : option string;
  qy_interval : qparam;
  qy_range : qparam
}.

(** The object [{ symbol, interval, range, candles }] *)
Record candles_body : Type := {
  cb_symbol : string;
  cb_interval : string;
  cb_range : string;
  cb_candles : list candle
}.

(** [app.get("/api/candles", ...)]: the defaults of the destructuring
    stand in for absent parameters only.  On a parameter that is no text
    [range.match] or [interval.match] throws a TypeError, which nothing
    catches: Express answers with code 500 and no candles. *)
Definition api_candles (d : db) (now : Z) (q : query)
  : response (option candles_body) :=
  let symbol := match qy_symbol q with None => "USDKRW" | Some s => s end in
  let interval := match qy_interval q with QAbsent => QText "1m" | x => x end in
  let range := match qy_range q with QAbsent => QText "24h" | x => x end in
  match range, interval with
  | QText r, QText i =>
      {| code := 200;
         body := Some {| cb_symbol := symbol; cb_interval := i; cb_range := r;
                         cb_candles := getCandles d now symbol i r |} |}
  | _, _ => {| code := 500; body := None |}
  end.

(** *** /api/analysis *)

Definition ANALYSIS_TTL_MS : Z := 12 * 60 * 60 * 1000.
Definition ANALYSIS_COOLDOWN_MS : Z := 5 * 60 * 1000.

(** The [result] object; [cachedUntil] is [now + ANALYSIS_TTL_MS]. *)
Record result : Type := {
  r_symbol : string;
  r_analysis : string;
  r_asofKST : string;
  r_cachedUntil : Z
}.

(** A cache entry [{ data, timestamp }]. *)
Record entry : Type := { e_data : result; e_timestamp : Z }.

(** The module-level variables the route reads and writes. *)
Record guard : Type := {
  analysisCache : gmap string entry;
  lastAnalysisTime : Z
}.

Definition guard0 : guard := {| analysisCache := ∅; lastAnalysisTime := 0 |}.

(** The JSON bodies of the route. *)
Inductive abody : Type :=
| Analysis (r : result)
| RetryLater (retryAfter : Z)
| Failure (error : string).

(** An exception of the completion call: its [status] and [message]. *)
Record gen_error : Type := { err_status : option Z; err_message : string }.

(** [state[symbol]] for a symbol naming one of the five indicator slots;
    any other text is read as undefined. *)
Definition state_get (st : state) (symbol : string) : jsval :=
  if String.eqb symbol "USDKRW" then USDKRW st
  else if String.eqb symbol "EURKRW" then EURKRW st
  else if String.eqb symbol "DXY" then DXY st
  else if String.eqb symbol "KR10Y" then KR10Y st
  else if String.eqb symbol "US10Y" then US10Y st
  else JUndefined.

(** What the prompt is built from: the symbol, the last 24 hourly
    candles of seven days and [state[symbol] || 0]. *)
Record prompt : Type := {
  pr_symbol : string;
  pr_candles : list candle;
  pr_latest : jsval
}.

(** The completion call in flight. *)
Record pending : Type := {
  pd_symbol : string; pd_cacheKey : string; pd_now : Z; pd_prompt : prompt
}.

(** [Math.ceil(x / 1000)] *)
Definition ceil_sec (x : Z) : Z := - ((- x) / 1000).

Definition lastn {A : Type} (n : nat) (xs : list A) : list A :=
  skipn (length xs - n) xs.

(** The handler up to its await: cache hit, cooldown, missing client,
    or the reservation [lastAnalysisTime = now] followed by the start
    of the completion call. *)
Definition analysis_start (g : guard) (st : state) (d : db) (has_client : bool)
    (q_sym : option string) (now : Z)
  : guard * (response abody + pending) :=
  let symbol := or_default q_sym "USDKRW" in
  let cacheKey := String.append "analysis_" symbol in
  let hit :=
    match analysisCache g !! cacheKey with
    | Some cached =>
        if now - e_timestamp cached <? ANALYSIS_TTL_MS then Some cached else None
    | None => None
    end in
  match hit with
  | Some cached => (g, inl {| code := 200; body := Analysis (e_data cached) |})
  | None =>
      if now - lastAnalysisTime g <? ANALYSIS_COOLDOWN_MS then
        let waitSec := ceil_sec (ANALYSIS_COOLDOWN_MS - (now - lastAnalysisTime g)) in
        (g, inl {| code := 429; body := RetryLater waitSec |})
      else if negb has_client then
        (g, inl {| code := 503; body := Failure "no OpenAI API key" |})
      else
        let g' := {| analysisCache := analysisCache g; lastAnalysisTime := now |} in
        let candles := getCandles d now symbol "1h" "7d" in
        let latest := if truthy (state_get st symbol) then state_get st symbol
                      else JNum (Fin 0) in
        (g', inr {| pd_symbol := symbol; pd_cacheKey := cacheKey; pd_now := now;
                    pd_prompt := {| pr_symbol := symbol;
                                    pr_candles := lastn 24 candles;
                                    pr_latest := latest |} |})
  end.

(** How the awaited completion call settles: the trimmed text of the
    first choice, or an exception. *)
Inductive completion : Type :=
| Completed (analysis : string)
| Failed (e : gen_error).

(** The handler after its await. *)
Definition analysis_finish (g : guard) (p : pending) (r : completion) (kst : string)
  : guard * response abody :=
  match r with
  | Completed analysis =>
      let result :=
        {| r_symbol := pd_symbol p; r_analysis := analysis; r_asofKST := kst;
           r_cachedUntil := pd_now p + ANALYSIS_TTL_MS |} in
      ({| analysisCache :=
            <[ pd_cacheKey p := {| e_data := result; e_timestamp := pd_now p |} ]>
              (analysisCache g);
          lastAnalysisTime := lastAnalysisTime g |},
       {| code := 200; body := Analysis result |})
  | Failed e =>
      match err_status e with
      | Some 429 => (g, {| code := 429; body := RetryLater 300 |})
      | _ => (g, {| code := 500; body := Failure "analysis generation failed" |})
      end
  end.

(** One request served with no other handler in between: the new
    variables, the answer, and the number of completion calls made. *)
Definition api_analysis (g : guard) (st : state) (d : db) (has_client : bool)
    (q_sym : option string) (now : Z) (r : completion) (kst : string)
  : guard * response abody * nat :=
  match analysis_start g st d has_client q_sym now with
  | (g1, inl resp) => (g1, resp, 0%nat)
  | (g1, inr p) =>
      let '(g2, resp) := analysis_finish g1 p r kst in (g2, resp, 1%nat)
  end.

End P1.

(** ** The bond crawler of part_000 and part_002 *)

Module Crawl.
Import Common.

(** The number written by one digit, a point and three or four digits. *)
Definition decimal3 (d a b c : ascii) : Q :=
  Qmake (((digit_val d * 10 + digit_val a) * 10 + digit_val b) * 10 + digit_val c) 1000.

Definition decimal4 (d a b c e : ascii) : Q :=
  Qmake ((((digit_val d * 10 + digit_val a) * 10 + digit_val b) * 10
          + digit_val c) * 10 + digit_val e) 10000.

(** [/([0-9]\.[0-9]{3,4})/] tried at the start of [s], and [parseFloat]
    of what it matched: one digit, a point, three digits, and a fourth
    when there is one. *)
Definition bond_at (s : string) : option Q :=
  match s with
  | String d (String p (String a (String b (String c rest)))) =>
      if (is_digit d && Ascii.eqb p "." && is_digit a && is_digit b && is_digit c)%bool
      then match rest with
           | String e _ => if is_digit e then Some (decimal4 d a b c e)
                           else Some (decimal3 d a b c)
           | EmptyString => Some (decimal3 d a b c)
           end
      else None
  | _ => None
  end.

(** [text.match(...)]: the leftmost place where the pattern matches. *)
Fixpoint bond_search (s : string) : option Q :=
  match bond_at s with
  | Some q => Some q
  | None =>
      match s with
      | EmptyString => None
      | String _ r => bond_search r
      end
  end.

(** [crawlNaverBond(url)]: [page] is what [fetchText] and the extraction
    of the body text give, the text with its white space collapsed or the
    exception of the fetch. *)
Definition crawlNaverBond (url : string) (page : fetched string) : fetched jsnum :=
  match page with
  | Threw m => Threw m
  | Got text =>
      match bond_search text with
      | None => Threw (String.append "Bond parse failed: " url)
      | Some q => Got (Fin q)
      end
  end.

End Crawl.

(** ** The headlines of part_002 *)

Module News.

(** An [a] element of the page: its [href] attribute, when it has one,
    and its text with the white space collapsed and trimmed. *)
Record anchor : Type := { href : option string; text : string }.

(** The loop over [$("a")]: an anchor with a text whose address contains
    "news_read.naver" gives an item; a relative address is completed. *)
Definition item_of (a : anchor) : list P2.headline :=
  let h := or_default (href a) "" in
  match text a with
  | EmptyString => []
  | title =>
      if includes "news_read.naver" h
      then [ {| P2.title := title;
                P2.link := if startsWith "http" h then h
                           else String.append "https://finance.naver.com" h |} ]
      else []
  end.

Definition items_of (anchors : list anchor) : list P2.headline :=
  flat_map item_of anchors.

(** The loop [for (const it of items)] with its set [seen]: an item whose
    link was seen is passed over; another one is pushed, and the loop
    stops as soon as [uniq] has [limit] items. *)
Fixpoint uniq_loop (limit : nat) (seen : gset string) (uniq : list P2.headline)
    (items : list P2.headline) : list P2.headline :=
  match items with
  | [] => uniq
  | it :: rest =>
      if bool_decide (P2.link it ∈ seen) then uniq_loop limit seen uniq rest
      else
        let uniq' := uniq ++ [it] in
        if (limit <=? length uniq')%nat then uniq'
        else uniq_loop limit ({[ P2.link it ]} ∪ seen) uniq' rest
  end.

(** The headlines of [/api/market/today] (eight at most) and of the
    analysis prompt (five at most). *)
Definition headlines (limit : nat) (anchors : list anchor) : list P2.headline :=
  uniq_loop limit ∅ [] (items_of anchors).

End News.

(** ** Vocabulary of the specification *)

(** A reading is storable when it is a finite number. *)
Definition finite_tick (x : Common.tick) : Prop := isFinite (Common.value x) = true.

(** A history of the tick table of part_000 and part_002: the batches
    handed to [saveTicks], oldest first, starting from the empty table. *)
Definition batch : Type := (Z * list (string * jsval))%type.

Definition run_batches (bs : list batch) : Common.db :=
  fold_left (fun d b => Common.saveTicks d (fst b) (snd b)) bs [].

(** The finite ticks of a batch, in the order of its entries. *)
Definition finite_ticks (b : batch) : list Common.tick :=
  flat_map (fun e =>
              match snd e with
              | JNum (Fin q) =>
                  [ {| Common.ts := fst b; Common.symbol := fst e; Common.value := Fin q |} ]
              | _ => []
              end) (snd b).

(** The ticks of symbol [s] whose timestamp lies in the closed interval
    from [lo] to [hi]. *)
Definition within (s : string) (lo hi : Z) (x : Common.tick) : Prop :=
  Common.symbol x = s /\ lo <= Common.ts x <= hi.

Definition ascending (rows : list Common.row) : Prop :=
  Sorted (fun a b => Common.r_ts a <= Common.r_ts b) rows.

(** No tick of symbol [s] carries the timestamp [t]. *)
Definition no_tick_at (d : Common.db) (s : string) (t : Z) : Prop :=
  forall x, In x d -> Common.symbol x = s -> Common.ts x <> t.

(** *** The collection cycle *)

(** The four awaited calls of [refresh] and the snapshot slots each one
    feeds. *)
Inductive source : Type := SrcFx | SrcKr | SrcUs | SrcDxy.

Inductive indicator : Type := IUsdKrw | IEurKrw | IDxy | IKr10y | IUs10y.

Definition sym (i : indicator) : string :=
  match i with
  | IUsdKrw => "USDKRW" | IEurKrw => "EURKRW" | IDxy => "DXY"
  | IKr10y => "KR10Y" | IUs10y => "US10Y"
  end.

Definition slot (st : Common.state) (i : indicator) : jsval :=
  match i with
  | IUsdKrw => Common.usdkrw st | IEurKrw => Common.eurkrw st
  | IDxy => Common.dxy st
  | IKr10y => Common.kr10y st | IUs10y => Common.us10y st
  end.

Definition source_of (i : indicator) : source :=
  match i with
  | IUsdKrw | IEurKrw => SrcFx
  | IDxy => SrcDxy
  | IKr10y => SrcKr
  | IUs10y => SrcUs
  end.

Definition threw (c : Common.cycle) (s : source) : bool :=
  match s with
  | SrcFx => match Common.c_fx c with Common.Threw _ => true | _ => false end
  | SrcKr => match Common.c_kr c with Common.Threw _ => true | _ => false end
  | SrcUs => match Common.c_us c with Common.Threw _ => true | _ => false end
  | SrcDxy => match Common.c_dxy c with Common.Threw _ => true | _ => false end
  end.

(** What this cycle's call returned for an indicator, if it returned. *)
Definition fetched_value (c : Common.cycle) (i : indicator) : option jsval :=
  match i with
  | IUsdKrw =>
      match Common.c_fx c with
      | Common.Got r => Some (Common.fx_usdkrw r) | _ => None end
  | IEurKrw =>
      match Common.c_fx c with
      | Common.Got r => Some (Common.fx_eurkrw r) | _ => None end
  | IDxy =>
      match Common.c_dxy c with Common.Got v => Some (JNum v) | _ => None end
  | IKr10y =>
      match Common.c_kr c with Common.Got v => Some (JNum v) | _ => None end
  | IUs10y =>
      match Common.c_us c with Common.Got v => Some (JNum v) | _ => None end
  end.

(** Exactly one call fails, the call [s]. *)
Definition only_failure (c : Common.cycle) (s : source) : Prop :=
  threw c s = true /\ forall s', s' <> s -> threw c s' = false.

Definition mk_tick (t : Z) (s : string) (v : jsnum) : Common.tick :=
  {| Common.ts := t; Common.symbol := s; Common.value := v |}.

(** A snapshot left by an earlier cycle in which only the Korean yield
    was obtained, and a cycle in which the Korean bond call fails while
    the three other calls return. *)
Definition stale_kr_state : Common.state :=
  {| Common.asofKST := Some "2023-11-14 22:13:10 KST"; Common.status := Common.WARN;
     Common.usdkrw := JNull; Common.eurkrw := JNull; Common.dxy := JNull;
     Common.kr10y := JNum (Fin (35 # 10)); Common.us10y := JNull;
     Common.spread10y := JNull; Common.errors := [] |}.

Definition kr_fails : Common.cycle :=
  {| Common.c_fx := Common.Got {| Common.fx_usdkrw := JNum (Fin 1300);
                                  Common.fx_eurkrw := JNum (Fin 1400) |};
     Common.c_kr := Common.Threw "Bond parse failed";
     Common.c_us := Common.Got (Fin (42 # 10));
     Common.c_dxy := Common.Got (Fin (9887 # 100)) |}.

(** The bond slots the spread step reads: the value of this cycle when
    the call returned, the retained one otherwise. *)
Definition kr_seen (st : Common.state) (c : Common.cycle) : jsval :=
  match Common.c_kr c with Common.Got k => JNum k | Common.Threw _ => Common.kr10y st end.

Definition us_seen (st : Common.state) (c : Common.cycle) : jsval :=
  match Common.c_us c with Common.Got u => JNum u | Common.Threw _ => Common.us10y st end.

(** *** Candles *)

(** The ticks of a row list that fall into the bucket starting at [b]. *)
Definition rows_in (w b : Z) (rows : list Common.row) : list Common.row :=
  List.filter (fun r => Common.r_ts r / w * w =? b) rows.

Definition finite_row (r : Common.row) : Prop := isFinite (Common.r_value r) = true.

Definition is_max (m : jsnum) (vs : list jsnum) : Prop :=
  In m vs /\ forall v, In v vs -> js_le v m.

Definition is_min (m : jsnum) (vs : list jsnum) : Prop :=
  In m vs /\ forall v, In v vs -> js_le m v.

(** The two invariants of the map: one entry per key, and every candle
    carries its key in [t]. *)
Definition cmap_ok (m : Common.cmap) : Prop :=
  List.NoDup (List.map fst m) /\ Forall (fun e => Common.t (snd e) = fst e) m.

(** The candle a bucket has after its first tick, and what a bucket holds
    after one more tick. *)
Definition init_candle (k : option Z) (v : jsnum) : Common.candle :=
  {| Common.t := k; Common.o := v; Common.h := v; Common.l := v; Common.c := v |}.

Definition feed (k : option Z) (acc : option Common.candle) (v : jsnum)
  : option Common.candle :=
  Some (match acc with
        | None => init_candle k v
        | Some x => Common.touch v x
        end).

(** The three ticks of the worked example of the specification. *)
Definition three_ticks : Common.db :=
  [ mk_tick 0 "X" (Fin 100); mk_tick 30000 "X" (Fin 110); mk_tick 59999 "X" (Fin 90) ].

(** The unit grammar of a width or range: one or more decimal digits and
    one unit letter, nothing else. *)
Fixpoint all_digits (s : string) : bool :=
  match s with
  | EmptyString => true
  | String ch r => (is_digit ch && all_digits r)%bool
  end.

Definition well_formed (units : list ascii) (s : string) : Prop :=
  exists (ds : string) (u : ascii),
    s = String.append ds (String u EmptyString)
    /\ ds <> EmptyString /\ all_digits ds = true /\ In u units.

(** An answer that surfaces a failure to the caller: a 4xx or 5xx code. *)
Definition is_error {B : Type} (r : response B) : Prop := 400 <= code r.

(** *** The entries of a batch of part_001 *)

Definition entries (x : P1.data) : list (string * jsval) :=
  [ ("USDKRW", P1.d_USDKRW x); ("EURKRW", P1.d_EURKRW x); ("DXY", P1.d_DXY x);
    ("KR10Y", P1.d_KR10Y x); ("US10Y", P1.d_US10Y x) ].

(** *** The analysis route of part_001 as a system

    Requests arrive and completion calls settle in any order.  The log
    [s_calls] records the time of every completion call issued, newest
    first. *)
Inductive event : Type :=
| Arrive (st : P1.state) (d : Common.db) (has_client : bool)
         (q_sym : option string) (now : Z)
| Settle (i : nat) (r : P1.completion) (kst : string).

Record sys : Type := {
  s_guard : P1.guard;
  s_inflight : list P1.pending;
  s_calls : list Z
}.

Definition sys0 : sys :=
  {| s_guard := P1.guard0; s_inflight := []; s_calls := [] |}.

Fixpoint drop_nth {A : Type} (i : nat) (xs : list A) : list A :=
  match i, xs with
  | _, [] => []
  | O, _ :: xs' => xs'
  | S i', x :: xs' => x :: drop_nth i' xs'
  end.

Definition sys_step (s : sys) (e : event) : sys :=
  match e with
  | Arrive st d has_client q_sym now =>
      match P1.analysis_start (s_guard s) st d has_client q_sym now with
      | (g, inl _) =>
          {| s_guard := g; s_inflight := s_inflight s; s_calls := s_calls s |}
      | (g, inr p) =>
          {| s_guard := g; s_inflight := p :: s_inflight s;
             s_calls := now :: s_calls s |}
      end
  | Settle i r kst =>
      match nth_error (s_inflight s) i with
      | Some p =>
          {| s_guard := fst (P1.analysis_finish (s_guard s) p r kst);
             s_inflight := drop_nth i (s_inflight s);
             s_calls := s_calls s |}
      | None => s
      end
  end.

Definition sys_run (es : list event) : sys := fold_left sys_step es sys0.

(** Any two calls of the log are at least one cooldown apart. *)
Definition spaced (calls : list Z) : Prop :=
  StronglySorted (fun later earlier => P1.ANALYSIS_COOLDOWN_MS <= later - earlier) calls.

(** The cache entry of part_001 for a cache key that is younger than the
    TTL at time [now]. *)
Definition fresh1 (g : P1.guard) (key : string) (now : Z) : option P1.entry :=
  match P1.analysisCache g !! key with
  | Some e => if now - P1.e_timestamp e <? P1.ANALYSIS_TTL_MS then Some e else None
  | None => None
  end.

(** The same for part_002. *)
Definition fresh2 (cache : gmap string P2.entry) (key : string) (now : Z) : option P2.entry :=
  match cache !! key with
  | Some e => if now - P2.e_ts e <? P2.ANALYSIS_TTL_MS then Some e else None
  | None => None
  end.

(** The snapshot of part_001 before the first collection. *)
Definition p1_boot : P1.state :=
  {| P1.USDKRW := JNull; P1.EURKRW := JNull; P1.DXY := JNull;
     P1.KR10Y := JNull; P1.US10Y := JNull; P1.spread10y := None;
     P1.asofKST := ""; P1.errors := [] |}.

(** The cache key of part_001 for a query symbol. *)
Definition key1 (q_sym : option string) : string :=
  String.append "analysis_" (or_default q_sym "USDKRW").

(** The cache key of part_002 for a query symbol. *)
Definition key2 (q_sym : option string) : string :=
  toUpperCase (or_default q_sym "USDKRW").

(** What the log of calls and the variable [lastAnalysisTime] have in
    common: the newest call of the log is the reserved time. *)
Definition sys_inv (s : sys) : Prop :=
  spaced (s_calls s)
  /\ match s_calls s with
     | [] => True
     | t :: _ => P1.lastAnalysisTime (s_guard s) = t
     end.

(** *** Histories of the snapshot *)

(** The cycles run since the start of part_000 or part_002, oldest
    first: what the four calls gave, the clock and the date text. *)
Definition run_cycles (cs : list (Common.cycle * Z * string)) : Common.state * Common.db :=
  fold_left (fun sd x => Common.refresh (fst sd) (snd sd) (fst (fst x)) (snd (fst x)) (snd x))
            cs (Common.boot, []).

(** The messages of the calls of a cycle that threw, in the order of the
    calls. *)
Definition failure_messages (c : Common.cycle) : list string :=
  (match Common.c_fx c with Common.Threw m => [m] | _ => [] end)
  ++ (match Common.c_kr c with Common.Threw m => [m] | _ => [] end)
  ++ (match Common.c_us c with Common.Threw m => [m] | _ => [] end)
  ++ (match Common.c_dxy c with Common.Threw m => [m] | _ => [] end).

(** The spread slot agrees with the two bond slots: the difference of
    the two doubles, rounded to a double and then to three decimals,
    when both hold a number, null otherwise. *)
Definition spread_agrees (st : Common.state) : Prop :=
  match Common.us10y st, Common.kr10y st with
  | JNum u, JNum k => Common.spread10y st = JNum (toFixed3 (js_sub u k))
  | _, _ => Common.spread10y st = JNull
  end.

Definition six_symbols : list string :=
  [ "USDKRW"; "EURKRW"; "DXY"; "KR10Y"; "US10Y"; "SPREAD10Y" ].

(** A slot of part_001 is null or a number other than NaN. *)
Definition clean_slot (v : jsval) : Prop :=
  match v with
  | JNull => True
  | JNum n => isNaN n = false
  | JUndefined => False
  end.

(** The indicators a crawler of part_001 feeds. *)
Definition bond_symbols : list string := [ "KR10Y"; "US10Y" ].
Definition fx_symbols : list string := [ "USDKRW"; "EURKRW" ].

(** *** Parsing *)

(** The number written by a string of decimal digits. *)
Definition digits_value (ds : string) : Z :=
  fold_left (fun acc ch => 10 * acc + digit_val ch) (list_ascii_of_string ds) 0.

(** *** Candles, continued *)

(** One candle comes before another: both have a bucket start and the
    first is smaller. *)
Definition candle_before (a b : Common.candle) : Prop :=
  exists x y, Common.t a = Some x /\ Common.t b = Some y /\ x < y.

(** A candle is well shaped: low is below open and close, high above. *)
Definition well_shaped (x : Common.candle) : Prop :=
  js_le (Common.l x) (Common.o x) /\ js_le (Common.o x) (Common.h x)
  /\ js_le (Common.l x) (Common.c x) /\ js_le (Common.c x) (Common.h x).

(** The rows that share the bucket key [k]. *)
Definition rows_of_key (w : Z) (k : option Z) (rows : list Common.row) : list Common.row :=
  List.filter (fun r => Common.key_eqb (Common.bucketStart (Common.r_ts r) w) k) rows.

(** The candle built from the first value of a bucket and the values
    that follow. *)
Definition candle_from (k : option Z) (v : jsnum) (vs : list jsnum) : Common.candle :=
  fold_left (fun a u => Common.touch u a) vs (init_candle k v).

(** The rows of part_001 with their timestamp in milliseconds, and a
    candle of part_001 from a candle of the shared fold. *)
Definition in_ms (r : Common.row) : Common.row :=
  {| Common.r_ts := Common.r_ts r * 1000; Common.r_value := Common.r_value r |}.

Definition bar_of (x : Common.candle) : P1.ohlc :=
  {| P1.open := Common.o x; P1.high := Common.h x;
     P1.low := Common.l x; P1.close := Common.c x |}.

(** *** The cache of part_001 *)

(** Every entry was made by the route: it sits under the key of its
    symbol and its [cachedUntil] is its timestamp plus the TTL. *)
Definition entry_made (k : string) (e : P1.entry) : Prop :=
  k = String.append "analysis_" (P1.r_symbol (P1.e_data e))
  /\ P1.r_cachedUntil (P1.e_data e) = P1.e_timestamp e + P1.ANALYSIS_TTL_MS.

Definition cache_made (s : sys) : Prop :=
  (forall k e, P1.analysisCache (s_guard s) !! k = Some e -> entry_made k e)
  /\ Forall (fun p => P1.pd_cacheKey p = String.append "analysis_" (P1.pd_symbol p))
            (s_inflight s).

(** *** The cycle of part_001 *)

(** What the crawlers of part_001 returned in this cycle for a symbol:
    nothing for a crawler that threw, for a DXY that did not parse and
    for a symbol that is not collected. *)
Definition crawled (k : P1.crawl) (s : string) : option jsnum :=
  if String.eqb s "USDKRW" then
    match P1.k_fx k with Common.Got (u, _) => Some u | _ => None end
  else if String.eqb s "EURKRW" then
    match P1.k_fx k with Common.Got (_, e) => Some e | _ => None end
  else if String.eqb s "DXY" then
    match P1.k_dxy k with
    | Common.Got v => if isNaN v then None else Some v
    | _ => None
    end
  else if String.eqb s "KR10Y" then
    match P1.k_bond k with Common.Got (kv, _) => Some kv | _ => None end
  else if String.eqb s "US10Y" then
    match P1.k_bond k with Common.Got (_, uv) => Some uv | _ => None end
  else None.

(** The five slots of the snapshot of part_001. *)
Definition slots1 (st : P1.state) : list jsval :=
  [ P1.USDKRW st; P1.EURKRW st; P1.DXY st; P1.KR10Y st; P1.US10Y st ].

(** The messages a crawler of part_001 can push. *)
Definition crawler_messages : list string := [ P1.msg_fx; P1.msg_bond; P1.msg_dxy ].

(** A snapshot of part_001 is tidy: its slots are clean and its error
    list holds crawler messages only. *)
Definition tidy (st : P1.state) : Prop :=
  Forall clean_slot (slots1 st)
  /\ Forall (fun m => In m crawler_messages) (P1.errors st).

(** *** The tick table of part_001 *)





(** *** The collection of part_001 as a system

    A run of [collectData] begins when the timer fires, each of its
    three crawlers settles when its fetches do, and the run ends when
    all three have settled; runs may overlap.  [cs_running] holds the
    runs that have begun and not ended, each with the timestamp it took
    and what its crawlers have returned so far. *)
Record run1 : Type := {
  ru_ts : Z;
  ru_fx : option (jsval * jsval);
  ru_bond : option (jsval * jsval);
  ru_dxy : option jsval
}.

Inductive cevent : Type :=
| Begin (nowms : Z)
| FxSettles (i : nat) (r : Common.fetched (jsnum * jsnum))
| BondSettles (i : nat) (r : Common.fetched (jsnum * jsnum))
| DxySettles (i : nat) (r : Common.fetched jsnum)
| Finish (i : nat) (kst : string).

Record csys : Type := {
  cs_state : P1.state;
  cs_db : Common.db;
  cs_running : list run1
}.

Definition collect_step (s : csys) (e : cevent) : csys :=
  match e with
  | Begin nowms =>
      {| cs_state := P1.collect_begin (cs_state s); cs_db := cs_db s;
         cs_running := cs_running s
                       ++ [ {| ru_ts := nowms / 1000; ru_fx := None;
                               ru_bond := None; ru_dxy := None |} ] |}
  | FxSettles i r =>
      match nth_error (cs_running s) i with
      | Some {| ru_ts := ts; ru_fx := None; ru_bond := b; ru_dxy := x |} =>
          {| cs_state := fst (P1.crawlNaverFx (cs_state s) r); cs_db := cs_db s;
             cs_running :=
               <[ i := {| ru_ts := ts;
                          ru_fx := Some (snd (P1.crawlNaverFx (cs_state s) r));
                          ru_bond := b; ru_dxy := x |} ]> (cs_running s) |}
      | _ => s
      end
  | BondSettles i r =>
      match nth_error (cs_running s) i with
      | Some {| ru_ts := ts; ru_fx := f; ru_bond := None; ru_dxy := x |} =>
          {| cs_state := fst (P1.crawlNaverBond (cs_state s) r); cs_db := cs_db s;
             cs_running :=
               <[ i := {| ru_ts := ts; ru_fx := f;
                          ru_bond := Some (snd (P1.crawlNaverBond (cs_state s) r));
                          ru_dxy := x |} ]> (cs_running s) |}
      | _ => s
      end
  | DxySettles i r =>
      match nth_error (cs_running s) i with
      | Some {| ru_ts := ts; ru_fx := f; ru_bond := b; ru_dxy := None |} =>
          {| cs_state := fst (P1.crawlInvestingDXY (cs_state s) r); cs_db := cs_db s;
             cs_running :=
               <[ i := {| ru_ts := ts; ru_fx := f; ru_bond := b;
                          ru_dxy := Some (snd (P1.crawlInvestingDXY (cs_state s) r)) |} ]>
                 (cs_running s) |}
      | _ => s
      end
  | Finish i kst =>
      match nth_error (cs_running s) i with
      | Some {| ru_ts := ts; ru_fx := Some f; ru_bond := Some b; ru_dxy := Some x |} =>
          {| cs_state := fst (P1.collect_end (cs_state s) (cs_db s) ts f b x kst);
             cs_db := snd (P1.collect_end (cs_state s) (cs_db s) ts f b x kst);
             cs_running := drop_nth i (cs_running s) |}
      | _ => s
      end
  end.

Definition csys0 : csys := {| cs_state := p1_boot; cs_db := []; cs_running := [] |}.

Definition collect_run (es : list cevent) : csys := fold_left collect_step es csys0.

(** The three crawlers of a run, the event by which one settles in the
    run at the head of [cs_running], whether it reports a failure, and
    the message it then pushes. *)
Inductive crawler : Type := CrFx | CrBond | CrDxy.

Definition settles (k : P1.crawl) (c : crawler) : cevent :=
  match c with
  | CrFx => FxSettles 0 (P1.k_fx k)
  | CrBond => BondSettles 0 (P1.k_bond k)
  | CrDxy => DxySettles 0 (P1.k_dxy k)
  end.

Definition fails (k : P1.crawl) (c : crawler) : bool :=
  match c with
  | CrFx => match P1.k_fx k with Common.Threw _ => true | _ => false end
  | CrBond => match P1.k_bond k with Common.Threw _ => true | _ => false end
  | CrDxy => match P1.k_dxy k with
             | Common.Threw _ => true
             | Common.Got v => isNaN v
             end
  end.

Definition message_of (c : crawler) : string :=
  match c with
  | CrFx => P1.msg_fx | CrBond => P1.msg_bond | CrDxy => P1.msg_dxy
  end.

(** The six orders in which the crawlers of one run can settle. *)
Definition settle_orders : list (list crawler) :=
  [ [CrFx; CrBond; CrDxy]; [CrFx; CrDxy; CrBond]; [CrBond; CrFx; CrDxy];
    [CrBond; CrDxy; CrFx]; [CrDxy; CrFx; CrBond]; [CrDxy; CrBond; CrFx] ].

(** One run from its start to its end with nothing else in between. *)
Definition lone_run (k : P1.crawl) (nowms : Z) (kst : string) (order : list crawler)
  : list cevent :=
  Begin nowms :: List.map (settles k) order ++ [ Finish 0 kst ].

(** *** Widths of zero, and counts the doubles carry exactly *)



(** An integer that [parseInt] and the products of the source, which
    work on doubles, give exactly: one up to 2^53. *)
Definition exact_ms (n : Z) : Prop := 0 <= n <= 2 ^ 53.

(** ** Proof steps used more than once *)

(** Take a membership in an explicit list apart, case by case. *)
Ltac split_members :=
  repeat match goal with
         | H : _ \/ _ |- _ => destruct H as [H|H]
         | H : False |- _ => destruct H
         end.

(** Decide every [match] of the goal by cases on what it inspects. *)
Ltac case_matches :=
  repeat match goal with
         | |- context [match ?x with _ => _ end] => destruct x
         end.

(** Cases on a snapshot slot that a [typeof] test inspects. *)
Ltac case_slots :=
  repeat match goal with
         | |- context [match ?v with JNull => _ | JUndefined => _ | JNum _ => _ end] =>
             destruct v; simpl
         | |- context [if is_number ?v then _ else _] => destruct v; simpl
         end.

(** ** The stable sort *)

Section SortFacts.
Context {A : Type} (leb : A -> A -> bool).
Hypothesis leb_total : forall a b, leb a b = false -> leb b a = true.

Lemma insert_sorted_perm (x : A) (l : list A) :
  Permutation (insert_sorted leb x l) (x :: l).
Proof.
  induction l as [|y l IH]; simpl.
  - apply Permutation_refl.
  - destruct (leb x y).
    + apply Permutation_refl.
    + eapply perm_trans; [apply perm_skip, IH | apply perm_swap].
Qed.

Lemma sort_by_perm (l : list A) : Permutation (sort_by leb l) l.
Proof.
  induction l as [|x l IH]; simpl.
  - constructor.
  - eapply perm_trans; [apply insert_sorted_perm | apply perm_skip, IH].
Qed.

Lemma insert_sorted_hd (x y : A) (l : list A) :
  leb y x = true -> HdRel (fun a b => leb a b = true) y l ->
  HdRel (fun a b => leb a b = true) y (insert_sorted leb x l).
Proof.
  intros Hyx Hhd. destruct l as [|z l]; simpl.
  - constructor. exact Hyx.
  - destruct (leb x z); constructor; [exact Hyx|].
    inversion Hhd; assumption.
Qed.

Lemma insert_sorted_sorted (x : A) (l : list A) :
  Sorted (fun a b => leb a b = true) l ->
  Sorted (fun a b => leb a b = true) (insert_sorted leb x l).
Proof.
  induction 1 as [|y l Hs IH Hhd]; simpl.
  - repeat constructor.
  - destruct (leb x y) eqn:E.
    + constructor; [constructor; assumption | constructor; exact E].
    + constructor; [exact IH|].
      apply insert_sorted_hd; [apply leb_total; exact E | exact Hhd].
Qed.

Lemma sort_by_sorted (l : list A) :
  Sorted (fun a b => leb a b = true) (sort_by leb l).
Proof.
  induction l as [|x l IH]; simpl.
  - constructor.
  - apply insert_sorted_sorted, IH.
Qed.

Lemma sort_by_In (x : A) (l : list A) : In x (sort_by leb l) <-> In x l.
Proof.
  split; apply Permutation_in; [|apply Permutation_sym]; apply sort_by_perm.
Qed.

End SortFacts.

(** ** The tick table of part_000 and part_002 *)



Lemma in_range_within (s : string) (lo hi : Z) (x : Common.tick) :
  Common.in_range s lo hi x = true <-> within s lo hi x.
Proof.
  unfold Common.in_range, within.
  rewrite !andb_true_iff, String.eqb_eq, !Z.leb_le. tauto.
Qed.

Lemma save_entry_app (t : Z) (d : Common.db) (e : string * jsval) :
  Common.save_entry t d e = d ++ Common.save_entry t [] e.
Proof.
  unfold Common.save_entry, Common.insertTick.
  destruct (snd e) as [| |n]; try (rewrite app_nil_r; reflexivity).
  destruct (isFinite n); [reflexivity | rewrite app_nil_r; reflexivity].
Qed.

Lemma save_entry_finite_ticks (t : Z) (e : string * jsval) :
  Common.save_entry t [] e = finite_ticks (t, [e]).
Proof.
  unfold Common.save_entry, finite_ticks, Common.insertTick. simpl.
  destruct (snd e) as [| |[q| | |]]; reflexivity.
Qed.

Lemma saveTicks_app (t : Z) (m : list (string * jsval)) (d : Common.db) :
  Common.saveTicks d t m = d ++ finite_ticks (t, m).
Proof.
  unfold Common.saveTicks. revert d.
  induction m as [|e m IH]; intros d; simpl.
  - unfold finite_ticks. simpl. rewrite app_nil_r. reflexivity.
  - rewrite IH, save_entry_app, save_entry_finite_ticks, <- app_assoc.
    f_equal. unfold finite_ticks. simpl. rewrite app_nil_r. reflexivity.
Qed.

Lemma run_batches_app (bs : list batch) (d : Common.db) :
  fold_left (fun d b => Common.saveTicks d (fst b) (snd b)) bs d
  = d ++ flat_map finite_ticks bs.
Proof.
  revert d. induction bs as [|[t m] bs IH]; intros d; simpl.
  - rewrite app_nil_r. reflexivity.
  - rewrite IH, saveTicks_app, <- app_assoc. reflexivity.
Qed.

Lemma run_batches_ticks (bs : list batch) :
  run_batches bs = flat_map finite_ticks bs.
Proof. unfold run_batches. rewrite run_batches_app. reflexivity. Qed.

Lemma finite_ticks_finite (b : batch) : Forall finite_tick (finite_ticks b).
Proof.
  unfold finite_ticks. apply List.Forall_forall. intros x Hx.
  apply in_flat_map in Hx. destruct Hx as [e [_ Hx]].
  destruct (snd e) as [| |[q| | |]]; simpl in Hx; try contradiction.
  destruct Hx as [<-|[]]. reflexivity.
Qed.

(** The table of part_000 and part_002 holds finite values only, whatever
    was handed to [saveTicks]. *)
Lemma run_batches_finite (bs : list batch) : Forall finite_tick (run_batches bs).
Proof.
  rewrite run_batches_ticks. apply List.Forall_forall. intros x Hx.
  apply in_flat_map in Hx. destruct Hx as [b [_ Hx]].
  pose proof (finite_ticks_finite b) as Hb.
  rewrite List.Forall_forall in Hb. apply Hb, Hx.
Qed.

(** There, a null, NaN or infinite entry changes nothing. *)
Lemma saveTicks_skips_non_finite (d : Common.db) (t : Z) (s : string) (v : jsval) :
  (forall q, v <> JNum (Fin q)) -> Common.saveTicks d t [(s, v)] = d.
Proof.
  intros Hv. unfold Common.saveTicks, Common.save_entry. simpl.
  destruct v as [| |[q| | |]]; try reflexivity.
  exfalso. apply (Hv q). reflexivity.
Qed.


(** ** The batch save of part_001 *)

Lemma push_if_In (t : Z) (s : string) (v : jsval) (rows : list Common.tick)
    (r : Common.tick) :
  In r (P1.push_if t s v rows) <->
  In r rows \/ (truthy v = true /\ exists n, v = JNum n /\ r = mk_tick t s n).
Proof.
  unfold P1.push_if. destruct v as [| |n].
  - simpl. split; [auto | intros [H|[H _]]; [exact H | discriminate]].
  - simpl. split; [auto | intros [H|[H _]]; [exact H | discriminate]].
  - destruct (truthy (JNum n)) eqn:E.
    + rewrite in_app_iff. simpl. split.
      * intros [H|[H|[]]]; [left; exact H|]. right. split; [reflexivity|].
        exists n. split; [reflexivity | symmetry; exact H].
      * intros [H|[_ [n' [Hn ->]]]]; [left; exact H|]. right. left.
        injection Hn as ->. reflexivity.
    + split; [auto | intros [H|[H _]]; [exact H | discriminate]].
Qed.

Lemma P1_saveTicks_In (d : Common.db) (t : Z) (x : P1.data) (r : Common.tick) :
  In r (P1.saveTicks d t x) <->
  In r d \/ exists s v n,
      In (s, v) (entries x) /\ truthy v = true /\ v = JNum n /\ r = mk_tick t s n.
Proof.
  unfold P1.saveTicks. rewrite in_app_iff, !push_if_In. unfold entries. simpl.
  split.
  - intros [H|H]; [left; exact H|right].
    destruct H as [[[[[[]|H]|H]|H]|H]|H];
      destruct H as [Ht [n [Hv Hr]]]; eexists _, _, n;
      (split; [|split; [exact Ht|split; [exact Hv|exact Hr]]]); tauto.
  - intros [H|H]; [left; exact H|right].
    destruct H as [s [v [n [Hin [Ht [Hv Hr]]]]]].
    destruct Hin as [E|[E|[E|[E|[E|[]]]]]]; injection E as <- <-;
      [do 4 left; right | do 3 left; right | do 2 left; right | left; right | right];
      (split; [exact Ht | exists n; split; [exact Hv | exact Hr]]).
Qed.

Lemma entries_functional (x : P1.data) (s : string) (v v' : jsval) :
  In (s, v) (entries x) -> In (s, v') (entries x) -> v = v'.
Proof.
  unfold entries. simpl. intros H H'.
  split_members; congruence.
Qed.

(** C10. In [saveTicks] of part_001, which keeps an entry when it is
    truthy, an entry whose value is exactly zero is dropped: none of the
    rows added carries its symbol, although zero is a finite value and
    [saveTicks] of part_000 and part_002 stores it. *)
Theorem truthiness_save_skips_zero
    (d : Common.db) (t : Z) (x : P1.data) (s : string) (q : Q) :
  In (s, JNum (Fin q)) (entries x) -> (q == 0)%Q ->
  (exists rows, P1.saveTicks d t x = d ++ rows
                /\ forall r, In r rows -> Common.symbol r <> s)
  /\ finite_tick (mk_tick t s (Fin q))
  /\ Common.saveTicks d t [(s, JNum (Fin q))] = d ++ [mk_tick t s (Fin q)].
Proof.
  intros Hin Hq. split; [|split; reflexivity].
  exists (P1.saveTicks [] t x). split; [reflexivity|].
  intros r Hr Hs. apply P1_saveTicks_In in Hr.
  destruct Hr as [[]|[s' [v [n [Hin' [Ht [Hv Hr]]]]]]].
  subst r. simpl in Hs. subst s'.
  pose proof (entries_functional x s _ _ Hin Hin') as E.
  assert (n = Fin q) as -> by congruence.
  subst v. unfold truthy in Ht. apply Qeq_bool_iff in Hq. rewrite Hq in Ht. discriminate.
Qed.

Lemma truthiness_save_skips_zero_witness :
  exists rows,
    P1.saveTicks [] 1700000000
      {| P1.d_USDKRW := JNum (Fin 1300); P1.d_EURKRW := JNum (Fin 0);
         P1.d_DXY := JNull; P1.d_KR10Y := JNull; P1.d_US10Y := JNull |}
    = [] ++ rows
    /\ forall r, In r rows -> Common.symbol r <> "EURKRW".
Proof.
  apply (truthiness_save_skips_zero [] 1700000000
           {| P1.d_USDKRW := JNum (Fin 1300); P1.d_EURKRW := JNum (Fin 0);
              P1.d_DXY := JNull; P1.d_KR10Y := JNull; P1.d_US10Y := JNull |}
           "EURKRW" 0).
  - simpl. right. left. reflexivity.
  - reflexivity.
Defined.

(** In part_001 a NaN or null entry is never stored. *)
Lemma P1_saveTicks_no_nan (d : Common.db) (t : Z) (x : P1.data) (r : Common.tick) :
  In r (P1.saveTicks d t x) -> In r d \/ isNaN (Common.value r) = false.
Proof.
  intros H. apply P1_saveTicks_In in H.
  destruct H as [H|[s [v [n [_ [Ht [-> ->]]]]]]]; [left; exact H|right].
  simpl. destruct n; simpl in *; congruence.
Qed.

(** C4 (the defect in part_001). [saveTicks] of part_001 tests only the
    truthiness of a value, so a crawler result of [Infinity] is stored:
    after this run of [collectData] the table holds a tick that is not
    finite, and the next query of the symbol returns it. *)
Theorem P1_collectData_stores_infinity :
  let st := {| P1.USDKRW := JNull; P1.EURKRW := JNull; P1.DXY := JNull;
               P1.KR10Y := JNull; P1.US10Y := JNull; P1.spread10y := None;
               P1.asofKST := ""; P1.errors := [] |} in
  let k := {| P1.k_fx := Common.Got (PosInf, Fin 1400);
              P1.k_bond := Common.Threw "network";
              P1.k_dxy := Common.Threw "network" |} in
  let d := snd (P1.collectData st [] k 1700000000000 "2023-11-14 22:13:20") in
  d = [ mk_tick 1700000000 "USDKRW" PosInf; mk_tick 1700000000 "EURKRW" (Fin 1400) ]
  /\ ~ Forall finite_tick d
  /\ P1.selectSince d "USDKRW" 0
     = [ {| Common.r_ts := 1700000000; Common.r_value := PosInf |} ].
Proof.
  intros st k d. split; [reflexivity|]. split; [|reflexivity].
  intros H. inversion H as [|? ? Hbad _]. discriminate Hbad.
Qed.


(** ** What is saved and what a query returns *)



Lemma filter_flat_map {A B : Type} (f : B -> bool) (g : A -> list B) (xs : list A) :
  List.filter f (flat_map g xs) = flat_map (fun x => List.filter f (g x)) xs.
Proof.
  induction xs as [|x xs IH]; simpl; [reflexivity|].
  rewrite List.filter_app, IH. reflexivity.
Qed.








(** ** The collection cycle of part_000 and part_002 *)

Lemma finite_ticks_In (t : Z) (m : list (string * jsval)) (x : Common.tick) :
  In x (finite_ticks (t, m)) <->
  exists s q, In (s, JNum (Fin q)) m /\ x = mk_tick t s (Fin q).
Proof.
  unfold finite_ticks. simpl. rewrite in_flat_map. split.
  - intros [[s v] [Hin Hx]]. simpl in Hx.
    destruct v as [| |[q| | |]]; simpl in Hx; try contradiction.
    destruct Hx as [<-|[]]. exists s, q. split; [exact Hin | reflexivity].
  - intros [s [q [Hin ->]]]. exists (s, JNum (Fin q)). split; [exact Hin|].
    simpl. left. reflexivity.
Qed.

Lemma finite_ticks_ts (t : Z) (m : list (string * jsval)) :
  Forall (fun x => Common.ts x = t) (finite_ticks (t, m)).
Proof.
  apply List.Forall_forall. intros x Hx. apply finite_ticks_In in Hx.
  destruct Hx as [s [q [_ ->]]]. reflexivity.
Qed.

(** The batch of [refresh] has one entry per slot of the snapshot. *)
Lemma batch_of_slot (st : Common.state) (i : indicator) (v : jsval) :
  In (sym i, v) (Common.batch_of st) <-> v = slot st i.
Proof.
  unfold Common.batch_of. simpl. split.
  - intros H.
    split_members; destruct i; simpl in *; congruence.
  - intros ->. destruct i; simpl; tauto.
Qed.

Lemma batch_of_spread (st : Common.state) (v : jsval) :
  In ("SPREAD10Y", v) (Common.batch_of st) <-> v = Common.spread10y st.
Proof.
  unfold Common.batch_of. simpl. split.
  - intros H.
    split_members; congruence.
  - intros ->. tauto.
Qed.

Lemma refresh_db (st : Common.state) (d : Common.db) (c : Common.cycle)
    (now : Z) (kst : string) :
  snd (Common.refresh st d c now kst)
  = d ++ finite_ticks (now, Common.batch_of (fst (Common.refresh st d c now kst))).
Proof.
  unfold Common.refresh.
  destruct (Common.after_fetches st c) as [[st1 errs] stat].
  cbv beta iota zeta delta [fst snd]. apply saveTicks_app.
Qed.

(** A slot tick of the cycle is written exactly when the slot of the new
    snapshot holds a finite number, and carries that number. *)
Lemma refresh_tick_slot (st : Common.state) (d : Common.db) (c : Common.cycle)
    (now : Z) (kst : string) (i : indicator) (v : jsnum) :
  In (mk_tick now (sym i) v)
     (finite_ticks (now, Common.batch_of (fst (Common.refresh st d c now kst))))
  <-> slot (fst (Common.refresh st d c now kst)) i = JNum v /\ isFinite v = true.
Proof.
  rewrite finite_ticks_In. split.
  - intros [s [q [Hin E]]]. injection E as <- ->.
    apply batch_of_slot in Hin. split; [symmetry; exact Hin | reflexivity].
  - intros [Hs Hf]. destruct v as [q| | |]; try discriminate.
    exists (sym i), q. split; [|reflexivity].
    apply batch_of_slot. symmetry. exact Hs.
Qed.

Lemma refresh_tick_spread (st : Common.state) (d : Common.db) (c : Common.cycle)
    (now : Z) (kst : string) (v : jsnum) :
  In (mk_tick now "SPREAD10Y" v)
     (finite_ticks (now, Common.batch_of (fst (Common.refresh st d c now kst))))
  <-> Common.spread10y (fst (Common.refresh st d c now kst)) = JNum v
      /\ isFinite v = true.
Proof.
  rewrite finite_ticks_In. split.
  - intros [s [q [Hin E]]]. injection E as <- ->.
    apply batch_of_spread in Hin. split; [symmetry; exact Hin | reflexivity].
  - intros [Hs Hf]. destruct v as [q| | |]; try discriminate.
    exists "SPREAD10Y", q. split; [|reflexivity].
    apply batch_of_spread. symmetry. exact Hs.
Qed.

(** The slots of the new snapshot: the value of this cycle when the call
    returned (for the two FX slots, when it is a number), the old value
    otherwise. *)
Lemma refresh_slot (st : Common.state) (d : Common.db) (c : Common.cycle)
    (now : Z) (kst : string) (i : indicator) :
  slot (fst (Common.refresh st d c now kst)) i
  = match fetched_value c i with
    | Some v => if is_number v then v else slot st i
    | None => slot st i
    end.
Proof.
  unfold Common.refresh, Common.after_fetches, Common.with_spread.
  destruct c as [fx kr us dx].
  destruct fx as [[fu fe]|m1], kr as [k|m2], us as [u|m3], dx as [x|m4];
    destruct i; simpl;
    case_slots; reflexivity.
Qed.

Lemma refresh_status (st : Common.state) (d : Common.db) (c : Common.cycle)
    (now : Z) (kst : string) :
  Common.status (fst (Common.refresh st d c now kst))
  = if (threw c SrcFx || threw c SrcKr || threw c SrcUs || threw c SrcDxy)%bool
    then Common.WARN else Common.OK.
Proof.
  unfold Common.refresh, Common.after_fetches.
  destruct c as [fx kr us dx].
  destruct fx as [[fu fe]|m1], kr as [k|m2], us as [u|m3], dx as [x|m4];
    reflexivity.
Qed.

Lemma only_failure_fetched (c : Common.cycle) (s : source) (i : indicator) :
  only_failure c s ->
  (source_of i = s -> fetched_value c i = None)
  /\ (source_of i <> s -> exists v, fetched_value c i = Some v).
Proof.
  intros [Hs Ho]. split.
  - intros <-. destruct c as [fx kr us dx], i; simpl in *;
      match goal with
      | H : match ?f with Common.Got _ => _ | Common.Threw _ => _ end = true |- _ =>
          destruct f; [discriminate | reflexivity]
      end.
  - intros Hne. specialize (Ho (source_of i) Hne).
    destruct c as [fx kr us dx], i; simpl in *;
      match goal with
      | H : match ?f with Common.Got _ => _ | Common.Threw _ => _ end = false |- _ =>
          destruct f; [eexists; reflexivity | discriminate]
      end.
Qed.

(** C1 (as the code has it). When exactly one of the awaited calls of a
    cycle fails: the status written is WARN (the degraded status of the
    code); every slot fed by a call that returned holds the number it
    returned; the slots fed by the failed call hold what they held
    before; every tick added carries the timestamp of the cycle; and a
    tick for a failed indicator is added at that timestamp exactly when
    its retained slot holds a finite number, with that retained value. *)
Theorem refresh_one_failure (st : Common.state) (d : Common.db) (c : Common.cycle)
    (now : Z) (kst : string) (s : source) :
  only_failure c s ->
  let st' := fst (Common.refresh st d c now kst) in
  let d' := snd (Common.refresh st d c now kst) in
  Common.status st' = Common.WARN
  /\ (forall i v, source_of i <> s -> fetched_value c i = Some v ->
                  is_number v = true -> slot st' i = v)
  /\ (forall i, source_of i = s -> slot st' i = slot st i)
  /\ exists new, d' = d ++ new
       /\ Forall (fun x => Common.ts x = now) new
       /\ forall i v, source_of i = s ->
            (In (mk_tick now (sym i) v) new
             <-> slot st i = JNum v /\ isFinite v = true).
Proof.
  intros Honly st' d'. split; [|split; [|split]].
  - unfold st'. rewrite refresh_status. destruct Honly as [Hs _].
    destruct s; rewrite Hs; rewrite ?orb_true_r; reflexivity.
  - intros i v _ Hv Hn. unfold st'. rewrite refresh_slot, Hv, Hn. reflexivity.
  - intros i Hi. unfold st'. rewrite refresh_slot.
    destruct (only_failure_fetched c s i Honly) as [Hnone _].
    rewrite (Hnone Hi). reflexivity.
  - exists (finite_ticks (now, Common.batch_of st')). split; [|split].
    + apply refresh_db.
    + apply finite_ticks_ts.
    + intros i v Hi. unfold st'. rewrite refresh_tick_slot, refresh_slot.
      destruct (only_failure_fetched c s i Honly) as [Hnone _].
      rewrite (Hnone Hi). reflexivity.
Qed.

Lemma kr_fails_only : only_failure kr_fails SrcKr.
Proof.
  split; [reflexivity|]. intros s' Hne. destruct s'; try reflexivity.
  contradiction Hne. reflexivity.
Qed.

Lemma refresh_one_failure_witness :
  Common.status (fst (Common.refresh stale_kr_state [] kr_fails 1700000000000 "k"))
  = Common.WARN.
Proof.
  pose proof (refresh_one_failure stale_kr_state [] kr_fails 1700000000000 "k" SrcKr
                kr_fails_only) as H.
  exact (proj1 H).
Defined.

(** C1 (as the specification has it) fails: in a cycle whose only failure
    is the Korean bond call, a KR10Y tick is written at the timestamp of
    the cycle, carrying the value retained from the earlier cycle. *)
Lemma refresh_writes_stale_tick :
  only_failure kr_fails SrcKr
  /\ ~ no_tick_at (snd (Common.refresh stale_kr_state [] kr_fails 1700000000000 "k"))
        "KR10Y" 1700000000000.
Proof.
  split; [exact kr_fails_only|]. intros H.
  apply (H (mk_tick 1700000000000 "KR10Y" (Fin (35 # 10)))).
  - vm_compute. tauto.
  - reflexivity.
  - reflexivity.
Qed.

(** C9 (as the specification has it) fails: in the same cycle the Korean
    bond call fails, and yet a SPREAD10Y tick is written at the
    timestamp of the cycle, computed from the retained Korean yield. *)
Lemma refresh_writes_spread_from_stale_input :
  threw kr_fails SrcKr = true
  /\ In (mk_tick 1700000000000 "SPREAD10Y" (Fin (700 # 1000)))
        (snd (Common.refresh stale_kr_state [] kr_fails 1700000000000 "k")).
Proof.
  split; [reflexivity|]. vm_compute. tauto.
Qed.

Lemma refresh_spread_slot (st : Common.state) (d : Common.db) (c : Common.cycle)
    (now : Z) (kst : string) :
  Common.spread10y (fst (Common.refresh st d c now kst))
  = match us_seen st c, kr_seen st c with
    | JNum u, JNum k => JNum (toFixed3 (js_sub u k))
    | _, _ => Common.spread10y st
    end.
Proof.
  unfold Common.refresh, Common.after_fetches, Common.with_spread, us_seen, kr_seen.
  destruct c as [fx kr us dx].
  destruct fx as [[fu fe]|m1], kr as [k|m2], us as [u|m3], dx as [x|m4]; simpl;
    case_slots; reflexivity.
Qed.

(** The difference is taken in doubles before it is rounded to three
    decimals: yields of 4.2345 and 3.5 give 0.734, the double nearest to
    4.2345 lying below it, where the decimals would give 0.735. *)
Lemma spread_of_doubles :
  js_sub (Fin (42345 # 10000)) (Fin (35 # 10))
  = Fin (826973481575907 # 1125899906842624)
  /\ toFixed3 (js_sub (Fin (42345 # 10000)) (Fin (35 # 10))) = Fin (734 # 1000)
  /\ round3 ((42345 # 10000) - (35 # 10)) = 735 # 1000
  /\ Common.spread10y
       (fst (Common.refresh Common.boot []
               {| Common.c_fx := Common.Threw "Naver FX parse failed";
                  Common.c_kr := Common.Got (Fin (35 # 10));
                  Common.c_us := Common.Got (Fin (42345 # 10000));
                  Common.c_dxy := Common.Got (Fin 98) |}
               1700000000000 "k"))
     = JNum (Fin (734 # 1000)).
Proof. repeat split; vm_compute; reflexivity. Qed.

(** C9 (as the code has it). The spread step of a cycle reads the two
    bond slots of the snapshot, which hold the yield of this cycle when
    the call returned and the yield retained from an earlier cycle when
    it failed: when both hold a number the spread slot becomes what
    [toFixed(3)] makes of their difference, taken in doubles, otherwise
    it keeps its value; and a SPREAD10Y tick is written at the timestamp
    of the cycle exactly when the spread slot then holds a finite
    number, with that value.  In particular the spread of two yields
    obtained in this cycle is written when it is finite. *)
Theorem refresh_spread (st : Common.state) (d : Common.db) (c : Common.cycle)
    (now : Z) (kst : string) :
  let st' := fst (Common.refresh st d c now kst) in
  let d' := snd (Common.refresh st d c now kst) in
  Common.spread10y st'
  = match us_seen st c, kr_seen st c with
    | JNum u, JNum k => JNum (toFixed3 (js_sub u k))
    | _, _ => Common.spread10y st
    end
  /\ (exists new, d' = d ++ new
        /\ Forall (fun x => Common.ts x = now) new
        /\ forall v, In (mk_tick now "SPREAD10Y" v) new
                     <-> Common.spread10y st' = JNum v /\ isFinite v = true)
  /\ (forall k u, Common.c_kr c = Common.Got k -> Common.c_us c = Common.Got u ->
                  isFinite (toFixed3 (js_sub u k)) = true ->
                  In (mk_tick now "SPREAD10Y" (toFixed3 (js_sub u k))) d').
Proof.
  intros st' d'. split; [apply refresh_spread_slot|]. split.
  - exists (finite_ticks (now, Common.batch_of st')). split; [|split].
    + apply refresh_db.
    + apply finite_ticks_ts.
    + intros v. apply refresh_tick_spread.
  - intros k u Hk Hu Hfin. unfold d'. rewrite refresh_db.
    apply in_or_app. right. apply refresh_tick_spread.
    split; [|exact Hfin].
    rewrite refresh_spread_slot. unfold us_seen, kr_seen. rewrite Hk, Hu.
    reflexivity.
Qed.

Lemma refresh_spread_witness :
  In (mk_tick 1700000000000 "SPREAD10Y" (Fin (1500 # 1000)))
     (snd (Common.refresh Common.boot []
             {| Common.c_fx := Common.Threw "Naver FX parse failed";
                Common.c_kr := Common.Got (Fin 3);
                Common.c_us := Common.Got (Fin (45 # 10));
                Common.c_dxy := Common.Got (Fin 98) |}
             1700000000000 "k")).
Proof.
  pose proof (refresh_spread Common.boot []
                {| Common.c_fx := Common.Threw "Naver FX parse failed";
                   Common.c_kr := Common.Got (Fin 3);
                   Common.c_us := Common.Got (Fin (45 # 10));
                   Common.c_dxy := Common.Got (Fin 98) |}
                1700000000000 "k") as H.
  exact (proj2 (proj2 H) (Fin 3) (Fin (45 # 10)) eq_refl eq_refl eq_refl).
Defined.

(** ** The OHLC fold *)

Lemma key_eqb_eq (a b : option Z) : Common.key_eqb a b = true <-> a = b.
Proof.
  destruct a as [x|], b as [y|]; simpl; try (split; congruence).
  rewrite Z.eqb_eq. split; congruence.
Qed.

Lemma key_eqb_refl (a : option Z) : Common.key_eqb a a = true.
Proof. apply key_eqb_eq. reflexivity. Qed.

Lemma key_eqb_neq (a b : option Z) : Common.key_eqb a b = false <-> a <> b.
Proof.
  rewrite <- key_eqb_eq. destruct (Common.key_eqb a b); split; congruence.
Qed.

Lemma cmap_get_app (m : Common.cmap) (k k' : option Z) (x : Common.candle) :
  Common.cmap_get (m ++ [(k, x)]) k'
  = match Common.cmap_get m k' with
    | Some y => Some y
    | None => if Common.key_eqb k k' then Some x else None
    end.
Proof.
  induction m as [|[k0 y] m IH]; simpl.
  - reflexivity.
  - destruct (Common.key_eqb k0 k'); [reflexivity | exact IH].
Qed.

Lemma cmap_get_update (m : Common.cmap) (k k' : option Z)
    (f : Common.candle -> Common.candle) :
  Common.cmap_get (Common.cmap_update m k f) k'
  = if Common.key_eqb k k' then option_map f (Common.cmap_get m k')
    else Common.cmap_get m k'.
Proof.
  induction m as [|[k0 y] m IH]; simpl.
  - destruct (Common.key_eqb k k'); reflexivity.
  - destruct (Common.key_eqb k0 k) eqn:E0; simpl.
    + apply key_eqb_eq in E0. subst k0.
      destruct (Common.key_eqb k k'); reflexivity.
    + destruct (Common.key_eqb k0 k') eqn:E1.
      * apply key_eqb_eq in E1. subst k0.
        assert (Common.key_eqb k k' = false) as ->; [|reflexivity].
        apply key_eqb_neq. apply key_eqb_neq in E0. congruence.
      * exact IH.
Qed.

Lemma cmap_update_keys (m : Common.cmap) (k : option Z)
    (f : Common.candle -> Common.candle) :
  List.map fst (Common.cmap_update m k f) = List.map fst m.
Proof.
  induction m as [|[k0 y] m IH]; simpl; [reflexivity|].
  destruct (Common.key_eqb k0 k); simpl; [reflexivity | rewrite IH; reflexivity].
Qed.

Lemma cmap_get_None (m : Common.cmap) (k : option Z) :
  Common.cmap_get m k = None <-> ~ In k (List.map fst m).
Proof.
  induction m as [|[k0 y] m IH]; simpl.
  - tauto.
  - destruct (Common.key_eqb k0 k) eqn:E.
    + apply key_eqb_eq in E. split; [discriminate | tauto].
    + apply key_eqb_neq in E. rewrite IH. tauto.
Qed.

Lemma cmap_get_In (m : Common.cmap) (k : option Z) (x : Common.candle) :
  Common.cmap_get m k = Some x -> In (k, x) m.
Proof.
  induction m as [|[k0 y] m IH]; simpl; [discriminate|].
  destruct (Common.key_eqb k0 k) eqn:E.
  - apply key_eqb_eq in E. intros [= ->]. left. congruence.
  - intros H. right. apply IH, H.
Qed.

Lemma In_cmap_get (m : Common.cmap) (k : option Z) (x : Common.candle) :
  List.NoDup (List.map fst m) -> In (k, x) m -> Common.cmap_get m k = Some x.
Proof.
  induction m as [|[k0 y] m IH]; simpl; [tauto|].
  intros Hnd [E|Hin].
  - injection E as -> ->. rewrite key_eqb_refl. reflexivity.
  - apply List.NoDup_cons_iff in Hnd. destruct Hnd as [Hk0 Hnd].
    destruct (Common.key_eqb k0 k) eqn:E.
    + apply key_eqb_eq in E. subst k0. exfalso. apply Hk0.
      apply List.in_map_iff. exists (k, x). split; [reflexivity | exact Hin].
    + apply IH; assumption.
Qed.

Lemma cmap_update_t (m : Common.cmap) (k : option Z)
    (f : Common.candle -> Common.candle) :
  (forall x, Common.t (f x) = Common.t x) ->
  Forall (fun e => Common.t (snd e) = fst e) m ->
  Forall (fun e => Common.t (snd e) = fst e) (Common.cmap_update m k f).
Proof.
  intros Hf. induction 1 as [|[k0 y] m Hy Hm IH]; simpl; [constructor|].
  destruct (Common.key_eqb k0 k).
  - constructor; [simpl in *; rewrite Hf; exact Hy | exact Hm].
  - constructor; [exact Hy | exact IH].
Qed.

Lemma add_row_ok (w : Z) (m : Common.cmap) (r : Common.row) :
  cmap_ok m -> cmap_ok (Common.add_row w m r).
Proof.
  intros [Hnd Ht]. unfold Common.add_row.
  destruct (Common.cmap_get m (Common.bucketStart (Common.r_ts r) w)) eqn:E.
  - split.
    + rewrite cmap_update_keys. exact Hnd.
    + apply cmap_update_t; [reflexivity | exact Ht].
  - split.
    + rewrite List.map_app. simpl.
      apply List.NoDup_app; [exact Hnd | repeat constructor; simpl; tauto |].
      intros k Hk [<-|[]]. apply cmap_get_None in E. contradiction.
    + apply List.Forall_app. split; [exact Ht | repeat constructor].
Qed.

Lemma fold_add_row_ok (w : Z) (rows : list Common.row) (m : Common.cmap) :
  cmap_ok m -> cmap_ok (fold_left (Common.add_row w) rows m).
Proof.
  revert m. induction rows as [|r rows IH]; intros m Hm; simpl.
  - exact Hm.
  - apply IH, add_row_ok, Hm.
Qed.

Lemma get_add_row (w : Z) (m : Common.cmap) (r : Common.row) (k : option Z) :
  Common.cmap_get (Common.add_row w m r) k
  = if Common.key_eqb (Common.bucketStart (Common.r_ts r) w) k
    then feed k (Common.cmap_get m k) (Common.r_value r)
    else Common.cmap_get m k.
Proof.
  unfold Common.add_row, feed.
  destruct (Common.key_eqb (Common.bucketStart (Common.r_ts r) w) k) eqn:E.
  - apply key_eqb_eq in E. rewrite E.
    destruct (Common.cmap_get m k) as [x|] eqn:G.
    + rewrite cmap_get_update, key_eqb_refl, G. reflexivity.
    + rewrite cmap_get_app, G, key_eqb_refl. reflexivity.
  - destruct (Common.cmap_get m (Common.bucketStart (Common.r_ts r) w)) as [x|] eqn:G.
    + rewrite cmap_get_update, E. reflexivity.
    + rewrite cmap_get_app, E. destruct (Common.cmap_get m k); reflexivity.
Qed.

Lemma get_fold_add_row (w : Z) (rows : list Common.row) (m : Common.cmap)
    (k : option Z) :
  Common.cmap_get (fold_left (Common.add_row w) rows m) k
  = fold_left (feed k)
      (List.map Common.r_value
         (List.filter
            (fun r => Common.key_eqb (Common.bucketStart (Common.r_ts r) w) k) rows))
      (Common.cmap_get m k).
Proof.
  revert m. induction rows as [|r rows IH]; intros m; simpl; [reflexivity|].
  rewrite IH, get_add_row.
  destruct (Common.key_eqb (Common.bucketStart (Common.r_ts r) w) k); reflexivity.
Qed.

Lemma bucket_filter (w b : Z) (rows : list Common.row) :
  w <> 0 ->
  List.filter
    (fun r => Common.key_eqb (Common.bucketStart (Common.r_ts r) w) (Some b)) rows
  = rows_in w b rows.
Proof.
  intros Hw. unfold rows_in. apply List.filter_ext. intros r.
  unfold Common.bucketStart. apply Z.eqb_neq in Hw. rewrite Hw. reflexivity.
Qed.

Lemma last_cons {A : Type} (vs : list A) (v d : A) :
  List.last (v :: vs) d = List.last vs v.
Proof.
  revert v d. induction vs as [|u vs IH]; intros v d; [reflexivity|].
  change (List.last (u :: vs) d = List.last (u :: vs) v).
  rewrite (IH u d), (IH u v). reflexivity.
Qed.

(** What the fold leaves in a candle: the key, the first value, the last
    value, and the running maximum and minimum. *)
Lemma fold_touch (vs : list jsnum) (x : Common.candle) :
  let y := fold_left (fun a v => Common.touch v a) vs x in
  Common.t y = Common.t x /\ Common.o y = Common.o x
  /\ Common.c y = List.last vs (Common.c x)
  /\ Common.h y = fold_left Math_max vs (Common.h x)
  /\ Common.l y = fold_left Math_min vs (Common.l x).
Proof.
  revert x. induction vs as [|v vs IH]; intros x; simpl.
  - repeat split; reflexivity.
  - destruct (IH (Common.touch v x)) as [Ht [Ho [Hc [Hh Hl]]]].
    split; [exact Ht|]. split; [exact Ho|]. split; [|split; assumption].
    rewrite Hc. symmetry. apply last_cons.
Qed.

Lemma fold_feed_some (k : option Z) (vs : list jsnum) (x : Common.candle) :
  fold_left (feed k) vs (Some x)
  = Some (fold_left (fun a u => Common.touch u a) vs x).
Proof.
  revert x. induction vs as [|u vs IH]; intros x; simpl; [reflexivity|].
  apply IH.
Qed.

Lemma fold_feed (k : option Z) (v : jsnum) (vs : list jsnum) :
  fold_left (feed k) (v :: vs) None
  = Some (fold_left (fun a u => Common.touch u a) vs (init_candle k v)).
Proof. apply (fold_feed_some k vs (init_candle k v)). Qed.

Lemma js_le_trans (a b c : jsnum) : js_le a b -> js_le b c -> js_le a c.
Proof.
  destruct a, b, c; simpl; try tauto. apply Qle_trans.
Qed.

Lemma Math_max_finite (a b : jsnum) :
  isFinite a = true -> isFinite b = true ->
  isFinite (Math_max a b) = true
  /\ js_le a (Math_max a b) /\ js_le b (Math_max a b)
  /\ (Math_max a b = a \/ Math_max a b = b).
Proof.
  destruct a as [x| | |], b as [y| | |]; try discriminate. intros _ _. simpl.
  destruct (Qle_bool x y) eqn:E; simpl.
  - apply Qle_bool_iff in E. repeat split; [exact E | apply Qle_refl | tauto].
  - assert (~ (x <= y)%Q) as N by (rewrite <- Qle_bool_iff; congruence).
    apply Qnot_le_lt, Qlt_le_weak in N.
    repeat split; [apply Qle_refl | exact N | tauto].
Qed.

Lemma Math_min_finite (a b : jsnum) :
  isFinite a = true -> isFinite b = true ->
  isFinite (Math_min a b) = true
  /\ js_le (Math_min a b) a /\ js_le (Math_min a b) b
  /\ (Math_min a b = a \/ Math_min a b = b).
Proof.
  destruct a as [x| | |], b as [y| | |]; try discriminate. intros _ _. simpl.
  destruct (Qle_bool x y) eqn:E; simpl.
  - apply Qle_bool_iff in E. repeat split; [apply Qle_refl | exact E | tauto].
  - assert (~ (x <= y)%Q) as N by (rewrite <- Qle_bool_iff; congruence).
    apply Qnot_le_lt, Qlt_le_weak in N.
    repeat split; [exact N | apply Qle_refl | tauto].
Qed.

Lemma js_le_refl_finite (a : jsnum) : isFinite a = true -> js_le a a.
Proof. destruct a; try discriminate. intros _. simpl. apply Qle_refl. Qed.

Lemma fold_max_is_max (vs : list jsnum) (a : jsnum) :
  isFinite a = true -> Forall (fun v => isFinite v = true) vs ->
  isFinite (fold_left Math_max vs a) = true
  /\ is_max (fold_left Math_max vs a) (a :: vs).
Proof.
  revert a. induction vs as [|v vs IH]; intros a Ha Hvs; simpl.
  - split; [exact Ha|]. split; [left; reflexivity|].
    intros u [<-|[]]. apply js_le_refl_finite, Ha.
  - inversion Hvs as [|? ? Hv Hvs']; subst.
    destruct (Math_max_finite a v Ha Hv) as [Hf [Hla [Hlv Hor]]].
    destruct (IH (Math_max a v) Hf Hvs') as [Hf' [Hin Hub]].
    split; [exact Hf'|]. split.
    + destruct Hin as [E|Hin]; [|right; right; exact Hin].
      rewrite <- E. destruct Hor as [->| ->]; [left | right; left]; reflexivity.
    + intros u [<-|[<-|Hu]].
      * eapply js_le_trans; [exact Hla | apply Hub; left; reflexivity].
      * eapply js_le_trans; [exact Hlv | apply Hub; left; reflexivity].
      * apply Hub. right. exact Hu.
Qed.

Lemma fold_min_is_min (vs : list jsnum) (a : jsnum) :
  isFinite a = true -> Forall (fun v => isFinite v = true) vs ->
  isFinite (fold_left Math_min vs a) = true
  /\ is_min (fold_left Math_min vs a) (a :: vs).
Proof.
  revert a. induction vs as [|v vs IH]; intros a Ha Hvs; simpl.
  - split; [exact Ha|]. split; [left; reflexivity|].
    intros u [<-|[]]. apply js_le_refl_finite, Ha.
  - inversion Hvs as [|? ? Hv Hvs']; subst.
    destruct (Math_min_finite a v Ha Hv) as [Hf [Hla [Hlv Hor]]].
    destruct (IH (Math_min a v) Hf Hvs') as [Hf' [Hin Hlb]].
    split; [exact Hf'|]. split.
    + destruct Hin as [E|Hin]; [|right; right; exact Hin].
      rewrite <- E. destruct Hor as [->| ->]; [left | right; left]; reflexivity.
    + intros u [<-|[<-|Hu]].
      * eapply js_le_trans; [apply Hlb; left; reflexivity | exact Hla].
      * eapply js_le_trans; [apply Hlb; left; reflexivity | exact Hlv].
      * apply Hlb. right. exact Hu.
Qed.

Lemma ascending_strong (rows : list Common.row) :
  ascending rows ->
  StronglySorted (fun a b => Common.r_ts a <= Common.r_ts b) rows.
Proof.
  apply Sorted_StronglySorted. intros a b c Hab Hbc. lia.
Qed.

Lemma strong_filter {A : Type} (R : A -> A -> Prop) (f : A -> bool) (xs : list A) :
  StronglySorted R xs -> StronglySorted R (List.filter f xs).
Proof.
  induction 1 as [|x xs Hs IH Hall]; simpl; [constructor|].
  destruct (f x); [|exact IH]. constructor; [exact IH|].
  apply List.Forall_forall. intros y Hy. apply filter_In in Hy.
  rewrite List.Forall_forall in Hall. apply Hall, Hy.
Qed.

Lemma strong_bounds (x : Common.row) (xs : list Common.row) :
  StronglySorted (fun a b => Common.r_ts a <= Common.r_ts b) (x :: xs) ->
  forall r, In r (x :: xs) ->
            Common.r_ts x <= Common.r_ts r <= Common.r_ts (List.last xs x).
Proof.
  revert x. induction xs as [|y xs IH]; intros x Hs r Hr.
  - destruct Hr as [<-|[]]. simpl. lia.
  - inversion Hs as [|? ? Hs' Hall]; subst.
    rewrite List.Forall_forall in Hall.
    rewrite (last_cons xs y x).
    assert (Common.r_ts x <= Common.r_ts y) as Hxy by (apply Hall; left; reflexivity).
    destruct Hr as [<-|Hr].
    + specialize (IH y Hs' y (or_introl eq_refl)). lia.
    + specialize (IH y Hs' r Hr). lia.
Qed.

Lemma last_map {A B : Type} (f : A -> B) (xs : list A) (d : A) :
  List.last (List.map f xs) (f d) = f (List.last xs d).
Proof.
  induction xs as [|x xs IH]; [reflexivity|].
  destruct xs as [|y xs]; [reflexivity|]. exact IH.
Qed.

Lemma aggregate_In (w : Z) (rows : list Common.row) (x : Common.candle) :
  In x (Common.aggregate w rows)
  <-> Common.cmap_get (fold_left (Common.add_row w) rows []) (Common.t x) = Some x.
Proof.
  unfold Common.aggregate. rewrite sort_by_In.
  pose proof (fold_add_row_ok w rows [] (conj (List.NoDup_nil _) (List.Forall_nil _)))
    as [Hnd Ht].
  split.
  - intros Hin. apply List.in_map_iff in Hin. destruct Hin as [[k y] [E Hin]].
    simpl in E. subst y. rewrite List.Forall_forall in Ht.
    pose proof (Ht _ Hin) as Hk. simpl in Hk. rewrite Hk.
    apply In_cmap_get; assumption.
  - intros Hget. apply cmap_get_In in Hget.
    apply List.in_map_iff. exists (Common.t x, x). split; [reflexivity | exact Hget].
Qed.

(** The candle of the bucket starting at [b], when the bucket has the
    ticks [first :: rest] in processing order. *)
Lemma bucket_candle (w b : Z) (rows : list Common.row)
    (first : Common.row) (rest : list Common.row) :
  0 < w -> rows_in w b rows = first :: rest ->
  Common.cmap_get (fold_left (Common.add_row w) rows []) (Some b)
  = Some (fold_left (fun a u => Common.touch u a) (List.map Common.r_value rest)
            (init_candle (Some b) (Common.r_value first))).
Proof.
  intros Hw Hb. rewrite get_fold_add_row, bucket_filter, Hb by lia.
  simpl Common.cmap_get. apply fold_feed.
Qed.

(** C2. With a positive bucket width and finite ticks processed in
    ascending timestamp order, every non-empty bucket has exactly one
    candle; its open is the value of the first tick of the bucket, which
    is an earliest one, its close the value of the last, which is a
    latest one, its high the maximum and its low the minimum of the
    values of the bucket; and every candle emitted is the candle of a
    non-empty bucket.  The three ticks (0, 100), (30000, 110) and
    (59999, 90) with width 60000 and a range covering them give the single
    candle open 100, high 110, low 90, close 90, from [getCandles] of
    part_002 and from the route of part_000 alike. *)
Theorem candles_are_ohlc :
  (forall (w : Z) (rows : list Common.row) (b : Z)
          (first : Common.row) (rest : list Common.row),
      0 < w -> ascending rows -> Forall finite_row rows ->
      rows_in w b rows = first :: rest ->
      exists x,
        In x (Common.aggregate w rows)
        /\ (forall y, In y (Common.aggregate w rows) -> Common.t y = Some b -> y = x)
        /\ Common.t x = Some b
        /\ Common.o x = Common.r_value first
        /\ Common.c x = Common.r_value (List.last rest first)
        /\ is_max (Common.h x) (List.map Common.r_value (first :: rest))
        /\ is_min (Common.l x) (List.map Common.r_value (first :: rest))
        /\ (forall r, In r (first :: rest) ->
              Common.r_ts first <= Common.r_ts r <= Common.r_ts (List.last rest first)))
  /\ (forall (w : Z) (rows : list Common.row) (y : Common.candle),
        0 < w -> In y (Common.aggregate w rows) ->
        exists b, Common.t y = Some b /\ rows_in w b rows <> [])
  /\ P2.getCandles three_ticks 60000 "X" (Some "1m") (Some "7d")
     = [ {| Common.t := Some 0; Common.o := Fin 100; Common.h := Fin 110;
            Common.l := Fin 90; Common.c := Fin 90 |} ]
  /\ body (P0.api_candles three_ticks 60000
             {| q_symbol := Some "x"; q_interval := Some "1m"; q_range := Some "24h" |})
     = [ {| Common.t := Some 0; Common.o := Fin 100; Common.h := Fin 110;
            Common.l := Fin 90; Common.c := Fin 90 |} ].
Proof.
  split; [|split; [|split; reflexivity]].
  - intros w rows b first rest Hw Hasc Hfin Hb.
    pose proof (bucket_candle w b rows first rest Hw Hb) as Hget.
    set (x := fold_left (fun a u => Common.touch u a) (List.map Common.r_value rest)
                (init_candle (Some b) (Common.r_value first))) in *.
    destruct (fold_touch (List.map Common.r_value rest)
                (init_candle (Some b) (Common.r_value first)))
      as [Ht [Ho [Hc [Hh Hl]]]].
    fold x in Ht, Ho, Hc, Hh, Hl. simpl in Ht, Ho, Hc, Hh, Hl.
    assert (Forall finite_row (first :: rest)) as Hfb.
    { rewrite <- Hb. unfold rows_in. apply List.Forall_forall. intros r Hr.
      apply filter_In in Hr. rewrite List.Forall_forall in Hfin. apply Hfin, Hr. }
    inversion Hfb as [|? ? Hf1 Hfr]; subst.
    assert (Forall (fun v => isFinite v = true) (List.map Common.r_value rest)) as Hfv.
    { apply List.Forall_forall. intros v Hv. apply List.in_map_iff in Hv.
      destruct Hv as [r [<- Hr]]. rewrite List.Forall_forall in Hfr. apply Hfr, Hr. }
    exists x. split; [|split; [|split; [|split; [|split; [|split; [|split]]]]]].
    + apply aggregate_In. rewrite Ht. exact Hget.
    + intros y Hy Hty. apply aggregate_In in Hy. rewrite Hty in Hy. congruence.
    + exact Ht.
    + exact Ho.
    + rewrite Hc. apply last_map.
    + rewrite Hh. apply fold_max_is_max; assumption.
    + rewrite Hl. apply fold_min_is_min; assumption.
    + apply strong_bounds. rewrite <- Hb. apply strong_filter, ascending_strong, Hasc.
  - intros w rows y Hw Hy. apply aggregate_In in Hy.
    rewrite get_fold_add_row in Hy. simpl Common.cmap_get in Hy.
    destruct (List.filter
                (fun r => Common.key_eqb (Common.bucketStart (Common.r_ts r) w)
                            (Common.t y)) rows) as [|r rs] eqn:E;
      [discriminate Hy|].
    assert (In r (r :: rs)) as Hr by (left; reflexivity).
    rewrite <- E in Hr. apply filter_In in Hr. destruct Hr as [_ Hk].
    apply key_eqb_eq in Hk. unfold Common.bucketStart in Hk.
    destruct (w =? 0) eqn:Ew; [apply Z.eqb_eq in Ew; lia|].
    exists (Common.r_ts r / w * w). split; [symmetry; exact Hk|].
    rewrite <- bucket_filter by lia. rewrite Hk, E. discriminate.
Qed.

Lemma candles_are_ohlc_witness :
  exists x,
    In x (Common.aggregate 60000 (List.map Common.row_of three_ticks))
    /\ Common.t x = Some 0
    /\ Common.o x = Fin 100 /\ Common.c x = Fin 90
    /\ is_max (Common.h x) [Fin 100; Fin 110; Fin 90]
    /\ is_min (Common.l x) [Fin 100; Fin 110; Fin 90].
Proof.
  destruct (proj1 candles_are_ohlc 60000 (List.map Common.row_of three_ticks) 0
              {| Common.r_ts := 0; Common.r_value := Fin 100 |}
              [ {| Common.r_ts := 30000; Common.r_value := Fin 110 |};
                {| Common.r_ts := 59999; Common.r_value := Fin 90 |} ])
    as [x [Hin [_ [Ht [Ho [Hc [Hh [Hl _]]]]]]]].
  - lia.
  - repeat constructor; simpl; lia.
  - repeat constructor.
  - reflexivity.
  - exists x. repeat split; assumption || apply Hh || apply Hl.
Defined.

(** ** Widths and ranges that do not parse *)

Lemma scan_count_sound (units : list ascii) (s : string) (seen : bool) (acc n : Z)
    (u : ascii) :
  scan_count units seen acc s = Some (n, u) ->
  exists ds, s = String.append ds (String u EmptyString)
             /\ all_digits ds = true /\ In u units
             /\ (seen = false -> ds <> EmptyString).
Proof.
  revert seen acc. induction s as [|ch rest IH]; intros seen acc; simpl.
  - discriminate.
  - destruct (is_digit ch) eqn:Ed.
    + intros H. destruct (IH _ _ H) as [ds [-> [Hd [Hu _]]]].
      exists (String ch ds). simpl. rewrite Ed, Hd.
      repeat split; [exact Hu | discriminate].
    + destruct seen; simpl; [|discriminate].
      destruct (ascii_mem ch units) eqn:Em; [|discriminate].
      destruct rest; [|discriminate]. intros [= <- <-].
      exists EmptyString. repeat split; [|discriminate].
      unfold ascii_mem in Em. apply existsb_exists in Em.
      destruct Em as [u' [Hin Heq]]. apply Ascii.eqb_eq in Heq. subst u'. exact Hin.
Qed.


Lemma scan_count_complete (units : list ascii) (ds : string) (u : ascii)
    (seen : bool) (acc : Z) :
  all_digits ds = true -> (ds <> EmptyString \/ seen = true) ->
  is_digit u = false -> In u units ->
  exists n, scan_count units seen acc (String.append ds (String u EmptyString))
            = Some (n, u).
Proof.
  revert seen acc. induction ds as [|ch ds IH]; intros seen acc Hd Hne Hu Hin; simpl.
  - destruct Hne as [Hne | ->]; [contradiction Hne; reflexivity|].
    rewrite Hu. simpl.
    assert (ascii_mem u units = true) as ->.
    { unfold ascii_mem. apply existsb_exists. exists u.
      split; [exact Hin | apply Ascii.eqb_refl]. }
    exists acc. reflexivity.
  - simpl in Hd. apply andb_true_iff in Hd. destruct Hd as [Hc Hd].
    rewrite Hc. apply IH; auto.
Qed.

(** The parser accepts exactly the unit grammar. *)
Lemma match_count_well_formed (units : list ascii) (s : string) :
  Forall (fun u => is_digit u = false) units ->
  well_formed units s -> exists n u, match_count units s = Some (n, u).
Proof.
  intros Hunits [ds [u [-> [Hne [Hd Hin]]]]].
  rewrite List.Forall_forall in Hunits.
  destruct (scan_count_complete units ds u false 0 Hd (or_introl Hne)
              (Hunits u Hin) Hin) as [n Hn].
  exists n, u. exact Hn.
Qed.




(** ** The analysis route of part_002: first segment *)

Lemma P2_start_fresh (cache : gmap string P2.entry) (st : Common.state)
    (d : Common.db) (has_key : bool) (q : option string) (now : Z) (kst : string)
    (e : P2.entry) :
  fresh2 cache (key2 q) now = Some e ->
  P2.analysis_start cache st d has_key q now kst
  = inl {| code := 200;
           body := {| P2.b_payload := P2.e_payload e; P2.b_cached := Some true;
                      P2.b_cacheAgeSec := Some ((now - P2.e_ts e) / 1000);
                      P2.b_degraded := false;
                      P2.b_warning := None; P2.b_error := None |} |}.
Proof.
  unfold fresh2, key2, P2.analysis_start. intros H. cbv zeta. rewrite H. reflexivity.
Qed.

Lemma P2_start_stale (cache : gmap string P2.entry) (st : Common.state)
    (d : Common.db) (has_key : bool) (q : option string) (now : Z) (kst : string) :
  fresh2 cache (key2 q) now = None ->
  (has_key = false ->
   exists r, P2.analysis_start cache st d has_key q now kst = inl r)
  /\ (has_key = true ->
      exists p, P2.analysis_start cache st d has_key q now kst = inr p).
Proof.
  unfold fresh2, key2, P2.analysis_start. intros H. cbv zeta. rewrite H.
  split; intros ->; simpl; eexists; reflexivity.
Qed.

(** Without a fresh entry, part_002 starts a completion call whenever the
    key is set and the headline fetch returns: no interval is kept
    between two calls. *)
Lemma P2_miss_calls (cache : gmap string P2.entry) (st : Common.state)
    (d : Common.db) (q : option string) (w : P2.world) :
  fresh2 cache (key2 q) (P2.w_now w) = None ->
  snd (P2.api_analysis cache st d q w)
  = if P2.w_has_key w
    then match P2.w_market w with
         | Common.Got _ => 1%nat
         | Common.Threw _ => 0%nat
         end
    else 0%nat.
Proof.
  intros H. unfold P2.api_analysis.
  destruct (P2_start_stale cache st d (P2.w_has_key w) q (P2.w_now w) (P2.w_kst w) H)
    as [Hno Hyes].
  destruct (P2.w_has_key w).
  - destruct (Hyes eq_refl) as [p ->]. unfold P2.analysis_news.
    destruct (P2.w_market w) as [hs|m]; [|reflexivity].
    destruct (P2.analysis_gen _ _ _ _). reflexivity.
  - destruct (Hno eq_refl) as [r ->]. reflexivity.
Qed.

(** ** The analysis route of part_001: cache, cooldown, reservation *)

Lemma analysis_start_fresh (g : P1.guard) (st : P1.state) (d : Common.db)
    (has_client : bool) (q : option string) (now : Z) (e : P1.entry) :
  fresh1 g (key1 q) now = Some e ->
  P1.analysis_start g st d has_client q now
  = (g, inl {| code := 200; body := P1.Analysis (P1.e_data e) |}).
Proof.
  unfold fresh1, key1, P1.analysis_start. intros H.
  cbv zeta. rewrite H. reflexivity.
Qed.

Lemma analysis_start_cooldown (g : P1.guard) (st : P1.state) (d : Common.db)
    (has_client : bool) (q : option string) (now : Z) :
  fresh1 g (key1 q) now = None ->
  now - P1.lastAnalysisTime g < P1.ANALYSIS_COOLDOWN_MS ->
  P1.analysis_start g st d has_client q now
  = (g, inl {| code := 429;
               body := P1.RetryLater
                         (P1.ceil_sec (P1.ANALYSIS_COOLDOWN_MS
                                       - (now - P1.lastAnalysisTime g))) |}).
Proof.
  unfold fresh1, key1, P1.analysis_start. intros H Hc.
  cbv zeta. rewrite H. apply Z.ltb_lt in Hc. rewrite Hc. reflexivity.
Qed.

(** Whatever the request, the first segment either answers and leaves
    the variables alone, or reserves the slot: it sets [lastAnalysisTime]
    to [now], which is at least one cooldown later than the old value. *)
Lemma analysis_start_cases (g : P1.guard) (st : P1.state) (d : Common.db)
    (has_client : bool) (q : option string) (now : Z) :
  (exists resp, P1.analysis_start g st d has_client q now = (g, inl resp))
  \/ (exists p,
        P1.analysis_start g st d has_client q now
        = ({| P1.analysisCache := P1.analysisCache g; P1.lastAnalysisTime := now |},
           inr p)
        /\ fresh1 g (key1 q) now = None
        /\ P1.ANALYSIS_COOLDOWN_MS <= now - P1.lastAnalysisTime g
        /\ has_client = true).
Proof.
  unfold fresh1, key1, P1.analysis_start. cbv zeta.
  destruct (match P1.analysisCache g !! String.append "analysis_" (or_default q "USDKRW") with
            | Some cached =>
                if now - P1.e_timestamp cached <? P1.ANALYSIS_TTL_MS
                then Some cached else None
            | None => None
            end) as [e|]; [left; eexists; reflexivity|].
  destruct (now - P1.lastAnalysisTime g <? P1.ANALYSIS_COOLDOWN_MS) eqn:Ec;
    [left; eexists; reflexivity|].
  destruct has_client; simpl; [|left; eexists; reflexivity].
  right. eexists. split; [reflexivity|]. apply Z.ltb_ge in Ec. auto.
Qed.

Lemma analysis_finish_last (g : P1.guard) (p : P1.pending) (r : P1.completion)
    (kst : string) :
  P1.lastAnalysisTime (fst (P1.analysis_finish g p r kst)) = P1.lastAnalysisTime g.
Proof.
  unfold P1.analysis_finish. destruct r as [a|e]; [reflexivity|].
  case_matches; reflexivity.
Qed.

Lemma ceil_sec_bounds (x : Z) :
  1000 * (P1.ceil_sec x - 1) < x <= 1000 * P1.ceil_sec x.
Proof.
  unfold P1.ceil_sec.
  pose proof (Z.div_mod (- x) 1000 ltac:(lia)) as Hd.
  pose proof (Z.mod_pos_bound (- x) 1000 ltac:(lia)) as Hm. lia.
Qed.

Lemma sys_step_inv (s : sys) (e : event) : sys_inv s -> sys_inv (sys_step s e).
Proof.
  intros [Hsp Hhd]. destruct e as [st d hc q now | i r kst]; simpl.
  - destruct (analysis_start_cases (s_guard s) st d hc q now)
      as [[resp ->] | [p [-> [_ [Hc _]]]]].
    + split; assumption.
    + split; [|reflexivity]. simpl. unfold spaced in *.
      constructor; [exact Hsp|].
      destruct (s_calls s) as [|t calls]; [constructor|].
      rewrite Hhd in Hc. inversion Hsp as [|? ? _ Hall]; subst.
      constructor; [exact Hc|].
      rewrite List.Forall_forall in *. intros x Hx. specialize (Hall x Hx).
      unfold P1.ANALYSIS_COOLDOWN_MS in *. lia.
  - destruct (nth_error (s_inflight s) i) as [p|]; [|split; assumption].
    split; [exact Hsp|]. simpl.
    destruct (s_calls s); [exact I|]. rewrite analysis_finish_last. exact Hhd.
Qed.

Lemma sys_run_inv (es : list event) (s : sys) :
  sys_inv s -> sys_inv (fold_left sys_step es s).
Proof.
  revert s. induction es as [|e es IH]; intros s Hs; simpl.
  - exact Hs.
  - apply IH, sys_step_inv, Hs.
Qed.

(** C6 (as the specification has it) fails: the second of two requests
    for one subject, arriving one second after the first was generated
    and so within the cooldown, is answered from the cache with code 200
    and not with a wait. *)
Lemma second_request_served_from_cache :
  let t1 := 1700000000000 in
  let first := P1.api_analysis P1.guard0 p1_boot [] true (Some "USDKRW") t1
                 (P1.Completed "steady") "2023-11-14 22:13:20" in
  let g1 := fst (fst first) in
  let second := P1.api_analysis g1 p1_boot [] true (Some "USDKRW") (t1 + 1000)
                  (P1.Completed "other") "2023-11-14 22:13:21" in
  snd first = 1%nat
  /\ (t1 + 1000) - P1.lastAnalysisTime g1 < P1.ANALYSIS_COOLDOWN_MS
  /\ code (snd (fst second)) = 200
  /\ (forall w, body (snd (fst second)) <> P1.RetryLater w)
  /\ snd second = 0%nat.
Proof.
  vm_compute. repeat split; try reflexivity; try discriminate.
Qed.

(** C6 (as the code has it, in part_001).  A request that arrives while
    [now - lastAnalysisTime] is below the cooldown starts no completion
    call and leaves the cache and [lastAnalysisTime] as they are; when
    its subject has no cache entry younger than the TTL the answer is
    429 with the remaining wait in seconds, rounded up; when it has one,
    the answer is the cached result.  So the second of two requests,
    arriving within one cooldown of the call started by the first and
    for a subject without a fresh entry, is told to wait.  And in every
    interleaving of arrivals and settled calls, any two completion calls
    issued are at least one cooldown apart.  The route of part_002 keeps
    no such interval: there every request without a fresh entry starts a
    call when the key is set and the headline fetch returns. *)
Theorem cooldown_is_global :
  (forall g st d has_client q now,
      now - P1.lastAnalysisTime g < P1.ANALYSIS_COOLDOWN_MS ->
      exists resp,
        P1.analysis_start g st d has_client q now = (g, inl resp)
        /\ (fresh1 g (key1 q) now = None ->
            exists w, resp = {| code := 429; body := P1.RetryLater w |}
                      /\ 1000 * (w - 1)
                         < P1.ANALYSIS_COOLDOWN_MS - (now - P1.lastAnalysisTime g)
                         <= 1000 * w)
        /\ (forall e, fresh1 g (key1 q) now = Some e ->
                      resp = {| code := 200; body := P1.Analysis (P1.e_data e) |}))
  /\ (forall g st d q1 t1 g1 p r kst st2 d2 has_client2 q2 t2,
        P1.analysis_start g st d true q1 t1 = (g1, inr p) ->
        let g2 := fst (P1.analysis_finish g1 p r kst) in
        t2 - t1 < P1.ANALYSIS_COOLDOWN_MS ->
        fresh1 g2 (key1 q2) t2 = None ->
        exists w,
          P1.analysis_start g2 st2 d2 has_client2 q2 t2
          = (g2, inl {| code := 429; body := P1.RetryLater w |})
          /\ 1000 * (w - 1) < P1.ANALYSIS_COOLDOWN_MS - (t2 - t1) <= 1000 * w)
  /\ (forall es, spaced (s_calls (sys_run es)))
  /\ (forall cache st d q w hs,
        fresh2 cache (key2 q) (P2.w_now w) = None ->
        P2.w_has_key w = true -> P2.w_market w = Common.Got hs ->
        snd (P2.api_analysis cache st d q w) = 1%nat).
Proof.
  split; [|split; [|split]].
  - intros g st d hc q now Hc.
    destruct (fresh1 g (key1 q) now) as [e|] eqn:Ef.
    + eexists. split; [apply analysis_start_fresh; exact Ef|].
      split; [discriminate | intros e' [= <-]; reflexivity].
    + eexists. split; [apply analysis_start_cooldown; assumption|].
      split; [|discriminate]. intros _. eexists. split; [reflexivity|].
      apply ceil_sec_bounds.
  - intros g st d q1 t1 g1 p r kst st2 d2 hc2 q2 t2 Hstart g2 Hc Hf.
    assert (P1.lastAnalysisTime g2 = t1) as Hl.
    { unfold g2. rewrite analysis_finish_last.
      destruct (analysis_start_cases g st d true q1 t1) as [[resp E] | [p' [E _]]];
        rewrite E in Hstart; [discriminate|].
      injection Hstart as <- _. reflexivity. }
    eexists. split.
    + apply analysis_start_cooldown; [exact Hf | rewrite Hl; exact Hc].
    + rewrite Hl. apply ceil_sec_bounds.
  - intros es. apply (sys_run_inv es sys0). split; [constructor | exact I].
  - intros cache st d q w hs Hf Hk Hm. rewrite (P2_miss_calls _ _ _ _ _ Hf), Hk, Hm.
    reflexivity.
Qed.

Lemma cooldown_is_global_witness :
  exists resp,
    P1.analysis_start
      {| P1.analysisCache := ∅; P1.lastAnalysisTime := 1700000000000 |}
      p1_boot [] true (Some "EURKRW") 1700000001000
    = ({| P1.analysisCache := ∅; P1.lastAnalysisTime := 1700000000000 |}, inl resp)
    /\ (fresh1 {| P1.analysisCache := ∅; P1.lastAnalysisTime := 1700000000000 |}
          (key1 (Some "EURKRW")) 1700000001000 = None ->
        exists w, resp = {| code := 429; body := P1.RetryLater w |}
                  /\ 1000 * (w - 1)
                     < P1.ANALYSIS_COOLDOWN_MS - (1700000001000 - 1700000000000)
                     <= 1000 * w).
Proof.
  destruct (proj1 cooldown_is_global
              {| P1.analysisCache := ∅; P1.lastAnalysisTime := 1700000000000 |}
              p1_boot [] true (Some "EURKRW") 1700000001000)
    as [resp [H1 [H2 _]]].
  - vm_compute. reflexivity.
  - exists resp. split; [exact H1 | exact H2].
Defined.

(** ** Failures of the completion call *)

Lemma on_error_shape (cache : gmap string P2.entry) (symbol kst msg : string) :
  let r := P2.on_error cache symbol kst msg in
  code r = 200 /\ P2.b_degraded (body r) = true
  /\ (P2.isRateLimit msg = true ->
      (forall e, cache !! symbol = Some e ->
                 P2.b_payload (body r) = P2.e_payload e
                 /\ P2.b_cached (body r) = Some true)
      /\ (cache !! symbol = None ->
          P2.b_payload (body r) = P2.placeholder kst symbol P2.msg_rate_limited))
  /\ (P2.isRateLimit msg = false ->
      P2.b_payload (body r) = P2.placeholder kst symbol P2.msg_failed
      /\ P2.b_error (body r) = Some msg).
Proof.
  unfold P2.on_error. destruct (P2.isRateLimit msg).
  - destruct (cache !! symbol) as [e|]; simpl;
      (split; [reflexivity|]); (split; [reflexivity|]);
      (split; [intros _ | discriminate]).
    + split; [intros e' [= <-]; split; reflexivity | discriminate].
    + split; [discriminate | reflexivity].
  - simpl. split; [reflexivity|]. split; [reflexivity|].
    split; [discriminate | intros _; split; reflexivity].
Qed.

(** C7 (as the specification has it) fails in part_001: a rate-limit
    error of the completion call is passed on to the caller as an answer
    with code 429, and any other failure as an answer with code 500. *)
Lemma part_001_propagates_failures :
  let t1 := 1700000000000 in
  let limited := P1.Failed {| P1.err_status := Some 429;
                              P1.err_message := "429 Too Many Requests" |} in
  let broken := P1.Failed {| P1.err_status := None;
                             P1.err_message := "socket hang up" |} in
  let r1 := snd (fst (P1.api_analysis P1.guard0 p1_boot [] true (Some "USDKRW") t1
                        limited "2023-11-14 22:13:20")) in
  let r2 := snd (fst (P1.api_analysis P1.guard0 p1_boot [] true (Some "USDKRW") t1
                        broken "2023-11-14 22:13:20")) in
  code r1 = 429 /\ is_error r1 /\ code r2 = 500 /\ is_error r2.
Proof.
  vm_compute. repeat split; congruence.
Qed.

(** C7 (as the code has it).  In part_002 a failure of the completion
    call never reaches the caller as an error: the answer has code 200
    and is marked degraded, and the cache is left as it is.  When the
    message of the failure marks a rate limit (it contains "429" or, in
    any case of letters, "rate limit") and the cache has an entry for
    the subject, of whatever age, the answer carries the payload of that
    entry, marked as cached; when the cache has none the answer is a
    placeholder; for any other failure the answer is a placeholder that
    carries the message.  In part_001 the failure is answered with code
    429 and a wait of 300 seconds when its status is 429, and with code
    500 otherwise. *)
Theorem generation_failure_outcomes :
  (forall (cache : gmap string P2.entry) (p : P2.pending_gen) (msg kst : string),
      let out := P2.analysis_gen cache p (Common.Threw msg) kst in
      let r := snd out in
      fst out = cache
      /\ code r = 200 /\ ~ is_error r /\ P2.b_degraded (body r) = true
      /\ (P2.isRateLimit msg = true ->
          (forall e, cache !! P2.pg_symbol p = Some e ->
                     P2.b_payload (body r) = P2.e_payload e
                     /\ P2.b_cached (body r) = Some true)
          /\ (cache !! P2.pg_symbol p = None ->
              P2.b_payload (body r)
              = P2.placeholder kst (P2.pg_symbol p) P2.msg_rate_limited))
      /\ (P2.isRateLimit msg = false ->
          P2.b_payload (body r) = P2.placeholder kst (P2.pg_symbol p) P2.msg_failed
          /\ P2.b_error (body r) = Some msg))
  /\ (forall (g : P1.guard) (p : P1.pending) (e : P1.gen_error) (kst : string),
        let out := P1.analysis_finish g p (P1.Failed e) kst in
        fst out = g
        /\ (P1.err_status e = Some 429 ->
            snd out = {| code := 429; body := P1.RetryLater 300 |})
        /\ (P1.err_status e <> Some 429 -> code (snd out) = 500)
        /\ is_error (snd out)).
Proof.
  split.
  - intros cache p msg kst out r. subst r out. unfold P2.analysis_gen.
    cbv beta iota zeta delta [fst snd].
    pose proof (on_error_shape cache (P2.pg_symbol p) kst msg) as H.
    cbv zeta in H. destruct H as [Hc [Hd [Hr Ho]]].
    split; [reflexivity|]. split; [exact Hc|].
    split; [intros Herr; unfold is_error in Herr; rewrite Hc in Herr; lia|].
    split; [exact Hd|]. split; assumption.
  - intros g p e kst out. unfold out, P1.analysis_finish.
    destruct (P1.err_status e) as [z|] eqn:E.
    + destruct (Z.eq_dec z 429) as [-> | Hne].
      * simpl. repeat split; try reflexivity; try congruence.
        unfold is_error. simpl. lia.
      * assert (forall (A : Type) (a b : A),
                   match z with 429 => a | _ => b end = b) as Hz.
        { intros A a b.
          case_matches; try reflexivity. contradiction Hne. reflexivity. }
        rewrite Hz. simpl. repeat split; try reflexivity; try congruence.
        unfold is_error. simpl. lia.
    + simpl. repeat split; try reflexivity; try congruence.
      unfold is_error. simpl. lia.
Qed.

Lemma generation_failure_outcomes_witness :
  P2.b_payload
    (body (snd (P2.analysis_gen
                  (<[ "USDKRW" := {| P2.e_ts := 0;
                                     P2.e_payload := P2.placeholder "then" "USDKRW" "old" |} ]> ∅)
                  {| P2.pg_symbol := "USDKRW"; P2.pg_now := 1700000000000;
                     P2.pg_prompt :=
                       {| P2.pr_symbol := "USDKRW"; P2.pr_latest := Common.TheState;
                          P2.pr_s1 := P2.summarizeCandles [];
                          P2.pr_s7 := P2.summarizeCandles [];
                          P2.pr_headlines := [] |} |}
                  (Common.Threw "429 You exceeded your current quota") "now")))
  = P2.placeholder "then" "USDKRW" "old".
Proof.
  destruct (proj1 generation_failure_outcomes
              (<[ "USDKRW" := {| P2.e_ts := 0;
                                 P2.e_payload := P2.placeholder "then" "USDKRW" "old" |} ]> ∅)
              {| P2.pg_symbol := "USDKRW"; P2.pg_now := 1700000000000;
                 P2.pg_prompt :=
                   {| P2.pr_symbol := "USDKRW"; P2.pr_latest := Common.TheState;
                      P2.pr_s1 := P2.summarizeCandles [];
                      P2.pr_s7 := P2.summarizeCandles [];
                      P2.pr_headlines := [] |} |}
              "429 You exceeded your current quota" "now")
    as [_ [_ [_ [_ [Hr _]]]]].
  destruct (Hr eq_refl) as [Hhit _].
  exact (proj1 (Hhit _ eq_refl)).
Defined.

(** ** Cache hits and misses *)

(** C8 (as the specification has it) fails: the cache entry of USDKRW is
    made at [t0]; one second before it expires an analysis of EURKRW is
    generated; the request for USDKRW that arrives when the entry has
    expired falls into the cooldown of that call and starts no
    completion call at all. *)
Lemma expired_entry_may_trigger_no_call :
  let t0 := 1700000000000 in
  let g1 := fst (fst (P1.api_analysis P1.guard0 p1_boot [] true (Some "USDKRW") t0
                        (P1.Completed "steady") "k0")) in
  let t1 := t0 + P1.ANALYSIS_TTL_MS - 1000 in
  let g2 := fst (fst (P1.api_analysis g1 p1_boot [] true (Some "EURKRW") t1
                        (P1.Completed "firm") "k1")) in
  let t2 := t0 + P1.ANALYSIS_TTL_MS in
  let third := P1.api_analysis g2 p1_boot [] true (Some "USDKRW") t2
                 (P1.Completed "again") "k2" in
  option_map P1.e_timestamp (P1.analysisCache g2 !! key1 (Some "USDKRW")) = Some t0
  /\ P1.ANALYSIS_TTL_MS <= t2 - t0
  /\ snd third = 0%nat
  /\ code (snd (fst third)) = 429.
Proof.
  intros t0 g1 t1 g2 t2 third.
  split; [vm_compute; reflexivity|].
  split; [vm_compute; discriminate|].
  split; vm_compute; reflexivity.
Qed.

(** C8 (as the code has it).  A request whose subject has a cache entry
    younger than the TTL is answered with that entry, starts no
    completion call and changes nothing.  A request whose subject has no
    such entry starts at most one completion call: in part_002 exactly
    one when the API key is set and the headline fetch returns, none
    otherwise; in part_001 exactly one when the cooldown has passed and
    the client is configured, none otherwise. *)
Theorem cache_hit_or_at_most_one_call :
  (forall cache st d q w e,
      fresh2 cache (key2 q) (P2.w_now w) = Some e ->
      P2.api_analysis cache st d q w
      = (cache,
         {| code := 200;
            body := {| P2.b_payload := P2.e_payload e; P2.b_cached := Some true;
                       P2.b_cacheAgeSec := Some ((P2.w_now w - P2.e_ts e) / 1000);
                       P2.b_degraded := false;
                       P2.b_warning := None; P2.b_error := None |} |},
         0%nat))
  /\ (forall cache st d q w,
        fresh2 cache (key2 q) (P2.w_now w) = None ->
        snd (P2.api_analysis cache st d q w)
        = if P2.w_has_key w
          then match P2.w_market w with
               | Common.Got _ => 1%nat
               | Common.Threw _ => 0%nat
               end
          else 0%nat)
  /\ (forall g st d has_client q now r kst e,
        fresh1 g (key1 q) now = Some e ->
        P1.api_analysis g st d has_client q now r kst
        = (g, {| code := 200; body := P1.Analysis (P1.e_data e) |}, 0%nat))
  /\ (forall g st d has_client q now r kst,
        fresh1 g (key1 q) now = None ->
        snd (P1.api_analysis g st d has_client q now r kst)
        = if now - P1.lastAnalysisTime g <? P1.ANALYSIS_COOLDOWN_MS then 0%nat
          else if has_client then 1%nat else 0%nat).
Proof.
  split; [|split; [|split]].
  - intros cache st d q w e H. unfold P2.api_analysis.
    rewrite (P2_start_fresh _ _ _ _ _ _ _ _ H). reflexivity.
  - intros cache st d q w H. apply P2_miss_calls, H.
  - intros g st d hc q now r kst e H. unfold P1.api_analysis.
    rewrite (analysis_start_fresh _ _ _ _ _ _ _ H). reflexivity.
  - intros g st d hc q now r kst H. unfold P1.api_analysis.
    destruct (now - P1.lastAnalysisTime g <? P1.ANALYSIS_COOLDOWN_MS) eqn:Ec.
    + apply Z.ltb_lt in Ec. rewrite (analysis_start_cooldown _ _ _ _ _ _ H Ec).
      reflexivity.
    + destruct (analysis_start_cases g st d hc q now) as [[resp E] | [p [E [_ [_ ->]]]]].
      * rewrite E. simpl.
        revert E. unfold P1.analysis_start. cbv zeta.
        unfold fresh1, key1 in H. rewrite H, Ec.
        destruct hc; simpl; [discriminate | reflexivity].
      * rewrite E. destruct (P1.analysis_finish _ p r kst). reflexivity.
Qed.

Lemma cache_hit_or_at_most_one_call_witness :
  let g := {| P1.analysisCache :=
                <[ "analysis_USDKRW" :=
                     {| P1.e_data := {| P1.r_symbol := "USDKRW"; P1.r_analysis := "steady";
                                        P1.r_asofKST := "k0";
                                        P1.r_cachedUntil := 1700043200000 |};
                        P1.e_timestamp := 1700000000000 |} ]> ∅;
              P1.lastAnalysisTime := 1700000000000 |} in
  snd (P1.api_analysis g p1_boot [] true (Some "USDKRW") 1700000060000
         (P1.Completed "unused") "k1") = 0%nat.
Proof.
  intros g.
  pose proof (proj1 (proj2 (proj2 cache_hit_or_at_most_one_call))
                g p1_boot [] true (Some "USDKRW") 1700000060000
                (P1.Completed "unused") "k1" _ eq_refl) as H.
  rewrite H. reflexivity.
Defined.

(** ** Further properties of the tick table and of the cycle *)

(** X1. With a positive width, [bucketStart] gives the start of the
    half-open bucket that holds the timestamp: the start is a multiple
    of the width, the timestamp lies from the start up to, but not at,
    the start plus the width, and exactly the timestamps of that stretch
    share the bucket. *)
Theorem bucketStart_half_open (ts w : Z) :
  0 < w ->
  exists b, Common.bucketStart ts w = Some b
            /\ b <= ts < b + w
            /\ b mod w = 0
            /\ forall ts', Common.bucketStart ts' w = Some b <-> b <= ts' < b + w.
Proof.
  intros Hw. exists (ts / w * w). unfold Common.bucketStart.
  assert ((w =? 0) = false) as -> by (apply Z.eqb_neq; lia).
  pose proof (Z.div_mod ts w ltac:(lia)) as Hd.
  pose proof (Z.mod_pos_bound ts w Hw) as Hm.
  split; [reflexivity|]. split; [lia|]. split; [apply Z.mod_mul; lia|].
  intros ts'. split.
  - intros [= E].
    pose proof (Z.div_mod ts' w ltac:(lia)) as Hd'.
    pose proof (Z.mod_pos_bound ts' w Hw) as Hm'. lia.
  - intros Hin. f_equal. f_equal. symmetry.
    apply (Z.div_unique ts' w (ts / w) (ts' - ts / w * w)); lia.
Qed.

Lemma bucketStart_half_open_witness :
  exists b, Common.bucketStart 59999 60000 = Some b /\ b <= 59999 < b + 60000.
Proof.
  destruct (bucketStart_half_open 59999 60000) as [b [Hb [Hin _]]]; [lia|].
  exists b. split; assumption.
Defined.

Lemma finite_ticks_out_of_range (t : Z) (m : list (string * jsval))
    (s : string) (lo hi : Z) :
  (forall e, In e m -> fst e <> s) \/ t < lo \/ hi < t ->
  List.filter (Common.in_range s lo hi) (finite_ticks (t, m)) = [].
Proof.
  intros H.
  destruct (List.filter (Common.in_range s lo hi) (finite_ticks (t, m)))
    as [|x xs] eqn:E; [reflexivity|].
  assert (In x (x :: xs)) as Hx by (left; reflexivity).
  rewrite <- E in Hx. apply filter_In in Hx. destruct Hx as [Hin Hr].
  apply finite_ticks_In in Hin. destruct Hin as [s' [q [Hm ->]]].
  apply in_range_within in Hr. destruct Hr as [Hs Ht]. simpl in Hs, Ht.
  destruct H as [H|H]; [|lia]. exfalso. apply (H _ Hm). exact Hs.
Qed.

(** X2. A batch that has no entry for a symbol, or whose timestamp lies
    outside the interval asked for, leaves the answer of [selectTicks]
    for that symbol and interval as it was. *)
Theorem saveTicks_frame (d : Common.db) (t : Z) (m : list (string * jsval))
    (s : string) (lo hi : Z) :
  (forall e, In e m -> fst e <> s) \/ t < lo \/ hi < t ->
  Common.selectTicks (Common.saveTicks d t m) s lo hi = Common.selectTicks d s lo hi.
Proof.
  intros H. unfold Common.selectTicks.
  rewrite saveTicks_app, List.filter_app, (finite_ticks_out_of_range _ _ _ _ _ H).
  rewrite app_nil_r. reflexivity.
Qed.

Lemma saveTicks_frame_witness :
  Common.selectTicks
    (Common.saveTicks three_ticks 60000 [("USDKRW", JNum (Fin 1300))]) "X" 0 60000
  = Common.selectTicks three_ticks "X" 0 60000.
Proof.
  apply saveTicks_frame. left. intros e [<-|[]]. discriminate.
Defined.

Lemma finite_ticks_symbols (t : Z) (m : list (string * jsval)) :
  List.NoDup (List.map fst m) ->
  List.NoDup (List.map Common.symbol (finite_ticks (t, m)))
  /\ (length (finite_ticks (t, m)) <= length m)%nat.
Proof.
  induction m as [|[s v] m IH]; intros Hnd.
  - split; [constructor | apply le_n].
  - simpl in Hnd. apply List.NoDup_cons_iff in Hnd. destruct Hnd as [Hs Hnd].
    destruct (IH Hnd) as [IHn IHl].
    change (finite_ticks (t, (s, v) :: m))
      with ((match v with
             | JNum (Fin q) => [mk_tick t s (Fin q)]
             | _ => []
             end) ++ finite_ticks (t, m)).
    assert (~ In s (List.map Common.symbol (finite_ticks (t, m)))) as Hfresh.
    { intros Hin. apply List.in_map_iff in Hin. destruct Hin as [x [Hx Hin]].
      apply finite_ticks_In in Hin. destruct Hin as [s' [q [Hm ->]]].
      simpl in Hx. subst s'. apply Hs. apply List.in_map_iff.
      exists (s, JNum (Fin q)). split; [reflexivity | exact Hm]. }
    destruct v as [| |[q| | |]]; simpl; try (split; [exact IHn | lia]).
    split; [constructor; assumption | lia].
Qed.

(** The ticks of the batch of a snapshot carry the time of the cycle, a
    finite value and one of the six symbols. *)
Lemma batch_ticks_shape (now : Z) (st : Common.state) :
  Forall (fun x => Common.ts x = now /\ finite_tick x
                   /\ In (Common.symbol x) six_symbols)
         (finite_ticks (now, Common.batch_of st)).
Proof.
  apply List.Forall_forall. intros x Hx. apply finite_ticks_In in Hx.
  destruct Hx as [s [q [Hm ->]]]. split; [reflexivity|]. split; [reflexivity|].
  simpl. unfold Common.batch_of in Hm. simpl in Hm.
  split_members; injection Hm as <- _; tauto.
Qed.

(** X3. One run of [refresh] only appends to the tick table: the rows
    already there are kept in place, and at most six ticks are added,
    at most one per symbol, each with the timestamp of the cycle, a
    finite value and one of the six symbols. *)
Theorem refresh_appends (st : Common.state) (d : Common.db) (c : Common.cycle)
    (now : Z) (kst : string) :
  exists new,
    snd (Common.refresh st d c now kst) = d ++ new
    /\ (length new <= 6)%nat
    /\ List.NoDup (List.map Common.symbol new)
    /\ Forall (fun x => Common.ts x = now /\ finite_tick x
                        /\ In (Common.symbol x) six_symbols) new.
Proof.
  exists (finite_ticks (now, Common.batch_of (fst (Common.refresh st d c now kst)))).
  split; [apply refresh_db|].
  destruct (finite_ticks_symbols now
              (Common.batch_of (fst (Common.refresh st d c now kst)))) as [Hn Hl].
  { simpl. repeat constructor; simpl; intuition discriminate. }
  split; [exact Hl|]. split; [exact Hn|]. apply batch_ticks_shape.
Qed.

(** X4. The error list of the snapshot after a cycle holds the messages
    of the calls that threw in this cycle, in the order of the calls,
    and nothing of earlier cycles; there are at most four, so the cut at
    six never drops one; and the status is OK exactly when the list is
    empty. *)
Theorem refresh_errors (st : Common.state) (d : Common.db) (c : Common.cycle)
    (now : Z) (kst : string) :
  let st' := fst (Common.refresh st d c now kst) in
  Common.errors st' = failure_messages c
  /\ (length (Common.errors st') <= 4)%nat
  /\ (Common.status st' = Common.OK <-> Common.errors st' = [])
  /\ Common.asofKST st' = Some kst.
Proof.
  unfold Common.refresh, Common.after_fetches, failure_messages.
  destruct c as [fx kr us dx].
  destruct fx as [[fu fe]|m1], kr as [k|m2], us as [u|m3], dx as [x|m4]; simpl;
    (split; [reflexivity|]); (split; [lia|]);
    (split; [split; intros H; (reflexivity || discriminate H) | reflexivity]).
Qed.

(** X5. A slot that holds a number is never cleared by a later cycle:
    after [refresh] it still holds a number, the new one or the old
    one; the same goes for the spread slot. *)
Theorem refresh_keeps_numbers (st : Common.state) (d : Common.db) (c : Common.cycle)
    (now : Z) (kst : string) :
  let st' := fst (Common.refresh st d c now kst) in
  (forall i, is_number (slot st i) = true -> is_number (slot st' i) = true)
  /\ (is_number (Common.spread10y st) = true ->
      is_number (Common.spread10y st') = true).
Proof.
  intros st'. split.
  - intros i Hi. unfold st'. rewrite refresh_slot.
    destruct (fetched_value c i) as [v|]; [|exact Hi].
    destruct (is_number v) eqn:E; [exact E | exact Hi].
  - intros Hs. unfold st'. rewrite refresh_spread_slot.
    destruct (us_seen st c) as [| |u]; try exact Hs.
    destruct (kr_seen st c) as [| |k]; try exact Hs. reflexivity.
Qed.

Lemma refresh_keeps_numbers_witness :
  is_number (slot (fst (Common.refresh stale_kr_state [] kr_fails 1700000000000 "k"))
               IKr10y) = true.
Proof.
  apply (proj1 (refresh_keeps_numbers stale_kr_state [] kr_fails 1700000000000 "k")).
  reflexivity.
Defined.

Lemma refresh_spread_agrees (st : Common.state) (d : Common.db) (c : Common.cycle)
    (now : Z) (kst : string) :
  spread_agrees st -> spread_agrees (fst (Common.refresh st d c now kst)).
Proof.
  unfold spread_agrees. intros H.
  rewrite refresh_spread_slot.
  pose proof (refresh_slot st d c now kst IKr10y) as Hk.
  pose proof (refresh_slot st d c now kst IUs10y) as Hu.
  simpl in Hk, Hu. rewrite Hk, Hu. unfold us_seen, kr_seen.
  destruct (Common.c_kr c) as [k|mk], (Common.c_us c) as [u|mu]; simpl;
    destruct (Common.us10y st) as [| |u0], (Common.kr10y st) as [| |k0];
    simpl in *; solve [reflexivity | exact H].
Qed.

(** X6. In every snapshot reached from the start by runs of [refresh],
    the spread slot agrees with the two bond slots: it is null while one
    of them is null, and otherwise it is what [toFixed(3)] makes of
    their difference, US minus Korean, taken in doubles.  And every tick
    of the table then is finite, carries one of the six symbols and the
    time of one of the cycles. *)
Theorem run_cycles_invariant (cs : list (Common.cycle * Z * string)) :
  spread_agrees (fst (run_cycles cs))
  /\ Forall (fun x => finite_tick x /\ In (Common.symbol x) six_symbols
                      /\ In (Common.ts x) (List.map (fun y => snd (fst y)) cs))
            (snd (run_cycles cs)).
Proof.
  unfold run_cycles.
  assert (forall sd times,
             spread_agrees (fst sd) ->
             Forall (fun x => finite_tick x /\ In (Common.symbol x) six_symbols
                              /\ In (Common.ts x) times) (snd sd) ->
             let out := fold_left
                          (fun sd x => Common.refresh (fst sd) (snd sd) (fst (fst x))
                                         (snd (fst x)) (snd x)) cs sd in
             spread_agrees (fst out)
             /\ Forall (fun x => finite_tick x /\ In (Common.symbol x) six_symbols
                                 /\ In (Common.ts x)
                                      (times ++ List.map (fun y => snd (fst y)) cs))
                       (snd out)) as H.
  { induction cs as [|[[c now] kst] cs IH]; intros sd times Hs Hd; simpl.
    - split; [exact Hs|]. rewrite app_nil_r. exact Hd.
    - specialize (IH (Common.refresh (fst sd) (snd sd) c now kst) (times ++ [now])).
      rewrite <- app_assoc in IH. apply IH.
      + apply refresh_spread_agrees, Hs.
      + pose proof (refresh_db (fst sd) (snd sd) c now kst) as E.
        pose proof (batch_ticks_shape now
                      (fst (Common.refresh (fst sd) (snd sd) c now kst))) as Hnew.
        refine (eq_ind_r (fun l => Forall _ l) _ E).
        apply List.Forall_app. split.
        * eapply List.Forall_impl; [|exact Hd]. intros x [Hf [Hy Ht]].
          repeat split; try assumption. apply in_or_app. left. exact Ht.
        * eapply List.Forall_impl; [|exact Hnew]. intros x [Ht [Hf Hy]].
          repeat split; try assumption. apply in_or_app. right. left.
          symmetry. exact Ht. }
  apply (H (Common.boot, []) []); [reflexivity | constructor].
Qed.

(** ** Further properties of the candles *)

(** A candle is emitted exactly for a key that some row has, and it is
    the fold of the values of the rows of that key, in their order. *)
Lemma aggregate_candle (w : Z) (rows : list Common.row) (y : Common.candle) :
  In y (Common.aggregate w rows)
  <-> exists first rest,
        rows_of_key w (Common.t y) rows = first :: rest
        /\ y = candle_from (Common.t y) (Common.r_value first)
                 (List.map Common.r_value rest).
Proof.
  rewrite aggregate_In, get_fold_add_row. simpl Common.cmap_get.
  fold (rows_of_key w (Common.t y) rows).
  destruct (rows_of_key w (Common.t y) rows) as [|first rest].
  - split; [discriminate | intros [f [r [E _]]]; discriminate E].
  - change (List.map Common.r_value (first :: rest))
      with (Common.r_value first :: List.map Common.r_value rest).
    rewrite fold_feed. fold (candle_from (Common.t y) (Common.r_value first)
                               (List.map Common.r_value rest)).
    split.
    + intros [= E]. exists first, rest. split; [reflexivity | symmetry; exact E].
    + intros [f [r [[= <- <-] E]]]. f_equal. symmetry. exact E.
Qed.

Lemma candle_from_key (k : option Z) (v : jsnum) (vs : list jsnum) :
  Common.t (candle_from k v vs) = k.
Proof.
  unfold candle_from. destruct (fold_touch vs (init_candle k v)) as [Ht _].
  exact Ht.
Qed.

(** Every row has its candle. *)
Lemma row_has_candle (w : Z) (rows : list Common.row) (r : Common.row) :
  In r rows ->
  exists y, In y (Common.aggregate w rows)
            /\ Common.t y = Common.bucketStart (Common.r_ts r) w
            /\ In r (rows_of_key w (Common.t y) rows).
Proof.
  intros Hr.
  assert (In r (rows_of_key w (Common.bucketStart (Common.r_ts r) w) rows)) as Hin.
  { unfold rows_of_key. apply filter_In. split; [exact Hr | apply key_eqb_refl]. }
  destruct (rows_of_key w (Common.bucketStart (Common.r_ts r) w) rows)
    as [|first rest] eqn:E; [destruct Hin|].
  exists (candle_from (Common.bucketStart (Common.r_ts r) w) (Common.r_value first)
            (List.map Common.r_value rest)).
  rewrite aggregate_candle, candle_from_key, E.
  split; [exists first, rest; split; reflexivity|]. split; [reflexivity | exact Hin].
Qed.

Lemma last_In {A : Type} (xs : list A) (d : A) : In (List.last xs d) (d :: xs).
Proof.
  revert d. induction xs as [|x xs IH]; intros d; [left; reflexivity|].
  right. pose proof (IH x) as H. rewrite <- (last_cons xs x d) in H. exact H.
Qed.

(** The four values of a candle against the values of its bucket. *)
Lemma candle_extremes (w : Z) (rows : list Common.row) (y : Common.candle) :
  Forall finite_row rows -> In y (Common.aggregate w rows) ->
  let vs := List.map Common.r_value (rows_of_key w (Common.t y) rows) in
  vs <> []
  /\ is_max (Common.h y) vs /\ is_min (Common.l y) vs
  /\ In (Common.o y) vs /\ In (Common.c y) vs
  /\ isFinite (Common.h y) = true /\ isFinite (Common.l y) = true.
Proof.
  intros Hfin Hy vs. apply aggregate_candle in Hy.
  destruct Hy as [first [rest [E Hy]]]. unfold vs. rewrite E.
  assert (Forall (fun v => isFinite v = true)
                 (List.map Common.r_value (first :: rest))) as Hf.
  { apply List.Forall_forall. intros v Hv. apply List.in_map_iff in Hv.
    destruct Hv as [r [<- Hr]]. rewrite <- E in Hr. unfold rows_of_key in Hr.
    apply filter_In in Hr. rewrite List.Forall_forall in Hfin. apply Hfin, Hr. }
  simpl List.map in *. inversion Hf as [|? ? Hf1 Hfr]; subst.
  destruct (fold_touch (List.map Common.r_value rest)
              (init_candle (Common.t y) (Common.r_value first)))
    as [_ [Ho [Hc [Hh Hl]]]].
  fold (candle_from (Common.t y) (Common.r_value first)
          (List.map Common.r_value rest)) in Ho, Hc, Hh, Hl.
  rewrite <- Hy in Ho, Hc, Hh, Hl. simpl in Ho, Hc, Hh, Hl.
  destruct (fold_max_is_max _ _ Hf1 Hfr) as [Hfh Hmax].
  destruct (fold_min_is_min _ _ Hf1 Hfr) as [Hfl Hmin].
  rewrite <- Hh in Hfh, Hmax. rewrite <- Hl in Hfl, Hmin.
  split; [discriminate|]. split; [exact Hmax|]. split; [exact Hmin|].
  split; [rewrite Ho; left; reflexivity|].
  split; [rewrite Hc; apply last_In|]. split; assumption.
Qed.

(** X7. Every candle built from finite ticks is well shaped, whatever
    the width (zero included): its low is at most its open and its
    close, and its high at least both. *)
Theorem candles_well_shaped (w : Z) (rows : list Common.row) (y : Common.candle) :
  Forall finite_row rows -> In y (Common.aggregate w rows) -> well_shaped y.
Proof.
  intros Hfin Hy.
  destruct (candle_extremes w rows y Hfin Hy) as [_ [Hmax [Hmin [Ho [Hc _]]]]].
  destruct Hmax as [_ Hub]. destruct Hmin as [_ Hlb].
  repeat split; auto.
Qed.

Lemma candles_well_shaped_witness :
  well_shaped {| Common.t := Some 0; Common.o := Fin 100; Common.h := Fin 110;
                 Common.l := Fin 90; Common.c := Fin 90 |}.
Proof.
  apply (candles_well_shaped 60000 (List.map Common.row_of three_ticks)).
  - repeat constructor.
  - vm_compute. left. reflexivity.
Defined.

Lemma candle_leb_total (a b : Common.candle) :
  Common.candle_leb a b = false -> Common.candle_leb b a = true.
Proof.
  unfold Common.candle_leb.
  destruct (Common.t a), (Common.t b); try discriminate.
  rewrite Z.leb_gt, Z.leb_le. lia.
Qed.

Lemma sorted_distinct_strict (cs : list Common.candle) :
  Forall (fun y => exists b, Common.t y = Some b) cs ->
  Sorted (fun a b => Common.candle_leb a b = true) cs ->
  List.NoDup (List.map Common.t cs) ->
  StronglySorted candle_before cs.
Proof.
  induction cs as [|y cs IH]; intros Hsome Hs Hnd; [constructor|].
  inversion Hsome as [|? ? [b Hb] Hsome']; subst.
  inversion Hs as [|? ? Hs' Hhd]; subst.
  simpl in Hnd. apply List.NoDup_cons_iff in Hnd. destruct Hnd as [Hfresh Hnd].
  specialize (IH Hsome' Hs' Hnd). constructor; [exact IH|].
  destruct cs as [|z cs]; [constructor|].
  inversion Hhd as [|? ? Hle]; subst.
  inversion Hsome' as [|? ? [bz Hbz] _]; subst.
  unfold Common.candle_leb in Hle. rewrite Hb, Hbz in Hle. apply Z.leb_le in Hle.
  assert (b < bz) as Hlt.
  { assert (b <> bz); [|lia]. intros ->. apply Hfresh. left.
    rewrite Hbz. symmetry. exact Hb. }
  constructor; [exists b, bz; auto|].
  inversion IH as [|? ? _ Hall]; subst.
  eapply List.Forall_impl; [|exact Hall].
  intros u [x [v [Hx [Hv Hxv]]]]. exists b, v. rewrite Hbz in Hx.
  injection Hx as <-. repeat split; [exact Hb | exact Hv | lia].
Qed.

Lemma fold_add_row_length (w : Z) (rows : list Common.row) (m : Common.cmap) :
  (length (fold_left (Common.add_row w) rows m) <= length m + length rows)%nat.
Proof.
  revert m. induction rows as [|r rows IH]; intros m; simpl; [lia|].
  specialize (IH (Common.add_row w m r)).
  assert (length (Common.add_row w m r) <= S (length m))%nat; [|lia].
  unfold Common.add_row.
  destruct (Common.cmap_get m (Common.bucketStart (Common.r_ts r) w)).
  - rewrite <- (List.length_map fst), cmap_update_keys, List.length_map. lia.
  - rewrite List.length_app. simpl. lia.
Qed.

(** X8. With a positive width the candles come out in strictly
    ascending order of their bucket start, so no two candles share a
    bucket, and there are never more candles than ticks. *)
Theorem candles_strictly_ascending (w : Z) (rows : list Common.row) :
  0 < w ->
  StronglySorted candle_before (Common.aggregate w rows)
  /\ (length (Common.aggregate w rows) <= length rows)%nat.
Proof.
  intros Hw. split.
  - apply sorted_distinct_strict.
    + apply List.Forall_forall. intros y Hy. apply aggregate_candle in Hy.
      destruct Hy as [first [rest [E _]]].
      assert (In first (rows_of_key w (Common.t y) rows)) as Hin
          by (rewrite E; left; reflexivity).
      unfold rows_of_key in Hin. apply filter_In in Hin. destruct Hin as [_ Hk].
      apply key_eqb_eq in Hk. unfold Common.bucketStart in Hk.
      destruct (w =? 0) eqn:Ew; [apply Z.eqb_eq in Ew; lia|].
      eexists. symmetry. exact Hk.
    + unfold Common.aggregate. apply sort_by_sorted. exact candle_leb_total.
    + unfold Common.aggregate.
      pose proof (fold_add_row_ok w rows []
                    (conj (List.NoDup_nil _) (List.Forall_nil _))) as [Hnd Ht].
      eapply Permutation_NoDup.
      * apply Permutation_map. apply Permutation_sym. apply sort_by_perm.
      * rewrite List.map_map.
        erewrite List.map_ext_in; [exact Hnd|].
        intros e He. rewrite List.Forall_forall in Ht. apply Ht, He.
  - unfold Common.aggregate.
    rewrite (Permutation_length (sort_by_perm _ _)), List.length_map.
    apply (fold_add_row_length w rows []).
Qed.

Lemma candles_strictly_ascending_witness :
  (length (Common.aggregate 60000 (List.map Common.row_of three_ticks)) <= 3)%nat.
Proof.
  apply (proj2 (candles_strictly_ascending 60000
                  (List.map Common.row_of three_ticks) ltac:(lia))).
Defined.

Lemma aggregate_nil_iff (w : Z) (rows : list Common.row) :
  Common.aggregate w rows = [] <-> rows = [].
Proof.
  split; [|intros ->; reflexivity].
  intros E. destruct rows as [|r rows]; [reflexivity|].
  destruct (row_has_candle w (r :: rows) r (or_introl eq_refl)) as [y [Hy _]].
  rewrite E in Hy. destruct Hy.
Qed.

Lemma selectTicks_nil_iff (d : Common.db) (s : string) (lo hi : Z) :
  Common.selectTicks d s lo hi = [] <-> forall x, In x d -> ~ within s lo hi x.
Proof.
  unfold Common.selectTicks. split.
  - intros E x Hx Hw.
    assert (In (Common.row_of x)
               (sort_by Common.row_leb
                  (List.map Common.row_of (List.filter (Common.in_range s lo hi) d))))
      as Hin.
    { apply sort_by_In. apply List.in_map. apply filter_In.
      split; [exact Hx | apply in_range_within; exact Hw]. }
    rewrite E in Hin. destruct Hin.
  - intros H.
    destruct (List.filter (Common.in_range s lo hi) d) as [|x xs] eqn:E;
      [reflexivity|].
    assert (In x (x :: xs)) as Hx by (left; reflexivity).
    rewrite <- E in Hx. apply filter_In in Hx. destruct Hx as [Hx Hr].
    exfalso. apply (H x Hx). apply in_range_within. exact Hr.
Qed.

(** X9. [getCandles] answers with the empty list, and not with an error,
    exactly when the table has no tick of the symbol from [now] minus
    the range up to [now]; this holds for every width and range text,
    well formed or not. *)
Theorem getCandles_empty_iff (d : Common.db) (now : Z) (s : string)
    (interval range : option string) :
  P2.getCandles d now s interval range = []
  <-> forall x, In x d -> ~ within s (now - Common.parseRangeToMs range) now x.
Proof.
  unfold P2.getCandles. cbv zeta. rewrite aggregate_nil_iff.
  apply selectTicks_nil_iff.
Qed.

Lemma fold_highs (cs : list Common.candle) (a : jsnum) :
  fold_left (fun hi y => Math_max hi (Common.h y)) cs a
  = fold_left Math_max (List.map Common.h cs) a.
Proof. revert a. induction cs as [|y cs IH]; intros a; simpl; auto. Qed.

Lemma fold_lows (cs : list Common.candle) (a : jsnum) :
  fold_left (fun lo y => Math_min lo (Common.l y)) cs a
  = fold_left Math_min (List.map Common.l cs) a.
Proof. revert a. induction cs as [|y cs IH]; intros a; simpl; auto. Qed.

Lemma rows_of_key_values (w : Z) (k : option Z) (rows : list Common.row) (v : jsnum) :
  In v (List.map Common.r_value (rows_of_key w k rows)) ->
  In v (List.map Common.r_value rows).
Proof.
  intros H. apply List.in_map_iff in H. destruct H as [r [<- Hr]].
  unfold rows_of_key in Hr. apply filter_In in Hr. apply List.in_map, Hr.
Qed.

(** The extreme of the highs of the candles is the extreme of the ticks. *)
Lemma max_of_highs (w : Z) (rows : list Common.row) (m : jsnum) :
  Forall finite_row rows ->
  is_max m (List.map Common.h (Common.aggregate w rows)) ->
  is_max m (List.map Common.r_value rows).
Proof.
  intros Hfin [Hin Hub]. split.
  - apply List.in_map_iff in Hin. destruct Hin as [z [<- Hz]].
    destruct (candle_extremes w rows z Hfin Hz) as [_ [[Hh _] _]].
    eapply rows_of_key_values, Hh.
  - intros v Hv. apply List.in_map_iff in Hv. destruct Hv as [r [<- Hr]].
    destruct (row_has_candle w rows r Hr) as [z [Hz [_ Hrz]]].
    destruct (candle_extremes w rows z Hfin Hz) as [_ [[_ Hzub] _]].
    eapply js_le_trans.
    + apply Hzub. apply List.in_map, Hrz.
    + apply Hub. apply List.in_map, Hz.
Qed.

Lemma min_of_lows (w : Z) (rows : list Common.row) (m : jsnum) :
  Forall finite_row rows ->
  is_min m (List.map Common.l (Common.aggregate w rows)) ->
  is_min m (List.map Common.r_value rows).
Proof.
  intros Hfin [Hin Hlb]. split.
  - apply List.in_map_iff in Hin. destruct Hin as [z [<- Hz]].
    destruct (candle_extremes w rows z Hfin Hz) as [_ [_ [[Hl _] _]]].
    eapply rows_of_key_values, Hl.
  - intros v Hv. apply List.in_map_iff in Hv. destruct Hv as [r [<- Hr]].
    destruct (row_has_candle w rows r Hr) as [z [Hz [_ Hrz]]].
    destruct (candle_extremes w rows z Hfin Hz) as [_ [_ [[_ Hzlb] _]]].
    eapply js_le_trans.
    + apply Hlb. apply List.in_map, Hz.
    + apply Hzlb. apply List.in_map, Hrz.
Qed.

(** X10. When finite ticks give two candles or more, the summary that
    the analysis prompt is built from has the number of candles, the
    open of the first candle, the close of the last, and as [hi] and
    [lo] the maximum and the minimum of all the ticks that were
    aggregated: the extremes do not depend on the width of the buckets. *)
Theorem summary_extremes (w : Z) (rows : list Common.row)
    (x y : Common.candle) (cs : list Common.candle) :
  Forall finite_row rows ->
  Common.aggregate w rows = x :: y :: cs ->
  exists hi lo,
    P2.summarizeCandles (Common.aggregate w rows)
    = {| P2.s_n := S (S (length cs));
         P2.s_range := Some (Common.o x, Common.c (List.last (y :: cs) x), hi, lo) |}
    /\ is_max hi (List.map Common.r_value rows)
    /\ is_min lo (List.map Common.r_value rows).
Proof.
  intros Hfin E.
  assert (Forall (fun z => isFinite (Common.h z) = true
                           /\ isFinite (Common.l z) = true) (x :: y :: cs)) as Hf.
  { rewrite <- E. apply List.Forall_forall. intros z Hz.
    destruct (candle_extremes w rows z Hfin Hz) as [_ [_ [_ [_ [_ H]]]]]. exact H. }
  inversion Hf as [|? ? [Hxh Hxl] Hf']; subst.
  exists (fold_left Math_max (List.map Common.h (y :: cs)) (Common.h x)),
    (fold_left Math_min (List.map Common.l (y :: cs)) (Common.l x)).
  split; [|split].
  - rewrite E. unfold P2.summarizeCandles. f_equal. f_equal.
    rewrite fold_highs, fold_lows.
    change (List.map Common.h (x :: y :: cs))
      with (Common.h x :: List.map Common.h (y :: cs)).
    change (List.map Common.l (x :: y :: cs))
      with (Common.l x :: List.map Common.l (y :: cs)).
    change (fold_left Math_max (Common.h x :: List.map Common.h (y :: cs)) NegInf)
      with (fold_left Math_max (List.map Common.h (y :: cs))
              (Math_max NegInf (Common.h x))).
    change (fold_left Math_min (Common.l x :: List.map Common.l (y :: cs)) PosInf)
      with (fold_left Math_min (List.map Common.l (y :: cs))
              (Math_min PosInf (Common.l x))).
    destruct (Common.h x); try discriminate Hxh.
    destruct (Common.l x); try discriminate Hxl. reflexivity.
  - apply (max_of_highs w rows _ Hfin). rewrite E.
    apply fold_max_is_max; [exact Hxh|].
    apply List.Forall_forall. intros v Hv. apply List.in_map_iff in Hv.
    destruct Hv as [z [<- Hz]]. rewrite List.Forall_forall in Hf'.
    apply (Hf' z Hz).
  - apply (min_of_lows w rows _ Hfin). rewrite E.
    apply fold_min_is_min; [exact Hxl|].
    apply List.Forall_forall. intros v Hv. apply List.in_map_iff in Hv.
    destruct Hv as [z [<- Hz]]. rewrite List.Forall_forall in Hf'.
    apply (Hf' z Hz).
Qed.

Lemma summary_extremes_witness :
  exists hi lo,
    P2.s_range
      (P2.summarizeCandles
         (Common.aggregate 30000 (List.map Common.row_of three_ticks)))
    = Some (Fin 100, Fin 90, hi, lo)
    /\ is_max hi [Fin 100; Fin 110; Fin 90]
    /\ is_min lo [Fin 100; Fin 110; Fin 90].
Proof.
  destruct (summary_extremes 30000 (List.map Common.row_of three_ticks)
              {| Common.t := Some 0; Common.o := Fin 100; Common.h := Fin 100;
                 Common.l := Fin 100; Common.c := Fin 100 |}
              {| Common.t := Some 30000; Common.o := Fin 110; Common.h := Fin 110;
                 Common.l := Fin 90; Common.c := Fin 90 |} [])
    as [hi [lo [Hs [Hmax Hmin]]]].
  - repeat constructor.
  - reflexivity.
  - exists hi, lo. rewrite Hs. split; [reflexivity|]. split; assumption.
Defined.

(** ** Further properties of the width and range texts *)

Lemma scan_count_value (units : list ascii) (ds : string) (u : ascii)
    (seen : bool) (acc : Z) :
  all_digits ds = true -> (ds <> EmptyString \/ seen = true) ->
  is_digit u = false -> In u units ->
  scan_count units seen acc (String.append ds (String u EmptyString))
  = Some (fold_left (fun a ch => 10 * a + digit_val ch) (list_ascii_of_string ds) acc, u).
Proof.
  revert seen acc. induction ds as [|ch ds IH]; intros seen acc Hd Hne Hu Hin; simpl.
  - destruct Hne as [Hne | ->]; [contradiction Hne; reflexivity|].
    rewrite Hu. simpl.
    assert (ascii_mem u units = true) as ->; [|reflexivity].
    unfold ascii_mem. apply existsb_exists. exists u.
    split; [exact Hin | apply Ascii.eqb_refl].
  - simpl in Hd. apply andb_true_iff in Hd. destruct Hd as [Hc Hd].
    rewrite Hc. apply IH; auto.
Qed.

Lemma match_count_value (units : list ascii) (ds : string) (u : ascii) :
  ds <> EmptyString -> all_digits ds = true -> is_digit u = false -> In u units ->
  match_count units (String.append ds (String u EmptyString))
  = Some (digits_value ds, u).
Proof.
  intros Hne Hd Hu Hin. unfold match_count, digits_value.
  apply scan_count_value; auto.
Qed.

Lemma append_unit_nonempty (ds : string) (u : ascii) (d : string) :
  or_default (Some (String.append ds (String u EmptyString))) d
  = String.append ds (String u EmptyString).
Proof. destruct ds; reflexivity. Qed.

(** X11. A width or range text made of decimal digits and one unit
    letter stands for the number written by the digits times the unit:
    seconds (part_002 only), minutes and hours for a width, hours and
    days for a range, and minutes, hours and days for a range of
    part_001.  This is so as long as the product, and with it the count
    and every product on the way, is an integer that the doubles of the
    source carry exactly, one up to 2^53; beyond, [parseInt] and the
    products round. *)
Theorem count_times_unit (ds : string) :
  ds <> EmptyString -> all_digits ds = true ->
  let n := digits_value ds in
  (exact_ms (n * 1000) ->
   P2.intervalToMs (Some (String.append ds "s")) = n * 1000)
  /\ (exact_ms (n * 60 * 1000) ->
      P2.intervalToMs (Some (String.append ds "m")) = n * 60 * 1000
      /\ P0.intervalToMs (Some (String.append ds "m")) = n * 60 * 1000
      /\ P1.intervalToMs (String.append ds "m") = n * 60000
      /\ P1.parseRangeToMs (String.append ds "m") = n * 60 * 1000)
  /\ (exact_ms (n * 60 * 60 * 1000) ->
      P2.intervalToMs (Some (String.append ds "h")) = n * 60 * 60 * 1000
      /\ P0.intervalToMs (Some (String.append ds "h")) = n * 60 * 60 * 1000
      /\ Common.parseRangeToMs (Some (String.append ds "h")) = n * 60 * 60 * 1000
      /\ P1.intervalToMs (String.append ds "h") = n * 3600000
      /\ P1.parseRangeToMs (String.append ds "h") = n * 3600 * 1000)
  /\ (exact_ms (n * 24 * 60 * 60 * 1000) ->
      Common.parseRangeToMs (Some (String.append ds "d")) = n * 24 * 60 * 60 * 1000
      /\ P1.parseRangeToMs (String.append ds "d") = n * 24 * 3600 * 1000).
Proof.
  intros Hne Hd n. subst n.
  unfold P2.intervalToMs, P0.intervalToMs, Common.parseRangeToMs,
    P1.intervalToMs, P1.parseRangeToMs.
  rewrite !append_unit_nonempty.
  repeat split;
    (rewrite match_count_value;
     [reflexivity | exact Hne | exact Hd | reflexivity | simpl; tauto]).
Qed.

Lemma count_times_unit_witness :
  exact_ms (digits_value "15" * 60 * 1000)
  /\ P2.intervalToMs (Some (String.append "15" "m")) = digits_value "15" * 60 * 1000.
Proof.
  assert (exact_ms (digits_value "15" * 60 * 1000)) as Hx
      by (unfold exact_ms; vm_compute; split; discriminate).
  split; [exact Hx|].
  exact (proj1 (proj1 (proj2 (count_times_unit "15" ltac:(discriminate) eq_refl)) Hx)).
Defined.

Lemma digit_val_nonneg (ch : ascii) : is_digit ch = true -> 0 <= digit_val ch.
Proof.
  unfold is_digit, digit_val. intros H. apply andb_true_iff in H.
  destruct H as [H _]. apply Nat.leb_le in H. lia.
Qed.

Lemma scan_count_nonneg (units : list ascii) (s : string) (seen : bool)
    (acc n : Z) (u : ascii) :
  0 <= acc -> scan_count units seen acc s = Some (n, u) -> 0 <= n.
Proof.
  revert seen acc. induction s as [|ch rest IH]; intros seen acc Hacc; simpl.
  - discriminate.
  - destruct (is_digit ch) eqn:Ed.
    + apply IH. pose proof (digit_val_nonneg ch Ed). lia.
    + destruct (seen && ascii_mem ch units)%bool; [|discriminate].
      destruct rest; [|discriminate]. intros [= <- _]. exact Hacc.
Qed.

Lemma match_count_nonneg (units : list ascii) (s : string) :
  match match_count units s with Some (n, _) => 0 <= n | None => True end.
Proof.
  destruct (match_count units s) as [[n u]|] eqn:E; [|exact I].
  apply (scan_count_nonneg units s false 0 n u); [lia | exact E].
Qed.

(** X12. Whatever text is given, a width is never negative and a range
    is never negative, so the interval that [getCandles] asks the table
    for never ends before it starts and never reaches past [now]. *)
Theorem widths_and_ranges_nonneg (i r : option string) (s : string) :
  0 <= P0.intervalToMs i /\ 0 <= P2.intervalToMs i
  /\ 0 <= Common.parseRangeToMs r
  /\ 0 <= P1.intervalToMs s /\ 0 <= P1.parseRangeToMs s
  /\ (forall now, now - Common.parseRangeToMs r <= now).
Proof.
  assert (0 <= Common.parseRangeToMs r) as HR.
  { unfold Common.parseRangeToMs.
    pose proof (match_count_nonneg ["d"; "h"]%char (or_default r "7d")) as H.
    destruct (match_count _ _) as [[n u]|]; [|lia].
    destruct (Ascii.eqb u "d"); lia. }
  split; [|split; [|split; [exact HR|split; [|split; [|intros; lia]]]]].
  - unfold P0.intervalToMs.
    pose proof (match_count_nonneg ["m"; "h"]%char (or_default i "30m")) as H.
    destruct (match_count _ _) as [[n u]|]; [|lia].
    destruct (Ascii.eqb u "m"); lia.
  - unfold P2.intervalToMs.
    pose proof (match_count_nonneg ["s"; "m"; "h"]%char (or_default i "30m")) as H.
    destruct (match_count _ _) as [[n u]|]; [|lia].
    destruct (Ascii.eqb u "s"); [lia|]. destruct (Ascii.eqb u "m"); lia.
  - unfold P1.intervalToMs.
    pose proof (match_count_nonneg ["m"; "h"]%char s) as H.
    destruct (match_count _ _) as [[n u]|]; [|lia].
    destruct (Ascii.eqb u "m"); lia.
  - unfold P1.parseRangeToMs.
    pose proof (match_count_nonneg ["m"; "h"; "d"]%char s) as H.
    destruct (match_count _ _) as [[n u]|]; [|lia].
    destruct (Ascii.eqb u "m"); [lia|]. destruct (Ascii.eqb u "h"); [lia|].
    destruct (Ascii.eqb u "d"); lia.
Qed.

Lemma match_count_sound (units : list ascii) (s : string) (n : Z) (u : ascii) :
  match_count units s = Some (n, u) ->
  exists ds, s = String.append ds (String u EmptyString)
             /\ ds <> EmptyString /\ all_digits ds = true /\ In u units.
Proof.
  intros H. apply scan_count_sound in H. destruct H as [ds [-> [Hd [Hu Hne]]]].
  exists ds. repeat split; auto.
Qed.

(** X13. The width parser of part_002 extends the one of part_000 by the
    unit of seconds and changes nothing else: on every text that is not
    digits followed by "s" the two give the same width, and so the two
    candle routes give the same answer. *)
Theorem seconds_is_the_only_difference :
  (forall i : option string,
      ~ well_formed ["s"]%char (or_default i "30m") ->
      P0.intervalToMs i = P2.intervalToMs i)
  /\ (forall d now q,
        ~ well_formed ["s"]%char (or_default (q_interval q) "30m") ->
        P0.api_candles d now q = P2.api_candles d now q).
Proof.
  assert (forall i : option string,
             ~ well_formed ["s"]%char (or_default i "30m") ->
             P0.intervalToMs i = P2.intervalToMs i) as H.
  { intros i Hns. unfold P0.intervalToMs, P2.intervalToMs.
    set (s := or_default i "30m") in *.
    destruct (match_count ["s"; "m"; "h"]%char s) as [[n u]|] eqn:E2.
    - destruct (match_count_sound _ _ _ _ E2) as [ds [Es [Hne [Hd Hu]]]].
      destruct Hu as [<-|Hu].
      + exfalso. apply Hns. exists ds, "s"%char. repeat split; auto. left. reflexivity.
      + assert (is_digit u = false) as Hnd
            by (destruct Hu as [<-|[<-|[]]]; reflexivity).
        pose proof (match_count_value ["s"; "m"; "h"]%char ds u Hne Hd Hnd
                      ltac:(right; exact Hu)) as V2.
        pose proof (match_count_value ["m"; "h"]%char ds u Hne Hd Hnd Hu) as V0.
        rewrite <- Es in V2, V0. rewrite V0.
        assert (n = digits_value ds) as -> by congruence.
        destruct Hu as [<-|[<-|[]]]; reflexivity.
    - destruct (match_count ["m"; "h"]%char s) as [[n u]|] eqn:E0; [|reflexivity].
      destruct (match_count_sound _ _ _ _ E0) as [ds [Es [Hne [Hd Hu]]]].
      assert (is_digit u = false) as Hnd
          by (destruct Hu as [<-|[<-|[]]]; reflexivity).
      pose proof (match_count_value ["s"; "m"; "h"]%char ds u Hne Hd Hnd
                    ltac:(right; exact Hu)) as V2.
      rewrite <- Es in V2. congruence. }
  split; [exact H|].
  intros d now q Hq. unfold P0.api_candles, P2.api_candles, P2.getCandles.
  cbv zeta. f_equal. f_equal. apply H.
  destruct (q_interval q) as [[|a x]|]; exact Hq.
Qed.

Lemma seconds_is_the_only_difference_witness :
  P0.intervalToMs (Some "15m") = P2.intervalToMs (Some "15m").
Proof.
  apply (proj1 seconds_is_the_only_difference (Some "15m")).
  intros H. apply match_count_well_formed in H; [|repeat constructor].
  destruct H as [n [u H]]. vm_compute in H. discriminate H.
Defined.

Lemma upper_ascii_idempotent (ch : ascii) :
  upper_ascii (upper_ascii ch) = upper_ascii ch.
Proof.
  destruct ch as [[] [] [] [] [] [] [] []]; reflexivity.
Qed.

Lemma toUpperCase_idempotent (s : string) :
  toUpperCase (toUpperCase s) = toUpperCase s.
Proof.
  induction s as [|ch s IH]; simpl; [reflexivity|].
  rewrite upper_ascii_idempotent, IH. reflexivity.
Qed.

Lemma upper_or_default (s : string) :
  toUpperCase (or_default (Some (toUpperCase s)) "USDKRW")
  = toUpperCase (or_default (Some s) "USDKRW").
Proof.
  destruct s as [|ch s]; [reflexivity|].
  change (toUpperCase (toUpperCase (String ch s)) = toUpperCase (String ch s)).
  apply toUpperCase_idempotent.
Qed.

(** X14. The candle routes of part_000 and part_002 and the cache of the
    analysis route of part_002 take the symbol without regard to the
    case of its letters: a symbol and its upper-case form give the same
    candles and the same cache key.  The cache key of part_001 keeps
    the symbol as it is written: two different symbols never share a
    key. *)
Theorem symbol_case_is_ignored (s : string) :
  (forall d now i r,
      P2.api_candles d now {| q_symbol := Some s; q_interval := i; q_range := r |}
      = P2.api_candles d now {| q_symbol := Some (toUpperCase s);
                                q_interval := i; q_range := r |})
  /\ (forall d now i r,
        P0.api_candles d now {| q_symbol := Some s; q_interval := i; q_range := r |}
        = P0.api_candles d now {| q_symbol := Some (toUpperCase s);
                                  q_interval := i; q_range := r |})
  /\ key2 (Some s) = key2 (Some (toUpperCase s))
  /\ (forall a b, a <> EmptyString -> b <> EmptyString ->
                  key1 (Some a) = key1 (Some b) -> a = b).
Proof.
  split; [|split; [|split]].
  - intros d now i r. unfold P2.api_candles. cbv zeta. simpl q_symbol.
    rewrite upper_or_default. reflexivity.
  - intros d now i r. unfold P0.api_candles. cbv zeta. simpl q_symbol.
    rewrite upper_or_default. reflexivity.
  - unfold key2. symmetry. apply upper_or_default.
  - intros a b Ha Hb. unfold key1.
    destruct a as [|x a]; [contradiction Ha; reflexivity|].
    destruct b as [|y b]; [contradiction Hb; reflexivity|].
    simpl. intros [= -> ->]. reflexivity.
Qed.

Lemma symbol_case_is_ignored_witness :
  key1 (Some "usdkrw") <> key1 (Some "USDKRW").
Proof.
  intros H.
  apply (proj2 (proj2 (proj2 (symbol_case_is_ignored "x")))) in H; discriminate.
Defined.

(** ** The bond crawler *)

Lemma digit_val_bounds (ch : ascii) : is_digit ch = true -> 0 <= digit_val ch <= 9.
Proof.
  unfold is_digit, digit_val. intros H. apply andb_true_iff in H.
  destruct H as [H1 H2]. apply Nat.leb_le in H1, H2. lia.
Qed.

Lemma bond_at_range (s : string) (q : Q) :
  Crawl.bond_at s = Some q -> (0 <= q)%Q /\ (q < 10)%Q.
Proof.
  unfold Crawl.bond_at.
  destruct s as [|d [|p [|a [|b [|c rest]]]]]; try discriminate.
  destruct (is_digit d) eqn:Ed; [|discriminate].
  destruct (Ascii.eqb p "."); [|discriminate].
  destruct (is_digit a) eqn:Ea; [|discriminate].
  destruct (is_digit b) eqn:Eb; [|discriminate].
  destruct (is_digit c) eqn:Ec; [|discriminate]. simpl.
  pose proof (digit_val_bounds d Ed). pose proof (digit_val_bounds a Ea).
  pose proof (digit_val_bounds b Eb). pose proof (digit_val_bounds c Ec).
  assert ((0 <= Crawl.decimal3 d a b c)%Q /\ (Crawl.decimal3 d a b c < 10)%Q) as H3.
  { unfold Crawl.decimal3, Qle, Qlt. simpl. lia. }
  destruct rest as [|e rest]; [intros [= <-]; exact H3|].
  destruct (is_digit e) eqn:Ee; [|intros [= <-]; exact H3].
  pose proof (digit_val_bounds e Ee). intros [= <-].
  unfold Crawl.decimal4, Qle, Qlt. simpl. lia.
Qed.

Lemma bond_search_at (s : string) (q : Q) :
  Crawl.bond_search s = Some q ->
  exists pre rest, s = String.append pre rest /\ Crawl.bond_at rest = Some q.
Proof.
  induction s as [|ch s IH]; intros H.
  - simpl in H. discriminate.
  - change (Crawl.bond_search (String ch s))
      with (match Crawl.bond_at (String ch s) with
            | Some q => Some q
            | None => Crawl.bond_search s
            end) in H.
    destruct (Crawl.bond_at (String ch s)) as [q'|] eqn:E.
    + injection H as ->. exists EmptyString, (String ch s). split; [reflexivity | exact E].
    + destruct (IH H) as [pre [rest [-> Hr]]].
      exists (String ch pre), rest. split; [reflexivity | exact Hr].
Qed.

(** X15. Whatever the page says, a yield returned by [crawlNaverBond] is
    a finite number from 0 up to, but not reaching, 10; when the text
    has no digit, point and three digits in a row the call throws. *)
Theorem bond_yield_below_ten (url : string) (page : Common.fetched string) :
  match Crawl.crawlNaverBond url page with
  | Common.Got v => exists q, v = Fin q /\ (0 <= q)%Q /\ (q < 10)%Q
  | Common.Threw m =>
      page = Common.Threw m
      \/ (exists text, page = Common.Got text /\ Crawl.bond_search text = None
                       /\ m = String.append "Bond parse failed: " url)
  end.
Proof.
  unfold Crawl.crawlNaverBond. destruct page as [text|m]; [|left; reflexivity].
  destruct (Crawl.bond_search text) as [q|] eqn:E.
  - exists q. split; [reflexivity|].
    destruct (bond_search_at text q E) as [pre [rest [_ Hr]]].
    apply bond_at_range in Hr. exact Hr.
  - right. exists text. repeat split. exact E.
Qed.

(** X16. [crawlNaverBond] reads one digit before the point only: when the
    pattern matches from the second character of a text on, the first
    character, digit or not, is left out, so a page that shows 12.345
    yields 2.345. *)
Theorem bond_leading_digit_dropped (url : string) (p : ascii) (s : string) (q : Q) :
  Crawl.bond_at s = Some q ->
  Crawl.crawlNaverBond url (Common.Got (String p s)) = Common.Got (Fin q).
Proof.
  intros H. unfold Crawl.crawlNaverBond.
  assert (Crawl.bond_at (String p s) = None) as Hp.
  { unfold Crawl.bond_at in *.
    destruct s as [|d [|pt [|a [|b [|c rest]]]]]; try discriminate H.
    destruct (is_digit d) eqn:Ed; [|discriminate H].
    assert (Ascii.eqb d "." = false) as Hd.
    { destruct (Ascii.eqb d ".") eqn:E; [|reflexivity].
      apply Ascii.eqb_eq in E. subst d. discriminate Ed. }
    rewrite Hd, andb_false_r. reflexivity. }
  change (Crawl.bond_search (String p s))
    with (match Crawl.bond_at (String p s) with
          | Some q => Some q
          | None => Crawl.bond_search s
          end).
  rewrite Hp.
  assert (Crawl.bond_search s = Some q) as ->; [|reflexivity].
  destruct s as [|c s']; [discriminate H|].
  change (Crawl.bond_search (String c s'))
    with (match Crawl.bond_at (String c s') with
          | Some q => Some q
          | None => Crawl.bond_search s'
          end).
  rewrite H. reflexivity.
Qed.

Lemma bond_leading_digit_dropped_witness :
  Crawl.crawlNaverBond "u" (Common.Got "12.345")
  = Common.Got (Fin (Crawl.decimal3 "2" "3" "4" "5")).
Proof.
  apply (bond_leading_digit_dropped "u" "1" "2.345"). reflexivity.
Defined.

(** ** The headlines *)

Lemma uniq_loop_spec (limit : nat) (items : list P2.headline) :
  forall (seen : gset string) (uniq : list P2.headline),
    (length uniq < limit)%nat ->
    List.NoDup (List.map P2.link uniq) ->
    (forall x, x ∈ seen <-> In x (List.map P2.link uniq)) ->
    exists added,
      News.uniq_loop limit seen uniq items = uniq ++ added
      /\ sublist added items
      /\ List.NoDup (List.map P2.link (uniq ++ added))
      /\ (length (uniq ++ added) <= limit)%nat
      /\ (forall it, In it items ->
            In (P2.link it) (List.map P2.link (uniq ++ added))
            \/ length (uniq ++ added) = limit).
Proof.
  induction items as [|it rest IH]; intros seen uniq Hlen Hnd Hseen; simpl.
  - exists []. rewrite app_nil_r. split; [reflexivity|]. split; [constructor|].
    split; [exact Hnd|]. split; [lia|]. intros it [].
  - case_bool_decide as Hin.
    + destruct (IH seen uniq Hlen Hnd Hseen) as [added [E [Hsub [Hn [Hl Hall]]]]].
      exists added. repeat split; auto.
      * apply sublist_cons. exact Hsub.
      * intros it' [<-|Hit]; [|apply Hall, Hit].
        left. rewrite List.map_app. apply in_or_app. left. apply Hseen, Hin.
    + assert (List.NoDup (List.map P2.link (uniq ++ [it]))) as Hnd'.
      { rewrite List.map_app. simpl. apply List.NoDup_app; [exact Hnd | |].
        - repeat constructor. simpl. tauto.
        - intros x Hx [<-|[]]. apply Hin, Hseen, Hx. }
      destruct (Nat.leb_spec limit (length (uniq ++ [it]))) as [Hfull|Hroom].
      * exists [it]. rewrite List.length_app in *. simpl in *.
        repeat split; auto.
        -- apply sublist_skip, sublist_nil_l.
        -- lia.
        -- intros it' _. right. lia.
      * destruct (IH ({[ P2.link it ]} ∪ seen) (uniq ++ [it]) Hroom Hnd')
          as [added [E [Hsub [Hn [Hl Hall]]]]].
        { intros x. rewrite List.map_app, in_app_iff. simpl.
          rewrite elem_of_union, elem_of_singleton, Hseen. intuition. }
        exists (it :: added). rewrite <- app_assoc in E, Hn, Hl, Hall. simpl in *.
        repeat split; auto.
        -- apply sublist_skip. exact Hsub.
        -- intros it' [<-|Hit]; [|apply Hall, Hit].
           left. rewrite List.map_app. apply in_or_app. right. left. reflexivity.
Qed.

Lemma item_of_shape (a : News.anchor) (it : P2.headline) :
  In it (News.item_of a) ->
  P2.title it <> EmptyString /\ startsWith "http" (P2.link it) = true.
Proof.
  unfold News.item_of. destruct (News.text a) as [|ch t]; [intros []|].
  destruct (includes "news_read.naver" (or_default (News.href a) "")); [|intros []].
  intros [<-|[]]. cbn [P2.title P2.link]. split; [discriminate|].
  destruct (startsWith "http" (or_default (News.href a) "")) eqn:E;
    [exact E | reflexivity].
Qed.

(** X17. The headline list of part_002, for a positive limit (eight for
    [/api/market/today], five for the analysis prompt): it has at most
    [limit] headlines, no two with the same link; it is taken from the
    news links of the page in their order; a news link of the page is
    missing from it only when the list is full; and every headline has a
    title and an absolute link. *)
Theorem headlines_distinct_and_bounded (limit : nat) (anchors : list News.anchor) :
  (0 < limit)%nat ->
  let hs := News.headlines limit anchors in
  (length hs <= limit)%nat
  /\ List.NoDup (List.map P2.link hs)
  /\ sublist hs (News.items_of anchors)
  /\ (forall it, In it (News.items_of anchors) ->
        In (P2.link it) (List.map P2.link hs) \/ length hs = limit)
  /\ Forall (fun it => P2.title it <> EmptyString
                       /\ startsWith "http" (P2.link it) = true) hs.
Proof.
  intros Hlimit hs. unfold hs, News.headlines.
  destruct (uniq_loop_spec limit (News.items_of anchors) ∅ [] Hlimit
              (List.NoDup_nil _)) as [added [E [Hsub [Hn [Hl Hall]]]]].
  { intros x. simpl. rewrite elem_of_empty. tauto. }
  simpl in *. rewrite E. repeat split; auto.
  apply List.Forall_forall. intros it Hit.
  assert (In it (News.items_of anchors)) as Hin.
  { apply list_elem_of_In. eapply elem_of_sublist; [|exact Hsub].
    apply list_elem_of_In. exact Hit. }
  unfold News.items_of in Hin. apply in_flat_map in Hin.
  destruct Hin as [a [_ Ha]]. apply (item_of_shape a it Ha).
Qed.

Lemma headlines_distinct_and_bounded_witness :
  (length (News.headlines 5
             [ {| News.href := Some "/news/news_read.naver?article_id=1";
                  News.text := "KOSPI closes higher" |};
               {| News.href := Some "/news/news_read.naver?article_id=1";
                  News.text := "KOSPI closes higher (photo)" |};
               {| News.href := None; News.text := "menu" |} ]) <= 5)%nat.
Proof.
  apply (headlines_distinct_and_bounded 5). lia.
Defined.

(** ** Further properties of the analysis route of part_002 *)

Lemma P2_start_no_key (cache : gmap string P2.entry) (st : Common.state)
    (d : Common.db) (q : option string) (now : Z) (kst : string) :
  fresh2 cache (key2 q) now = None ->
  P2.analysis_start cache st d false q now kst
  = inl {| code := 200;
           body := {| P2.b_payload := P2.placeholder kst (key2 q) P2.msg_no_key;
                      P2.b_cached := None; P2.b_cacheAgeSec := None;
                      P2.b_degraded := true;
                      P2.b_warning := None; P2.b_error := None |} |}.
Proof.
  unfold fresh2, key2, P2.analysis_start. intros H. cbv zeta. rewrite H. reflexivity.
Qed.

Lemma P2_start_pending (cache : gmap string P2.entry) (st : Common.state)
    (d : Common.db) (q : option string) (now : Z) (kst : string) :
  fresh2 cache (key2 q) now = None ->
  exists p, P2.analysis_start cache st d true q now kst = inr p
            /\ P2.pn_symbol p = key2 q /\ P2.pn_now p = now.
Proof.
  unfold fresh2, key2, P2.analysis_start. intros H. cbv zeta. rewrite H.
  eexists. split; [reflexivity|]. split; reflexivity.
Qed.

Lemma on_error_degraded (cache : gmap string P2.entry) (symbol kst msg : string) :
  code (P2.on_error cache symbol kst msg) = 200
  /\ P2.b_degraded (body (P2.on_error cache symbol kst msg)) = true.
Proof.
  pose proof (on_error_shape cache symbol kst msg) as H. cbv zeta in H.
  destruct H as [Hc [Hd _]]. split; assumption.
Qed.

(** X18. The analysis route of part_002 answers every request with code
    200, whatever fails; it makes at most one completion call; it
    leaves the cache entries of all other subjects alone; and it writes
    the entry of its own subject only when the completion call returned,
    with the time of the request and the text returned, in which case
    the answer is that payload, marked as not cached.  A degraded answer
    never changes the cache. *)
Theorem analysis_route_of_part_002 (cache : gmap string P2.entry)
    (st : Common.state) (d : Common.db) (q : option string) (w : P2.world) :
  let out := P2.api_analysis cache st d q w in
  let cache' := fst (fst out) in
  let r := snd (fst out) in
  code r = 200
  /\ (snd out <= 1)%nat
  /\ (forall k, k <> key2 q -> cache' !! k = cache !! k)
  /\ (cache' = cache
      \/ exists text pl,
           P2.w_completion w = Common.Got text
           /\ cache' = <[ key2 q := {| P2.e_ts := P2.w_now w; P2.e_payload := pl |} ]> cache
           /\ P2.p_analysis pl = text /\ P2.p_symbol pl = key2 q
           /\ P2.b_payload (body r) = pl /\ P2.b_cached (body r) = Some false
           /\ P2.b_degraded (body r) = false)
  /\ (P2.b_degraded (body r) = true -> cache' = cache).
Proof.
  intros out cache' r. subst r cache' out. unfold P2.api_analysis.
  destruct (fresh2 cache (key2 q) (P2.w_now w)) as [e|] eqn:F.
  { rewrite (P2_start_fresh _ _ _ _ _ _ _ _ F). cbn [fst snd code body].
    repeat split; auto. }
  destruct (P2.w_has_key w).
  2:{ rewrite (P2_start_no_key _ _ _ _ _ _ F). cbn [fst snd code body].
      repeat split; auto. }
  destruct (P2_start_pending cache st d q (P2.w_now w) (P2.w_kst w) F)
    as [p [-> [Hsym Hnow]]].
  unfold P2.analysis_news.
  destruct (P2.w_market w) as [hs|m].
  2:{ cbn [fst snd]. destruct (on_error_degraded cache (P2.pn_symbol p) (P2.w_kst w) m).
      repeat split; auto. }
  unfold P2.analysis_gen. cbn [P2.pg_symbol P2.pg_now P2.pg_prompt
                                P2.pr_s1 P2.pr_s7 P2.pr_headlines].
  destruct (P2.w_completion w) as [text|m].
  2:{ cbn [fst snd]. destruct (on_error_degraded cache (P2.pn_symbol p) (P2.w_kst w) m).
      repeat split; auto. }
  cbn [fst snd code body P2.b_payload P2.b_cached P2.b_degraded].
  rewrite Hsym, Hnow.
  split; [reflexivity|]. split; [lia|].
  split; [intros k Hk; apply lookup_insert_ne; congruence|].
  split; [|discriminate].
  right. eexists _, _. split; [reflexivity|]. split; [reflexivity|].
  repeat split.
Qed.



Lemma startsWith_append (p s : string) : startsWith p (String.append p s) = true.
Proof.
  induction p as [|ch p IH]; simpl; [reflexivity|].
  rewrite Ascii.eqb_refl, IH. reflexivity.
Qed.

Lemma includes_startsWith (p s : string) :
  startsWith p s = true -> includes p s = true.
Proof.
  intros H. destruct s as [|ch s]; [exact H|].
  cbn [includes]. rewrite H. reflexivity.
Qed.

Lemma includes_append (p pre post : string) :
  includes p (String.append pre (String.append p post)) = true.
Proof.
  induction pre as [|ch pre IH].
  - change (includes p (String.append p post) = true).
    apply includes_startsWith, startsWith_append.
  - change (includes p (String ch (String.append pre (String.append p post))) = true).
    cbn [includes]. rewrite IH. apply orb_true_r.
Qed.

(** X20. The test for a rate limit looks at the text of the message
    only, and the handler applies it to every exception of its body:
    when the headline fetch fails with a message that holds "429"
    anywhere, as the message "HTTP 429 ..." of [fetchText] does, the
    answer says that OpenAI limited the rate, although no completion
    call was made; it has code 200 and carries no error text. *)
Theorem headline_failure_read_as_rate_limit (cache : gmap string P2.entry)
    (p : P2.pending_news) (pre post kst : string) :
  exists r,
    P2.analysis_news cache p
      (Common.Threw (String.append pre (String.append "429" post))) kst = inl r
    /\ code r = 200
    /\ (P2.b_warning (body r) = Some P2.warn_cached
        \/ P2.b_warning (body r) = Some P2.warn_no_cache)
    /\ P2.b_error (body r) = None.
Proof.
  unfold P2.analysis_news, P2.on_error, P2.isRateLimit.
  rewrite includes_append. cbn [orb].
  destruct (cache !! P2.pn_symbol p); eexists; (split; [reflexivity|]);
    cbn [code body P2.b_warning P2.b_error]; auto.
Qed.

(** ** Further properties of part_001 *)

Lemma keep_unless_nan_clean (n : jsnum) (old : jsval) :
  clean_slot old -> clean_slot (P1.keep_unless_nan n old).
Proof.
  unfold P1.keep_unless_nan. intros H. destruct (isNaN n) eqn:E; [exact H | exact E].
Qed.

(** X21. A cycle of part_001 saves what its crawlers returned in this
    cycle and nothing else: the table keeps its rows and gains, under
    the time of the cycle in seconds, a tick exactly for every
    collected symbol whose value of this cycle is truthy.  So a crawler
    that threw adds no tick, no value of an earlier cycle is written
    again, and no tick of the spread is ever written. *)
Theorem collectData_saves_what_it_fetched (st : P1.state) (d : Common.db)
    (k : P1.crawl) (nowms : Z) (kst : string) :
  exists new,
    snd (P1.collectData st d k nowms kst) = d ++ new
    /\ (forall x, In x new <->
          exists s n, crawled k s = Some n /\ truthy (JNum n) = true
                      /\ x = mk_tick (nowms / 1000) s n)
    /\ Forall (fun x => Common.symbol x <> "SPREAD10Y"
                        /\ isNaN (Common.value x) = false) new.
Proof.
  assert (exists x, snd (P1.collectData st d k nowms kst)
                    = P1.saveTicks d (nowms / 1000) x
                    /\ forall s n, In (s, JNum n) (entries x) <-> crawled k s = Some n)
    as [x [E Hx]].
  { unfold P1.collectData. destruct k as [fx bond dxy].
    destruct fx as [[u e]|m1], bond as [[kv uv]|m2], dxy as [v|m3];
      try destruct (isNaN v) eqn:Ev;
      cbv beta iota zeta delta [P1.k_fx P1.k_bond P1.k_dxy P1.crawlNaverFx
                                P1.crawlNaverBond P1.crawlInvestingDXY];
      rewrite ?Ev; cbv beta iota zeta delta [P1.collect_end fst snd];
      (eexists; split; [reflexivity|]);
      intros s n; unfold entries, crawled;
      cbn [In P1.d_USDKRW P1.d_EURKRW P1.d_DXY P1.d_KR10Y P1.d_US10Y
              P1.k_fx P1.k_bond P1.k_dxy];
      rewrite ?Ev;
      (split;
       [ intros H; split_members; try discriminate H;
         injection H as <- <-; reflexivity
       | repeat match goal with
                | |- context [String.eqb s ?lit] =>
                    destruct (String.eqb_spec s lit) as [->|?];
                    [first [discriminate | intros [= <-]; intuition congruence]|]
                end;
         discriminate ]). }
  exists (P1.saveTicks [] (nowms / 1000) x). split; [exact E|]. split.
  - intros y. rewrite P1_saveTicks_In. split.
    + intros [[]|[s [v [n [Hin [Ht [-> ->]]]]]]]. exists s, n.
      split; [apply Hx, Hin|]. split; [exact Ht | reflexivity].
    + intros [s [n [Hc [Ht ->]]]]. right. exists s, (JNum n), n.
      split; [apply Hx, Hc|]. repeat split. exact Ht.
  - apply List.Forall_forall. intros y Hy. apply P1_saveTicks_In in Hy.
    destruct Hy as [[]|[s [v [n [Hin [Ht [-> ->]]]]]]]. simpl. split.
    + intros ->. unfold entries in Hin. simpl in Hin. split_members; discriminate Hin.
    + destruct n; simpl in *; congruence.
Qed.

Lemma tidy_parts (usd eur dx kr us : jsval) (sp : option jsnum) (kst : string)
    (errs : list string) :
  clean_slot usd -> clean_slot eur -> clean_slot dx -> clean_slot kr -> clean_slot us ->
  Forall (fun m => In m crawler_messages) errs ->
  tidy {| P1.USDKRW := usd; P1.EURKRW := eur; P1.DXY := dx; P1.KR10Y := kr;
          P1.US10Y := us; P1.spread10y := sp; P1.asofKST := kst; P1.errors := errs |}.
Proof.
  intros. split; [|assumption]. unfold slots1. simpl. repeat constructor; assumption.
Qed.

Lemma tidy_slots (st : P1.state) :
  tidy st ->
  clean_slot (P1.USDKRW st) /\ clean_slot (P1.EURKRW st) /\ clean_slot (P1.DXY st)
  /\ clean_slot (P1.KR10Y st) /\ clean_slot (P1.US10Y st)
  /\ Forall (fun m => In m crawler_messages) (P1.errors st).
Proof.
  intros [H He]. unfold slots1 in H.
  inversion H as [|? ? H1 H']; subst. inversion H' as [|? ? H2 H'']; subst.
  inversion H'' as [|? ? H3 H3']; subst. inversion H3' as [|? ? H4 H4']; subst.
  inversion H4' as [|? ? H5 _]; subst. repeat split; assumption.
Qed.

Lemma push_error_tidy (st : P1.state) (m : string) :
  In m crawler_messages -> tidy st -> tidy (P1.push_error st m).
Proof.
  intros Hm H. destruct (tidy_slots st H) as [H1 [H2 [H3 [H4 [H5 He]]]]].
  unfold P1.push_error. apply tidy_parts; try assumption.
  apply List.Forall_app. split; [exact He | constructor; [exact Hm | constructor]].
Qed.

Lemma crawlNaverFx_tidy (st : P1.state) (r : Common.fetched (jsnum * jsnum)) :
  tidy st -> tidy (fst (P1.crawlNaverFx st r)).
Proof.
  intros H. destruct r as [[u e]|m]; simpl.
  - destruct (tidy_slots st H) as [H1 [H2 [H3 [H4 [H5 He]]]]].
    apply tidy_parts; auto using keep_unless_nan_clean.
  - apply push_error_tidy; [simpl; tauto | exact H].
Qed.

Lemma crawlNaverBond_tidy (st : P1.state) (r : Common.fetched (jsnum * jsnum)) :
  tidy st -> tidy (fst (P1.crawlNaverBond st r)).
Proof.
  intros H. destruct r as [[kv uv]|m]; simpl.
  - destruct (tidy_slots st H) as [H1 [H2 [H3 [H4 [H5 He]]]]].
    apply tidy_parts; auto using keep_unless_nan_clean.
  - apply push_error_tidy; [simpl; tauto | exact H].
Qed.

Lemma crawlInvestingDXY_tidy (st : P1.state) (r : Common.fetched jsnum) :
  tidy st -> tidy (fst (P1.crawlInvestingDXY st r)).
Proof.
  intros H. destruct r as [v|m]; simpl.
  - destruct (isNaN v) eqn:Ev; simpl.
    + apply push_error_tidy; [simpl; tauto | exact H].
    + destruct (tidy_slots st H) as [H1 [H2 [H3 [H4 [H5 He]]]]].
      apply tidy_parts; auto.
  - apply push_error_tidy; [simpl; tauto | exact H].
Qed.

Lemma collect_step_tidy (s : csys) (e : cevent) :
  tidy (cs_state s) -> tidy (cs_state (collect_step s e)).
Proof.
  intros H. destruct (tidy_slots _ H) as [H1 [H2 [H3 [H4 [H5 He]]]]].
  destruct e as [nowms | i r | i r | i r | i kst]; simpl.
  - apply tidy_parts; auto.
  - destruct (nth_error (cs_running s) i) as [[ts [f|] b x]|]; simpl;
      auto using crawlNaverFx_tidy.
  - destruct (nth_error (cs_running s) i) as [[ts f [b|] x]|]; simpl;
      auto using crawlNaverBond_tidy.
  - destruct (nth_error (cs_running s) i) as [[ts f b [x|]]|]; simpl;
      auto using crawlInvestingDXY_tidy.
  - destruct (nth_error (cs_running s) i) as [[ts [f|] [b|] [x|]]|]; simpl;
      exact H.
Qed.

Lemma collect_run_tidy (es : list cevent) (s : csys) :
  tidy (cs_state s) -> tidy (cs_state (fold_left collect_step es s)).
Proof.
  revert s. induction es as [|e es IH]; intros s Hs; simpl.
  - exact Hs.
  - apply IH, collect_step_tidy, Hs.
Qed.

(** X22. In every snapshot that part_001 reaches, with its runs of
    [collectData] overlapping and their crawlers settling in any order,
    each of the five slots is null or a number other than NaN, so a
    value that did not parse never replaces a good one, and the error
    list holds messages of the crawlers only.  A run that no other run
    overlaps ends, whatever the order in which its crawlers settle,
    with the messages of its own crawlers that failed, in the order in
    which they settled, three at most, and with the table and the slots
    that [collectData] gives.  When runs overlap the list mixes them:
    a crawler of an earlier run that fails after a later run has begun
    pushes onto the list of the later one, which can then hold more
    than three messages. *)
Theorem run_collects_invariant :
  (forall es, tidy (cs_state (collect_run es)))
  /\ (forall st d k nowms kst order,
        In order settle_orders ->
        let s := fold_left collect_step (lone_run k nowms kst order)
                   {| cs_state := st; cs_db := d; cs_running := [] |} in
        P1.errors (cs_state s) = List.map message_of (List.filter (fails k) order)
        /\ (length (P1.errors (cs_state s)) <= 3)%nat
        /\ cs_running s = []
        /\ cs_db s = snd (P1.collectData st d k nowms kst)
        /\ slots1 (cs_state s) = slots1 (fst (P1.collectData st d k nowms kst)))
  /\ (forall m1 m2 m3 m4 kst,
        let late := [ Begin 1700000000000; Begin 1700000010000;
                      FxSettles 0 (Common.Threw m1); BondSettles 0 (Common.Threw m2);
                      DxySettles 0 (Common.Threw m3); Finish 0 kst;
                      FxSettles 0 (Common.Threw m4) ] in
        P1.errors (cs_state (collect_run late))
        = [ P1.msg_fx; P1.msg_bond; P1.msg_dxy; P1.msg_fx ]).
Proof.
  split; [|split].
  - intros es. apply collect_run_tidy. apply tidy_parts; simpl; auto.
  - intros st d k nowms kst order Hin s.
    assert (P1.errors (cs_state s) = List.map message_of (List.filter (fails k) order)
            /\ cs_running s = []
            /\ cs_db s = snd (P1.collectData st d k nowms kst)
            /\ slots1 (cs_state s) = slots1 (fst (P1.collectData st d k nowms kst)))
      as [He [Hr [Hd Hs]]].
    { subst s. unfold settle_orders in Hin. simpl in Hin.
      destruct k as [fx bond dxy].
      split_members; subst order;
        destruct fx as [[u e]|m1], bond as [[kv uv]|m2], dxy as [v|m3];
        try destruct (isNaN v) eqn:Ev;
        cbn [lone_run List.map app settles fails List.filter message_of fold_left
             collect_step cs_running cs_state cs_db nth_error
             P1.k_fx P1.k_bond P1.k_dxy];
        unfold P1.collectData;
        cbn [P1.crawlNaverFx P1.crawlNaverBond P1.crawlInvestingDXY
             P1.collect_begin P1.collect_end P1.push_error fst snd
             P1.k_fx P1.k_bond P1.k_dxy];
        rewrite ?Ev;
        cbn [lone_run List.map app settles fails List.filter message_of fold_left
             collect_step cs_running cs_state cs_db nth_error drop_nth
             P1.crawlNaverFx P1.crawlNaverBond P1.crawlInvestingDXY
             P1.collect_begin P1.collect_end P1.push_error fst snd
             P1.USDKRW P1.EURKRW P1.DXY P1.KR10Y P1.US10Y P1.errors
             P1.spread10y P1.asofKST slots1];
        repeat split; reflexivity. }
    split; [exact He|]. split; [|split; [exact Hr|split; [exact Hd | exact Hs]]].
    rewrite He, List.length_map.
    unfold settle_orders in Hin. simpl in Hin.
    split_members; subst order; simpl;
      repeat match goal with
             | |- context [if ?b then _ else _] => destruct b; simpl
             end; lia.
  - intros m1 m2 m3 m4 kst late. reflexivity.
Qed.

Lemma analysis_start_pending (g g' : P1.guard) (st : P1.state) (d : Common.db)
    (has_client : bool) (q : option string) (now : Z) (p : P1.pending) :
  P1.analysis_start g st d has_client q now = (g', inr p) ->
  P1.analysisCache g' = P1.analysisCache g
  /\ P1.pd_cacheKey p = String.append "analysis_" (P1.pd_symbol p)
  /\ P1.pd_cacheKey p = key1 q /\ P1.pd_now p = now.
Proof.
  unfold P1.analysis_start, key1. cbv zeta.
  destruct (match P1.analysisCache g !! String.append "analysis_" (or_default q "USDKRW") with
            | Some cached =>
                if now - P1.e_timestamp cached <? P1.ANALYSIS_TTL_MS
                then Some cached else None
            | None => None
            end); [discriminate|].
  destruct (now - P1.lastAnalysisTime g <? P1.ANALYSIS_COOLDOWN_MS); [discriminate|].
  destruct has_client; simpl; [|discriminate].
  intros [= <- <-]. repeat split.
Qed.

Lemma drop_nth_Forall {A : Type} (P : A -> Prop) (i : nat) (xs : list A) :
  Forall P xs -> Forall P (drop_nth i xs).
Proof.
  revert i. induction xs as [|x xs IH]; intros i H; destruct i; simpl; auto.
  - inversion H; assumption.
  - inversion H; subst. constructor; auto.
Qed.

Lemma sys_step_cache_made (s : sys) (e : event) : cache_made s -> cache_made (sys_step s e).
Proof.
  intros [Hc Hp]. destruct e as [st d hc q now | i r kst]; simpl.
  - destruct (P1.analysis_start (s_guard s) st d hc q now) as [g' [resp|p]] eqn:E.
    + destruct (analysis_start_cases (s_guard s) st d hc q now)
        as [[resp' E'] | [p' [E' _]]]; rewrite E' in E; [|discriminate].
      injection E as <- _. split; assumption.
    + apply analysis_start_pending in E. destruct E as [Eg [Ek _]].
      split; simpl; [rewrite Eg; exact Hc | constructor; assumption].
  - destruct (nth_error (s_inflight s) i) as [p|] eqn:En; [|split; assumption].
    split; simpl; [|apply drop_nth_Forall; exact Hp].
    assert (P1.pd_cacheKey p = String.append "analysis_" (P1.pd_symbol p)) as Hk.
    { rewrite List.Forall_forall in Hp. apply Hp. eapply nth_error_In, En. }
    unfold P1.analysis_finish. destruct r as [a|err].
    + cbn [fst P1.analysisCache]. intros k e.
      destruct (decide (P1.pd_cacheKey p = k)) as [<-|Hne].
      * rewrite lookup_insert_eq. intros [= <-]. split; [exact Hk | reflexivity].
      * rewrite lookup_insert_ne by exact Hne. apply Hc.
    + assert (fst (match P1.err_status err with
                   | Some 429 =>
                       (s_guard s, {| code := 429; body := P1.RetryLater 300 |})
                   | _ => (s_guard s,
                           {| code := 500;
                              body := P1.Failure "analysis generation failed" |})
                   end) = s_guard s) as ->; [|exact Hc].
      case_matches; reflexivity.
Qed.

Lemma sys_run_cache_made (es : list event) (s : sys) :
  cache_made s -> cache_made (fold_left sys_step es s).
Proof.
  revert s. induction es as [|e es IH]; intros s Hs; simpl.
  - exact Hs.
  - apply IH, sys_step_cache_made, Hs.
Qed.

(** X23. In every state the analysis route of part_001 reaches, in any
    interleaving, a cache entry sits under the key of the symbol it was
    made for, and the [cachedUntil] it tells the client is exact: the
    entry is served to a request exactly when the request arrives before
    that time. *)
Theorem cachedUntil_is_exact (es : list event) (k : string) (e : P1.entry) :
  P1.analysisCache (s_guard (sys_run es)) !! k = Some e ->
  k = String.append "analysis_" (P1.r_symbol (P1.e_data e))
  /\ forall now,
       fresh1 (s_guard (sys_run es)) k now = Some e
       <-> now < P1.r_cachedUntil (P1.e_data e).
Proof.
  intros Hk.
  assert (cache_made (sys_run es)) as [Hc _].
  { apply sys_run_cache_made. split; [|constructor].
    intros k' e'. simpl. rewrite lookup_empty. discriminate. }
  destruct (Hc k e Hk) as [Hkey Huntil]. split; [exact Hkey|].
  intros now. unfold fresh1. rewrite Hk, Huntil.
  destruct (now - P1.e_timestamp e <? P1.ANALYSIS_TTL_MS) eqn:E.
  - apply Z.ltb_lt in E. split; [lia | reflexivity].
  - apply Z.ltb_ge in E. split; [discriminate | lia].
Qed.

Lemma cachedUntil_is_exact_witness :
  fresh1 (s_guard (sys_run [ Arrive p1_boot [] true (Some "USDKRW") 1700000000000;
                             Settle 0 (P1.Completed "steady") "k" ]))
    "analysis_USDKRW" 1700000060000
  = Some {| P1.e_data := {| P1.r_symbol := "USDKRW"; P1.r_analysis := "steady";
                            P1.r_asofKST := "k";
                            P1.r_cachedUntil := 1700043200000 |};
            P1.e_timestamp := 1700000000000 |}.
Proof.
  apply (proj2 (cachedUntil_is_exact
                  [ Arrive p1_boot [] true (Some "USDKRW") 1700000000000;
                    Settle 0 (P1.Completed "steady") "k" ]
                  "analysis_USDKRW"
                  {| P1.e_data := {| P1.r_symbol := "USDKRW"; P1.r_analysis := "steady";
                                     P1.r_asofKST := "k";
                                     P1.r_cachedUntil := 1700043200000 |};
                     P1.e_timestamp := 1700000000000 |}
                  eq_refl) 1700000060000).
  reflexivity.
Defined.

(** X24. The wait that the cooldown answer of part_001 tells the client
    lies between 1 and 300 seconds as long as the clock has not stepped
    back behind the last call; after such a step it is more than 300
    seconds. *)
Theorem retry_after_bounds (g : P1.guard) (st : P1.state) (d : Common.db)
    (has_client : bool) (q : option string) (now : Z) :
  fresh1 g (key1 q) now = None ->
  now - P1.lastAnalysisTime g < P1.ANALYSIS_COOLDOWN_MS ->
  exists w,
    P1.analysis_start g st d has_client q now
    = (g, inl {| code := 429; body := P1.RetryLater w |})
    /\ (P1.lastAnalysisTime g <= now -> 1 <= w <= 300)
    /\ (now < P1.lastAnalysisTime g -> 300 < w).
Proof.
  intros Hf Hc. eexists. split; [apply analysis_start_cooldown; assumption|].
  pose proof (ceil_sec_bounds (P1.ANALYSIS_COOLDOWN_MS
                               - (now - P1.lastAnalysisTime g))) as Hb.
  unfold P1.ANALYSIS_COOLDOWN_MS in *. split; intros; lia.
Qed.

Lemma retry_after_bounds_witness :
  exists w,
    P1.analysis_start
      {| P1.analysisCache := ∅; P1.lastAnalysisTime := 1700000000000 |}
      p1_boot [] true (Some "EURKRW") 1700000001000
    = ({| P1.analysisCache := ∅; P1.lastAnalysisTime := 1700000000000 |},
       inl {| code := 429; body := P1.RetryLater w |})
    /\ 1 <= w <= 300.
Proof.
  destruct (retry_after_bounds
              {| P1.analysisCache := ∅; P1.lastAnalysisTime := 1700000000000 |}
              p1_boot [] true (Some "EURKRW") 1700000001000)
    as [w [H1 [H2 _]]].
  - vm_compute. reflexivity.
  - vm_compute. reflexivity.
  - exists w. split; [exact H1 | apply H2; simpl; lia].
Defined.

(** ** The candles of part_001 and the shared fold *)

Lemma buckets_get_bar (m : Common.cmap) (k : option Z) :
  P1.buckets_get (List.map (fun e => (fst e, bar_of (snd e))) m) k
  = option_map bar_of (Common.cmap_get m k).
Proof.
  induction m as [|[k0 x] m IH]; simpl; [reflexivity|].
  destruct (Common.key_eqb k0 k); [reflexivity | exact IH].
Qed.

Lemma buckets_update_bar (m : Common.cmap) (k : option Z)
    (f : Common.candle -> Common.candle) (f' : P1.ohlc -> P1.ohlc) :
  (forall x, bar_of (f x) = f' (bar_of x)) ->
  P1.buckets_update (List.map (fun e => (fst e, bar_of (snd e))) m) k f'
  = List.map (fun e => (fst e, bar_of (snd e))) (Common.cmap_update m k f).
Proof.
  intros Hf. induction m as [|[k0 x] m IH]; simpl; [reflexivity|].
  destruct (Common.key_eqb k0 k); simpl.
  - rewrite Hf. reflexivity.
  - rewrite IH. reflexivity.
Qed.

Lemma add_row_bar (w : Z) (m : Common.cmap) (r : Common.row) :
  P1.add_row w (List.map (fun e => (fst e, bar_of (snd e))) m) r
  = List.map (fun e => (fst e, bar_of (snd e))) (Common.add_row w m (in_ms r)).
Proof.
  unfold P1.add_row, Common.add_row. cbv zeta. rewrite buckets_get_bar.
  cbn [in_ms Common.r_ts Common.r_value].
  destruct (Common.cmap_get m (Common.bucketStart (Common.r_ts r * 1000) w)); simpl.
  - apply buckets_update_bar. reflexivity.
  - rewrite List.map_app. reflexivity.
Qed.

Lemma fold_add_row_bar (w : Z) (rows : list Common.row) (m : Common.cmap) :
  fold_left (P1.add_row w) rows (List.map (fun e => (fst e, bar_of (snd e))) m)
  = List.map (fun e => (fst e, bar_of (snd e)))
      (fold_left (Common.add_row w) (List.map in_ms rows) m).
Proof.
  revert m. induction rows as [|r rows IH]; intros m; simpl; [reflexivity|].
  rewrite add_row_bar. apply IH.
Qed.

Lemma in_ms_finite (rows : list Common.row) :
  Forall finite_row rows -> Forall finite_row (List.map in_ms rows).
Proof.
  intros H. apply List.Forall_forall. intros r Hr. apply List.in_map_iff in Hr.
  destruct Hr as [r0 [<- Hr0]]. rewrite List.Forall_forall in H. apply (H r0 Hr0).
Qed.

(** X25. The candles of part_001 are the candles of the fold shared by
    part_000 and part_002, taken over the same rows with their time in
    milliseconds: each has the bucket start in whole seconds and the
    same four values.  So when the rows are finite each candle of
    part_001 has its low at most its open and close and its high at
    least both. *)
Theorem part_001_candles (d : Common.db) (now : Z) (symbol interval range : string) :
  let rows := P1.selectSince d symbol ((now - P1.parseRangeToMs range) / 1000) in
  let shared := Common.aggregate (P1.intervalToMs interval) (List.map in_ms rows) in
  (forall x, In x (P1.getCandles d now symbol interval range)
             <-> exists y, In y shared
                           /\ P1.time x = option_map (fun t => t / 1000) (Common.t y)
                           /\ P1.bar x = bar_of y)
  /\ (Forall finite_row rows ->
      forall x, In x (P1.getCandles d now symbol interval range) ->
                js_le (P1.low (P1.bar x)) (P1.open (P1.bar x))
                /\ js_le (P1.open (P1.bar x)) (P1.high (P1.bar x))
                /\ js_le (P1.low (P1.bar x)) (P1.close (P1.bar x))
                /\ js_le (P1.close (P1.bar x)) (P1.high (P1.bar x))).
Proof.
  intros rows shared.
  assert (forall x, In x (P1.getCandles d now symbol interval range)
                    <-> exists y, In y shared
                                  /\ P1.time x = option_map (fun t => t / 1000) (Common.t y)
                                  /\ P1.bar x = bar_of y) as Hiff.
  { intros x. unfold P1.getCandles. cbv zeta. fold rows.
    rewrite sort_by_In.
    change (@nil (option Z * P1.ohlc))
      with (List.map (fun e : option Z * Common.candle => (fst e, bar_of (snd e))) []).
    rewrite fold_add_row_bar, List.map_map. cbn [fst snd].
    pose proof (fold_add_row_ok (P1.intervalToMs interval) (List.map in_ms rows) []
                  (conj (List.NoDup_nil _) (List.Forall_nil _))) as [_ Ht].
    rewrite List.Forall_forall in Ht.
    unfold shared, Common.aggregate. split.
    - intros Hx. apply List.in_map_iff in Hx. destruct Hx as [[k y] [<- He]].
      exists y. split.
      + apply sort_by_In. apply List.in_map_iff. exists (k, y).
        split; [reflexivity | exact He].
      + specialize (Ht _ He). simpl in Ht. rewrite Ht. split; reflexivity.
    - intros [y [Hy [Ht' Hb]]]. apply sort_by_In in Hy.
      apply List.in_map_iff in Hy. destruct Hy as [[k y'] [E He]].
      simpl in E. subst y'. apply List.in_map_iff. exists (k, y).
      split; [|exact He]. specialize (Ht _ He). simpl in Ht.
      destruct x as [tx bx]. simpl in *. subst. reflexivity. }
  split; [exact Hiff|].
  intros Hfin x Hx. apply Hiff in Hx. destruct Hx as [y [Hy [_ Hb]]].
  destruct (candle_extremes _ _ y (in_ms_finite rows Hfin) Hy)
    as [_ [[_ Hub] [[_ Hlb] [Ho [Hc _]]]]].
  rewrite Hb. cbn [bar_of P1.open P1.high P1.low P1.close].
  repeat split; auto.
Qed.

Lemma part_001_candles_witness :
  Forall finite_row
    (P1.selectSince [ mk_tick 1700000000 "USDKRW" (Fin 1300);
                      mk_tick 1700000010 "USDKRW" (Fin 1305) ] "USDKRW"
       ((1700000020000 - P1.parseRangeToMs "24h") / 1000))
  /\ js_le (Fin 1300) (Fin 1305).
Proof.
  assert (Forall finite_row
            (P1.selectSince [ mk_tick 1700000000 "USDKRW" (Fin 1300);
                              mk_tick 1700000010 "USDKRW" (Fin 1305) ] "USDKRW"
               ((1700000020000 - P1.parseRangeToMs "24h") / 1000))) as Hfin
    by (vm_compute; repeat constructor).
  split; [exact Hfin|].
  exact (proj1 (proj2
           (proj2 (part_001_candles
                     [ mk_tick 1700000000 "USDKRW" (Fin 1300);
                       mk_tick 1700000010 "USDKRW" (Fin 1305) ]
                     1700000020000 "USDKRW" "1m" "24h")
              Hfin
              {| P1.time := Some 1699999980;
                 P1.bar := {| P1.open := Fin 1300; P1.high := Fin 1305;
                              P1.low := Fin 1300; P1.close := Fin 1305 |} |}
              (or_introl eq_refl)))).
Defined.

Lemma analysis_route_of_part_002_witness :
  P2.b_degraded
    (body (snd (fst (P2.api_analysis ∅ Common.boot [] None
                       {| P2.w_has_key := false; P2.w_now := 1700000000000;
                          P2.w_kst := "k"; P2.w_market := Common.Got [];
                          P2.w_completion := Common.Got "unused" |})))) = true
  /\ fst (fst (P2.api_analysis ∅ Common.boot [] None
                 {| P2.w_has_key := false; P2.w_now := 1700000000000;
                    P2.w_kst := "k"; P2.w_market := Common.Got [];
                    P2.w_completion := Common.Got "unused" |})) = ∅.
Proof.
  assert (P2.b_degraded
            (body (snd (fst (P2.api_analysis ∅ Common.boot [] None
                               {| P2.w_has_key := false; P2.w_now := 1700000000000;
                                  P2.w_kst := "k"; P2.w_market := Common.Got [];
                                  P2.w_completion := Common.Got "unused" |})))) = true)
    as Hd by (vm_compute; reflexivity).
  split; [exact Hd|].
  exact (proj2 (proj2 (proj2 (proj2
           (analysis_route_of_part_002 ∅ Common.boot [] None
              {| P2.w_has_key := false; P2.w_now := 1700000000000;
                 P2.w_kst := "k"; P2.w_market := Common.Got [];
                 P2.w_completion := Common.Got "unused" |})))) Hd).
Defined.

(** ** A cycle and the next query *)

(** X26. What a cycle saves the next query finds: after [refresh] at time
    [now], [selectTicks] for an indicator over an interval that holds
    [now] returns a row with that time and a value exactly when the slot
    of the new snapshot holds that value and it is finite, or when such
    a row was already returned before the cycle. *)
Theorem refresh_then_select (st : Common.state) (d : Common.db) (c : Common.cycle)
    (now : Z) (kst : string) (i : indicator) (lo hi : Z) (v : jsnum) :
  lo <= now <= hi ->
  let st' := fst (Common.refresh st d c now kst) in
  let d' := snd (Common.refresh st d c now kst) in
  In {| Common.r_ts := now; Common.r_value := v |} (Common.selectTicks d' (sym i) lo hi)
  <-> (slot st' i = JNum v /\ isFinite v = true)
      \/ In {| Common.r_ts := now; Common.r_value := v |}
            (Common.selectTicks d (sym i) lo hi).
Proof.
  intros Hnow st' d'. unfold d', Common.selectTicks.
  rewrite refresh_db, !sort_by_In, List.filter_app, List.map_app, in_app_iff.
  fold st'.
  enough (In {| Common.r_ts := now; Common.r_value := v |}
             (List.map Common.row_of
                (List.filter (Common.in_range (sym i) lo hi)
                   (finite_ticks (now, Common.batch_of st'))))
          <-> slot st' i = JNum v /\ isFinite v = true) as HB
      by (rewrite HB; tauto).
  unfold st'. rewrite <- refresh_tick_slot. split.
  - intros H. apply List.in_map_iff in H. destruct H as [x [Hx Hin]].
    apply filter_In in Hin. destruct Hin as [Hin Hr].
    apply in_range_within in Hr. destruct Hr as [Hs _].
    destruct x as [xt xs xv]. simpl in Hs. unfold Common.row_of in Hx.
    simpl in Hx. injection Hx as -> ->. subst xs. exact Hin.
  - intros H. apply List.in_map_iff. exists (mk_tick now (sym i) v).
    split; [reflexivity|]. apply filter_In. split; [exact H|].
    apply in_range_within. split; [reflexivity | exact Hnow].
Qed.

Lemma refresh_then_select_witness :
  In {| Common.r_ts := 1700000000000; Common.r_value := Fin (35 # 10) |}
     (Common.selectTicks
        (snd (Common.refresh stale_kr_state [] kr_fails 1700000000000 "k"))
        "KR10Y" 0 1700000000000).
Proof.
  apply (proj2 (refresh_then_select stale_kr_state [] kr_fails 1700000000000 "k"
                  IKr10y 0 1700000000000 (Fin (35 # 10)) ltac:(lia))).
  left. split; reflexivity.
Defined.

(** ** Widths and ranges that do not parse, and widths of zero *)












